(** * rotate: a size- and age-bounded log file writer

    A shallow embedding of the Go package [rotate] and the properties of
    its rotation and retention engine.

    The package exists in two revisions of the same file:
    - [src/rotatewriter.go] (options field [keepDays], sweeps
      [deleteOutdatedFiles] and [deleteOverMaxFiles], lister [oldFiles],
      maintainer [postRotate]);
    - [src/unnamed/part_000] (options field [maxDays], sweeps
      [removeOutdatedFiles] and [removeOverMaxFiles], lister [listFiles],
      maintainer [afterRotate], and the sentinel [ErrFileNameIsEmpty]).
    The methods [init], [backupFileName], [Write], [Close], [write],
    [rotate], [compressFile] and [gzipFile] are the same text in both and
    are embedded once; what differs is embedded under the revision's own
    name.

    Layout of the development: machine integers; the parts of the Go
    standard library the package calls ([time], [path/filepath], [os]),
    modelled over an explicit world; the writer; then the theorems. *)

From Stdlib Require Import Ascii.
From Stdlib Require Import ZArith Lia.
From Stdlib Require String.
From stdpp Require Import base gmap sets list strings sorting.

Local Open Scope Z_scope.

(** ** Machine integers

    Go's [int64] (and [int] and [time.Duration] on the 64-bit targets)
    as [Z], with the two's complement wrap-around written out. *)

Definition min_int64 : Z := - 2 ^ 63.
Definition max_int64 : Z := 2 ^ 63 - 1.

Definition wrap64 (z : Z) : Z := (z + 2 ^ 63) mod 2 ^ 64 - 2 ^ 63.

Definition add64 (a b : Z) : Z := wrap64 (a + b).
Definition sub64 (a b : Z) : Z := wrap64 (a - b).
Definition mul64 (a b : Z) : Z := wrap64 (a * b).
Definition neg64 (a : Z) : Z := wrap64 (- a).

Definition in_int64 (z : Z) : Prop := min_int64 <= z <= max_int64.

(** [len] of a string or of a byte slice, as a Go [int]. *)
Definition len (s : string) : Z := Z.of_nat (String.length s).
Definition len_bytes (p : list Byte.byte) : Z := Z.of_nat (length p).

(** Go compares strings byte-wise; so does [String.compare]. *)
Definition str_lt (a b : string) : bool := String.ltb a b.
Definition str_ge (a b : string) : bool := negb (String.ltb a b).

(** [s[:n]] and [s[n:]] on strings, for [n] within bounds. *)
Definition str_take (n : nat) (s : string) : string := String.substring 0 n s.
Definition str_drop (n : nat) (s : string) : string :=
  String.substring n (String.length s - n) s.

(** ** Package [time]

    An instant is a count of nanoseconds since the Unix epoch together
    with the location it is presented in. The local zone is the
    environment's: a function from Unix seconds to the offset east of UTC
    in seconds that is in force at that second. *)

Module time.

Definition Duration : Type := Z.
Definition Nanosecond : Duration := 1.
Definition Second : Duration := 1000000000.
Definition Hour : Duration := 3600 * Second.

Inductive Location : Type := Local | UTC.

Record Time : Type := { unixNano : Z; loc : Location }.

Definition Zone : Type := Z -> Z.

Definition toUTC (t : Time) : Time := {| unixNano := unixNano t; loc := UTC |}.

(** [t.Add(d)]: the duration has already wrapped when it reaches here. *)
Definition Add (t : Time) (d : Duration) : Time :=
  {| unixNano := unixNano t + d; loc := loc t |}.

Definition Before (t u : Time) : Prop := unixNano t < unixNano u.

(** *** Calendar

    Days are counted from 0001-01-01 of the proleptic Gregorian
    calendar, as [absDate] does after removing its internal origin:
    400-year, 100-year, 4-year cycles, then years. *)

Definition secondsPerDay : Z := 86400.
Definition daysPer400Years : Z := 365 * 400 + 97.
Definition daysPer100Years : Z := 365 * 100 + 24.
Definition daysPer4Years : Z := 365 * 4 + 1.
(** Days from 0001-01-01 to 1970-01-01. *)
Definition unixToInternalDays : Z := 719162.

Definition yearDay (d : Z) : Z * Z :=
  let n400 := d / daysPer400Years in
  let d := d mod daysPer400Years in
  let n100 := d / daysPer100Years in
  let n100 := n100 - n100 / 4 in
  let d := d - daysPer100Years * n100 in
  let n4 := d / daysPer4Years in
  let d := d - daysPer4Years * n4 in
  let n := d / 365 in
  let n := n - n / 4 in
  let d := d - 365 * n in
  (400 * n400 + 100 * n100 + 4 * n4 + n + 1, d).

Definition isLeap (year : Z) : bool :=
  (year mod 4 =? 0) && (negb (year mod 100 =? 0) || (year mod 400 =? 0)).

Definition daysBefore (m : Z) : Z :=
  match m with
  | 0 => 0 | 1 => 31 | 2 => 59 | 3 => 90 | 4 => 120 | 5 => 151 | 6 => 181
  | 7 => 212 | 8 => 243 | 9 => 273 | 10 => 304 | 11 => 334 | _ => 365
  end.

(** Month (January is 1) and day of the month of the [yday]-th day
    (from 0) of a year. *)
Definition monthDay (leap : bool) (yday : Z) : Z * Z :=
  if leap && (yday =? 31 + 29 - 1) then (2, 29)
  else
    let day := if leap && (yday >? 31 + 29 - 1) then yday - 1 else yday in
    let month := day / 31 in
    let end_ := daysBefore (month + 1) in
    if day >=? end_ then (month + 2, day - end_ + 1)
    else (month + 1, day - daysBefore month + 1).

Record Civil : Type :=
  { year : Z; month : Z; day : Z; hour : Z; minute : Z; second : Z;
    nanosecond : Z; offset : Z }.

Definition zoneOffset (z : Zone) (t : Time) : Z :=
  match loc t with
  | UTC => 0
  | Local => z (unixNano t / Second)
  end.

(** The fields [Format] reads off an instant. *)
Definition civil (z : Zone) (t : Time) : Civil :=
  let off := zoneOffset z t in
  let sec := unixNano t / Second + off in
  let '(y, yd) := yearDay (sec / secondsPerDay + unixToInternalDays) in
  let '(m, d) := monthDay (isLeap y) yd in
  let sod := sec mod secondsPerDay in
  {| year := y; month := m; day := d;
     hour := sod / 3600; minute := sod mod 3600 / 60; second := sod mod 60;
     nanosecond := unixNano t mod Second; offset := off |}.

(** *** Formatting *)

Definition digit (d : Z) : Ascii.ascii := Ascii.ascii_of_N (Z.to_N (48 + d)).

(** Decimal digits of [u >= 0], most significant first, in front of
    [acc]. *)
Fixpoint utoa (fuel : nat) (u : Z) (acc : string) : string :=
  match fuel with
  | O => acc
  | S fuel' =>
      let acc' := String (digit (u mod 10)) acc in
      if u <? 10 then acc' else utoa fuel' (u / 10) acc'
  end.

Fixpoint zeros (n : nat) : string :=
  match n with O => "" | S n' => String "0"%char (zeros n') end.

(** [appendInt]: a sign for negative numbers, then the digits padded
    with zeros to at least [width]. *)
Definition appendInt (x : Z) (width : nat) : string :=
  let u := Z.abs x in
  let ds := utoa (S (Z.to_nat (Z.log2 u))) u "" in
  (if x <? 0 then "-" else "") +:+ zeros (width - String.length ds) +:+ ds.

Fixpoint trimRight (c : Ascii.ascii) (rev_s : string) : string :=
  match rev_s with
  | String a s' => if Ascii.eqb a c then trimRight c s' else rev_s
  | EmptyString => rev_s
  end.

(** [appendNano]: the fraction of a second with [n] digits, after a
    dot; with [trim], trailing zeros are dropped, and the dot with them
    when nothing is left. *)
Definition appendNano (nanosec : Z) (dot : Ascii.ascii) (n : nat) (trim : bool)
  : string :=
  if trim && ((n =? 0)%nat || (nanosec =? 0)) then ""
  else
    let b := String dot (str_take n (appendInt nanosec 9)) in
    if trim then
      let r := trimRight "0"%char (String.rev b) in
      let r := match r with
               | String a r' => if Ascii.eqb a dot then r' else r
               | EmptyString => r
               end in
      String.rev r
    else b.

(** The chunks of a layout. The numeric chunks below are the ones the
    package's defaults and tests use; the scanner does not interpret
    the other verbs of the Go layout language (names of months and
    days, 12-hour clock, zone abbreviations), which stay text. *)
Inductive chunk : Type :=
| stdLongYear | stdZeroMonth | stdZeroDay | stdHour | stdZeroMinute
| stdZeroSecond
| stdFracSecond0 (dot : Ascii.ascii) (n : nat)
| stdFracSecond9 (dot : Ascii.ascii) (n : nat)
| stdISO8601ColonTZ
| text (c : Ascii.ascii).

Fixpoint run (c : Ascii.ascii) (s : string) : nat :=
  match s with
  | String a s' => if Ascii.eqb a c then S (run c s') else O
  | EmptyString => O
  end.

Definition isDigit (s : string) : bool :=
  match s with
  | String a _ => (48 <=? Z.of_N (Ascii.N_of_ascii a)) && (Z.of_N (Ascii.N_of_ascii a) <=? 57)
  | EmptyString => false
  end.

(** First chunk of a non-empty layout and the number of bytes it
    covers. *)
Definition nextStdChunk (c : Ascii.ascii) (rest : string) : chunk * nat :=
  let s := String c rest in
  if String.prefix "2006" s then (stdLongYear, 4%nat)
  else if String.prefix "01" s then (stdZeroMonth, 2%nat)
  else if String.prefix "02" s then (stdZeroDay, 2%nat)
  else if String.prefix "04" s then (stdZeroMinute, 2%nat)
  else if String.prefix "05" s then (stdZeroSecond, 2%nat)
  else if String.prefix "15" s then (stdHour, 2%nat)
  else if String.prefix "Z07:00" s then (stdISO8601ColonTZ, 6%nat)
  else if Ascii.eqb c "."%char || Ascii.eqb c ","%char then
    let n0 := run "0"%char rest in
    let n9 := run "9"%char rest in
    if (0 <? n0)%nat && negb (isDigit (str_drop n0 rest))
    then (stdFracSecond0 c n0, S n0)
    else if (0 <? n9)%nat && negb (isDigit (str_drop n9 rest))
    then (stdFracSecond9 c n9, S n9)
    else (text c, 1%nat)
  else (text c, 1%nat).

Fixpoint scan (fuel : nat) (layout : string) : list chunk :=
  match fuel, layout with
  | S fuel', String c rest =>
      let '(ck, k) := nextStdChunk c rest in
      ck :: scan fuel' (str_drop k layout)
  | _, _ => []
  end.

Definition appendZone (off : Z) : string :=
  if off =? 0 then "Z"
  else
    let zone := Z.quot off 60 in
    let sign := if zone <? 0 then "-" else "+" in
    let zone := Z.abs zone in
    sign +:+ appendInt (zone / 60) 2 +:+ ":" +:+ appendInt (zone mod 60) 2.

Definition appendChunk (c : Civil) (ck : chunk) : string :=
  match ck with
  | stdLongYear => appendInt (year c) 4
  | stdZeroMonth => appendInt (month c) 2
  | stdZeroDay => appendInt (day c) 2
  | stdHour => appendInt (hour c) 2
  | stdZeroMinute => appendInt (minute c) 2
  | stdZeroSecond => appendInt (second c) 2
  | stdFracSecond0 dot n => appendNano (nanosecond c) dot n false
  | stdFracSecond9 dot n => appendNano (nanosecond c) dot n true
  | stdISO8601ColonTZ => appendZone (offset c)
  | text a => String a ""
  end.

Fixpoint appendChunks (c : Civil) (cks : list chunk) : string :=
  match cks with
  | [] => ""
  | ck :: cks' => appendChunk c ck +:+ appendChunks c cks'
  end.

(** [t.Format(layout)]. *)
Definition Format (z : Zone) (t : Time) (layout : string) : string :=
  appendChunks (civil z t) (scan (String.length layout) layout).

Definition RFC3339 : string := "2006-01-02T15:04:05Z07:00".

End time.

(** ** Errors

    The values of Go's [error] that reach the package: its own
    sentinels, the sentinels of [os] and [path/filepath], the error of a
    failed system call, and [multierr]'s combination. *)

Inductive Errno : Type :=
| ENOENT | EEXIST | EACCES | EISDIR | ENOTDIR | ENOSPC | EIO.

(** What the package asks of its environment, in the order it asks. *)
Inductive Effect : Type :=
| sysStat (name : string)
| sysMkdirAll (path : string)
| sysCreate (name : string)
| sysOpenAppend (name : string)
| sysOpen (name : string)
| sysWrite (fd : nat) (b : list Byte.byte)
| sysSync (fd : nat)
| sysClose (fd : nat)
| sysRename (oldpath newpath : string)
| sysRemove (name : string)
| sysCloseOnExec (fd : nat)
| sysGlob (pattern : string)
| sysGzipCopy (dst src : nat)
| sysGzipClose (dst : nat)
| goMaintainer.

Inductive error : Type :=
| ErrFileNameIsEmpty
| ErrLogFileClosed
| ErrDataOversize
| ErrInvalid
| ErrClosed
| ErrBadPattern
| PathError (call : Effect) (errno : Errno)
| multierr (e1 e2 : error).

(** [multierr.Append]. *)
Definition multierr_Append (e1 e2 : option error) : option error :=
  match e1, e2 with
  | None, _ => e2
  | _, None => e1
  | Some a, Some b => Some (multierr a b)
  end.

(** ** The world

    The file namespace, the open descriptors, the clock and the local
    zone, and the behaviour of the environment that the package cannot
    see: which calls fail ([faults], asked with the number of calls made
    so far), which names a glob pattern matches, what gzip makes of a
    file. [trace] records every call made, the last one last.

    Paths are taken as names: two spellings of a path are two names. A
    descriptor keeps the name it was opened on. *)

Record World : Type := {
  files : gmap string (list Byte.byte);
  dirs : gset string;
  fds : gmap nat string;
  now : Z;
  zone : time.Zone;
  faults : nat -> Effect -> option Errno;
  badPattern : string -> bool;
  matches : string -> string -> bool;
  gzipOf : list Byte.byte -> list Byte.byte;
  trace : list Effect
}.

Definition set_files (f : gmap string (list Byte.byte)) (w : World) : World :=
  {| files := f; dirs := dirs w; fds := fds w; now := now w; zone := zone w;
     faults := faults w; badPattern := badPattern w; matches := matches w;
     gzipOf := gzipOf w; trace := trace w |}.

Definition set_dirs (d : gset string) (w : World) : World :=
  {| files := files w; dirs := d; fds := fds w; now := now w; zone := zone w;
     faults := faults w; badPattern := badPattern w; matches := matches w;
     gzipOf := gzipOf w; trace := trace w |}.

Definition set_fds (d : gmap nat string) (w : World) : World :=
  {| files := files w; dirs := dirs w; fds := d; now := now w; zone := zone w;
     faults := faults w; badPattern := badPattern w; matches := matches w;
     gzipOf := gzipOf w; trace := trace w |}.

Definition set_trace (t : list Effect) (w : World) : World :=
  {| files := files w; dirs := dirs w; fds := fds w; now := now w; zone := zone w;
     faults := faults w; badPattern := badPattern w; matches := matches w;
     gzipOf := gzipOf w; trace := t |}.

(** A call is recorded, then asked of the environment. *)
Definition record (c : Effect) (w : World) : World :=
  set_trace (trace w ++ [c]) w.

Definition fault (c : Effect) (w : World) : option error :=
  PathError c <$> faults w (length (trace w)) c.

(** ** Package [path/filepath] and [path] *)

Module filepath.

(** [Ext]: the suffix from the last dot of the last element. The scan
    runs from the end of the path; [None] says it has not met a dot or a
    separator yet. *)
Fixpoint ext_scan (path : string) : option string :=
  match path with
  | EmptyString => None
  | String c rest =>
      match ext_scan rest with
      | Some e => Some e
      | None =>
          if Ascii.eqb c "."%char then Some path
          else if Ascii.eqb c "/"%char then Some ""
          else None
      end
  end.

Definition Ext (path : string) : string := default "" (ext_scan path).

(** [Glob]: the names that match the pattern, regular files and
    directories alike, or [ErrBadPattern]; I/O errors are ignored by
    [Glob] itself. A name is listed as the world spells it. [Glob]
    returns the directory of the pattern joined with the entry, a clean
    path: the spelling of the world when the pattern is a clean path
    itself. *)
Definition Glob (pattern : string) (w : World)
  : (list string * option error) * World :=
  let w' := record (sysGlob pattern) w in
  if badPattern w pattern then (([], Some ErrBadPattern), w')
  else ((filter (fun n => matches w pattern n = true)
           (elements (dom (files w) ∪ dirs w)),
         None), w').

End filepath.

Module path.

Fixpoint split_on (sep : Ascii.ascii) (cur : string) (s : string) : list string :=
  match s with
  | EmptyString => [String.rev cur]
  | String c rest =>
      if Ascii.eqb c sep then String.rev cur :: split_on sep "" rest
      else split_on sep (String c cur) rest
  end.

(** [Clean], on the elements of the path: empty and dot elements go, a
    dot-dot takes the element before it, or goes at the root. [stack]
    holds the kept elements, the last one first. *)
Fixpoint clean_elems (rooted : bool) (stack : list string) (elems : list string)
  : list string :=
  match elems with
  | [] => rev stack
  | e :: rest =>
      if String.eqb e "" || String.eqb e "." then clean_elems rooted stack rest
      else if String.eqb e ".." then
        match stack with
        | top :: stack' =>
            if String.eqb top ".." then clean_elems rooted (e :: stack) rest
            else clean_elems rooted stack' rest
        | [] =>
            if rooted then clean_elems rooted stack rest
            else clean_elems rooted (e :: stack) rest
        end
      else clean_elems rooted (e :: stack) rest
  end.

Definition Clean (p : string) : string :=
  let rooted := String.prefix "/" p in
  let body := String.concat "/" (clean_elems rooted [] (split_on "/"%char "" p)) in
  let out := (if rooted then "/" else "") +:+ body in
  if String.eqb out "" then "." else out.

(** Index after the last slash. *)
Fixpoint lastSlash (s : string) : option nat :=
  match s with
  | EmptyString => None
  | String c rest =>
      match lastSlash rest with
      | Some i => Some (S i)
      | None => if Ascii.eqb c "/"%char then Some 1%nat else None
      end
  end.

Definition Dir (p : string) : string :=
  Clean (str_take (default 0%nat (lastSlash p)) p).

End path.

(** ** Package [os] *)

Module os.

Definition exists_ (name : string) (w : World) : bool :=
  bool_decide (name ∈ dom (files w)) || bool_decide (name ∈ dirs w).

Definition Stat (name : string) (w : World) : option error * World :=
  let c := sysStat name in
  let w' := record c w in
  match fault c w with
  | Some e => (Some e, w')
  | None => if exists_ name w then (None, w') else (Some (PathError c ENOENT), w')
  end.

(** [MkdirAll]: the directory is made, unless the path is a regular
    file. The directories above the path are not looked at, here or in
    [Create]: they are taken to be directories. *)
Definition MkdirAll (p : string) (w : World) : option error * World :=
  let c := sysMkdirAll p in
  let w' := record c w in
  match fault c w with
  | Some e => (Some e, w')
  | None =>
      if bool_decide (p ∈ dom (files w)) then (Some (PathError c ENOTDIR), w')
      else (None, set_dirs ({[p]} ∪ dirs w) w')
  end.

Definition newfd (w : World) : nat := fresh (dom (fds w)).

(** [Create]: the file is made, or emptied, and opened. *)
Definition Create (name : string) (w : World) : (option nat * option error) * World :=
  let c := sysCreate name in
  let w' := record c w in
  match fault c w with
  | Some e => ((None, Some e), w')
  | None =>
      if String.eqb name "" then ((None, Some (PathError c ENOENT)), w')
      else if bool_decide (name ∈ dirs w) then ((None, Some (PathError c EISDIR)), w')
      else
        let fd := newfd w in
        ((Some fd, None), set_fds (<[fd := name]> (fds w)) (set_files (<[name := []]> (files w)) w'))
  end.

Definition open_existing (c : Effect) (name : string) (w : World)
  : (option nat * option error) * World :=
  let w' := record c w in
  match fault c w with
  | Some e => ((None, Some e), w')
  | None =>
      if bool_decide (name ∈ dirs w) then ((None, Some (PathError c EISDIR)), w')
      else if bool_decide (name ∈ dom (files w)) then
        let fd := newfd w in
        ((Some fd, None), set_fds (<[fd := name]> (fds w)) w')
      else ((None, Some (PathError c ENOENT)), w')
  end.

(** [OpenFile(name, O_APPEND|O_WRONLY, perm)]. *)
Definition OpenFile (name : string) : World -> (option nat * option error) * World :=
  open_existing (sysOpenAppend name) name.

Definition Open (name : string) : World -> (option nat * option error) * World :=
  open_existing (sysOpen name) name.

(** Methods of [*os.File]; a nil file answers [ErrInvalid] without a
    call, a closed one [ErrClosed]. A write that fails writes nothing. *)
Definition File_Write (f : option nat) (b : list Byte.byte) (w : World)
  : (Z * option error) * World :=
  match f with
  | None => ((0, Some ErrInvalid), w)
  | Some fd =>
      let c := sysWrite fd b in
      let w' := record c w in
      match fault c w with
      | Some e => ((0, Some e), w')
      | None =>
          match fds w !! fd with
          | None => ((0, Some ErrClosed), w')
          | Some name =>
              match files w !! name with
              | Some old => ((len_bytes b, None), set_files (<[name := old ++ b]> (files w)) w')
              | None => ((len_bytes b, None), w')
              end
          end
      end
  end.

Definition File_Sync (f : option nat) (w : World) : option error * World :=
  match f with
  | None => (Some ErrInvalid, w)
  | Some fd =>
      let c := sysSync fd in
      let w' := record c w in
      match fault c w with
      | Some e => (Some e, w')
      | None => if bool_decide (fd ∈ dom (fds w)) then (None, w') else (Some ErrClosed, w')
      end
  end.

(** The descriptor is released also when the close reports an error. *)
Definition File_Close (f : option nat) (w : World) : option error * World :=
  match f with
  | None => (Some ErrInvalid, w)
  | Some fd =>
      let c := sysClose fd in
      let w' := set_fds (delete fd (fds w)) (record c w) in
      match fault c w with
      | Some e => (Some e, w')
      | None => if bool_decide (fd ∈ dom (fds w)) then (None, w') else (Some ErrClosed, w')
      end
  end.

Definition Rename (oldpath newpath : string) (w : World) : option error * World :=
  let c := sysRename oldpath newpath in
  let w' := record c w in
  match fault c w with
  | Some e => (Some e, w')
  | None =>
      match files w !! oldpath with
      | None => (Some (PathError c ENOENT), w')
      | Some data =>
          if bool_decide (newpath ∈ dirs w) then (Some (PathError c EISDIR), w')
          else (None, set_files (<[newpath := data]> (delete oldpath (files w))) w')
      end
  end.

Definition Remove (name : string) (w : World) : option error * World :=
  let c := sysRemove name in
  let w' := record c w in
  match fault c w with
  | Some e => (Some e, w')
  | None =>
      if bool_decide (name ∈ dom (files w)) then (None, set_files (delete name (files w)) w')
      else if bool_decide (name ∈ dirs w) then (None, set_dirs (dirs w ∖ {[name]}) w')
      else (Some (PathError c ENOENT), w')
  end.

(** [syscall.CloseOnExec(int(file.Fd()))]. *)
Definition CloseOnExec (fd : nat) (w : World) : unit * World :=
  (tt, record (sysCloseOnExec fd) w).

(** [io.Copy(gzip.NewWriter(out), in)], then the gzip writer's
    [Close]: the compressed bytes of [in] are written to [out]. *)
Definition GzipCopy (out in_ : nat) (w : World) : option error * World :=
  let c := sysGzipCopy out in_ in
  let w' := record c w in
  match fault c w with
  | Some e => (Some e, w')
  | None =>
      match fds w !! in_, fds w !! out with
      | Some src, Some dst =>
          match files w !! src with
          | Some data => (None, set_files (<[dst := gzipOf w data]> (files w)) w')
          | None => (None, w')
          end
      | _, _ => (Some ErrClosed, w')
      end
  end.

Definition GzipClose (out : nat) (w : World) : option error * World :=
  let c := sysGzipClose out in
  (fault c w, record c w).

End os.


(** ** Package [rotate]: constants

    The three constant blocks of the repository. [src/rotatewriter.go]
    reads [defaultKeepDays], which only [part_002] declares;
    [part_000] reads [defaultMaxDays], which [constants.go] and
    [part_001] declare. The field [defaultMaxDays] stands for both
    names. *)

Class Constants : Type := {
  defaultDirPerm : Z;
  defaultFilePerm : Z;
  megabyte : Z;
  defaultMaxDays : Z;
  defaultMaxSize : Z;
  defaultMaxBackups : Z;
  defaultDelimiter : string;
  defaultTimeFormat : string
}.

Abbreviation defaultKeepDays := defaultMaxDays (only parsing).

(** [src/constants.go]. Permissions are octal 0755 and 0644. *)
Definition constants_go : Constants := {|
  defaultDirPerm := 493;
  defaultFilePerm := 420;
  megabyte := 1024 * 1024;
  defaultMaxDays := 30;
  defaultMaxSize := 128;
  defaultMaxBackups := 30;
  defaultDelimiter := "-";
  defaultTimeFormat := "2006-01-02T15:04:05.999Z07:00"
|}.

(** [src/unnamed/part_001]. *)
Definition constants_part_001 : Constants := {|
  defaultDirPerm := 493;
  defaultFilePerm := 420;
  megabyte := 1024 * 1024;
  defaultMaxDays := 30;
  defaultMaxSize := 128;
  defaultMaxBackups := 30;
  defaultDelimiter := "-";
  defaultTimeFormat := time.RFC3339
|}.

(** [src/unnamed/part_002]. *)
Definition constants_part_002 : Constants := {|
  defaultDirPerm := 493;
  defaultFilePerm := 420;
  megabyte := 1024 * 1024;
  defaultMaxDays := 30;
  defaultMaxSize := 128;
  defaultMaxBackups := 0;
  defaultDelimiter := "-";
  defaultTimeFormat := "2006-01-02T15:04:05.000"
|}.

(** ** The writer *)

Record rotateOption : Type := {
  delimiter : string;
  timeFormat : string;
  gzip : bool;
  localTime : bool;
  maxDays : Z;
  maxSize : Z;
  maxBackups : Z
}.

Abbreviation keepDays := maxDays (only parsing).

Definition RotateOption : Type := rotateOption -> rotateOption.

(** [postCh] is the buffer of the channel, the oldest name first;
    [postDone] says whether that channel has been closed; [fp] is the
    descriptor of the open file, or nil; [mu] says whether the mutex is
    held; [closeOnce] whether the [sync.Once] has run. *)
Record RotateWriter : Type := {
  filename : string;
  prefix : string;
  ext : string;
  backupName : string;
  size : Z;
  opt : rotateOption;
  err : option error;
  postCh : list string;
  postDone : bool;
  fp : option nat;
  mu : bool;
  closeOnce : bool;
  done : bool
}.

(** [make(chan string, 100)]. *)
Definition postCh_cap : nat := 100.

Definition set_prefix (v : string) (r : RotateWriter) : RotateWriter :=
  {| filename := filename r; prefix := v; ext := ext r; backupName := backupName r;
     size := size r; opt := opt r; err := err r; postCh := postCh r;
     postDone := postDone r; fp := fp r; mu := mu r; closeOnce := closeOnce r;
     done := done r |}.

Definition set_ext (v : string) (r : RotateWriter) : RotateWriter :=
  {| filename := filename r; prefix := prefix r; ext := v; backupName := backupName r;
     size := size r; opt := opt r; err := err r; postCh := postCh r;
     postDone := postDone r; fp := fp r; mu := mu r; closeOnce := closeOnce r;
     done := done r |}.

Definition set_backupName (v : string) (r : RotateWriter) : RotateWriter :=
  {| filename := filename r; prefix := prefix r; ext := ext r; backupName := v;
     size := size r; opt := opt r; err := err r; postCh := postCh r;
     postDone := postDone r; fp := fp r; mu := mu r; closeOnce := closeOnce r;
     done := done r |}.

Definition set_size (v : Z) (r : RotateWriter) : RotateWriter :=
  {| filename := filename r; prefix := prefix r; ext := ext r; backupName := backupName r;
     size := v; opt := opt r; err := err r; postCh := postCh r;
     postDone := postDone r; fp := fp r; mu := mu r; closeOnce := closeOnce r;
     done := done r |}.

Definition set_err (v : option error) (r : RotateWriter) : RotateWriter :=
  {| filename := filename r; prefix := prefix r; ext := ext r; backupName := backupName r;
     size := size r; opt := opt r; err := v; postCh := postCh r;
     postDone := postDone r; fp := fp r; mu := mu r; closeOnce := closeOnce r;
     done := done r |}.

Definition set_postCh (v : list string) (r : RotateWriter) : RotateWriter :=
  {| filename := filename r; prefix := prefix r; ext := ext r; backupName := backupName r;
     size := size r; opt := opt r; err := err r; postCh := v;
     postDone := postDone r; fp := fp r; mu := mu r; closeOnce := closeOnce r;
     done := done r |}.

Definition set_postDone (v : bool) (r : RotateWriter) : RotateWriter :=
  {| filename := filename r; prefix := prefix r; ext := ext r; backupName := backupName r;
     size := size r; opt := opt r; err := err r; postCh := postCh r;
     postDone := v; fp := fp r; mu := mu r; closeOnce := closeOnce r;
     done := done r |}.

Definition set_fp (v : option nat) (r : RotateWriter) : RotateWriter :=
  {| filename := filename r; prefix := prefix r; ext := ext r; backupName := backupName r;
     size := size r; opt := opt r; err := err r; postCh := postCh r;
     postDone := postDone r; fp := v; mu := mu r; closeOnce := closeOnce r;
     done := done r |}.

Definition set_mu (v : bool) (r : RotateWriter) : RotateWriter :=
  {| filename := filename r; prefix := prefix r; ext := ext r; backupName := backupName r;
     size := size r; opt := opt r; err := err r; postCh := postCh r;
     postDone := postDone r; fp := fp r; mu := v; closeOnce := closeOnce r;
     done := done r |}.

Definition set_closeOnce (v : bool) (r : RotateWriter) : RotateWriter :=
  {| filename := filename r; prefix := prefix r; ext := ext r; backupName := backupName r;
     size := size r; opt := opt r; err := err r; postCh := postCh r;
     postDone := postDone r; fp := fp r; mu := mu r; closeOnce := v;
     done := done r |}.

Definition set_done (v : bool) (r : RotateWriter) : RotateWriter :=
  {| filename := filename r; prefix := prefix r; ext := ext r; backupName := backupName r;
     size := size r; opt := opt r; err := err r; postCh := postCh r;
     postDone := postDone r; fp := fp r; mu := mu r; closeOnce := closeOnce r;
     done := v |}.

(** *** Running a method

    A method runs on the writer and the world. It returns, or it panics,
    or it parks the goroutine: on the mutex, on a send to the full
    channel, on a receive. A parked method has not finished; what it
    holds it still holds. *)

Record State : Type := { world : World; rw : RotateWriter }.

Inductive Wait : Type := onLock | onSend | onReceive.

Inductive Res (S A : Type) : Type :=
| Ret (a : A) (s : S)
| Panic (s : S)
| Block (b : Wait) (s : S).

Arguments Ret {S A} a s.
Arguments Panic {S A} s.
Arguments Block {S A} b s.

Definition M (A : Type) : Type := State -> Res State A.

#[global] Instance M_ret : MRet M := fun A a s => Ret a s.

#[global] Instance M_bind : MBind M := fun A B k m s =>
  match m s with
  | Ret a s' => k a s'
  | Panic s' => Panic s'
  | Block b s' => Block b s'
  end.

Definition gets {A : Type} (f : RotateWriter -> A) : M A :=
  fun s => Ret (f (rw s)) s.

Definition modify (f : RotateWriter -> RotateWriter) : M unit :=
  fun s => Ret tt {| world := world s; rw := f (rw s) |}.

Definition reads {A : Type} (f : World -> A) : M A :=
  fun s => Ret (f (world s)) s.

Definition sys {A : Type} (f : World -> A * World) : M A :=
  fun s => let '(a, w) := f (world s) in Ret a {| world := w; rw := rw s |}.

Definition panic {A : Type} : M A := fun s => Panic s.

Definition park {A : Type} (b : Wait) : M A := fun s => Block b s.

(** [r.mu.Lock()], [r.mu.Unlock()], and a body run under
    [Lock(); defer Unlock()]. *)
Definition Lock : M unit :=
  fun s => if mu (rw s) then Block onLock s
           else Ret tt {| world := world s; rw := set_mu true (rw s) |}.

Definition Unlock : M unit := modify (set_mu false).

Definition locked {A : Type} (body : M A) : M A :=
  Lock;; a ← body; Unlock;; mret a.

(** [r.postCh <- name]: the send waits while the buffer is full. *)
Definition send (name : string) : M unit :=
  fun s => if (length (postCh (rw s)) <? postCh_cap)%nat
           then Ret tt {| world := world s; rw := set_postCh (postCh (rw s) ++ [name]) (rw s) |}
           else Block onSend s.

(** [close(r.postDone)]: closing a closed channel panics. *)
Definition closeDone : M unit :=
  fun s => if postDone (rw s) then Panic s
           else Ret tt {| world := world s; rw := set_postDone true (rw s) |}.

(** *** Clock *)

Definition Now (w : World) : time.Time :=
  {| time.unixNano := now w; time.loc := time.Local |}.

Definition nowDate (w : World) (format : string) (local : bool) : string :=
  if negb local then time.Format (zone w) (time.toUTC (Now w)) format
  else time.Format (zone w) (Now w) format.

Definition dateline (w : World) (format : string) (local : bool) (delay : time.Duration)
  : string :=
  if negb local then time.Format (zone w) (time.Add (time.toUTC (Now w)) delay) format
  else time.Format (zone w) (time.Add (Now w) delay) format.

(** *** Files *)

Definition closeOnExec (file : option nat) : M unit :=
  match file with
  | None => mret tt
  | Some fd => sys (os.CloseOnExec fd)
  end.

Definition backupFileName : M string :=
  r ← gets id;
  w ← reads id;
  mret (prefix r +:+ delimiter (opt r) +:+
        nowDate w (timeFormat (opt r)) (localTime (opt r)) +:+ ext r).

Definition init : M (option error) :=
  name ← gets filename;
  modify (set_ext (filepath.Ext name));;
  e ← gets ext;
  modify (set_prefix (str_take (String.length name - String.length e) name));;
  bn ← backupFileName;
  modify (set_backupName bn);;
  st ← sys (os.Stat name);
  match st with
  | Some _ =>
      let basePath := path.Dir name in
      st' ← sys (os.Stat basePath);
      mk ← match st' with
           | Some _ => sys (os.MkdirAll basePath)
           | None => mret None
           end;
      match mk with
      | Some e => mret (Some e)
      | None =>
          '(f, e) ← sys (os.Create name);
          modify (set_fp f);;
          match e with
          | Some e => mret (Some e)
          | None => f ← gets fp; closeOnExec f;; mret None
          end
      end
  | None =>
      '(f, e) ← sys (os.OpenFile name);
      modify (set_fp f);;
      match e with
      | Some e => mret (Some e)
      | None => f ← gets fp; closeOnExec f;; mret None
      end
  end.

(** The lister: [oldFiles] in [rotatewriter.go], [listFiles] in
    [part_000]. *)
Definition listFiles : M (list string * option error) :=
  r ← gets id;
  let pattern :=
    if gzip (opt r) then prefix r +:+ delimiter (opt r) +:+ "*" +:+ ext r +:+ ".gz"
    else prefix r +:+ delimiter (opt r) +:+ "*" +:+ ext r in
  '(files, e) ← sys (filepath.Glob pattern);
  match e with
  | Some e => mret ([], Some e)
  | None => mret (files, None)
  end.

Abbreviation oldFiles := listFiles (only parsing).

Definition rotate : M (option error) :=
  f ← gets fp;
  closed ← match f with
           | Some _ =>
               e ← sys (os.File_Close f);
               match e with
               | Some e => mret (Some e)
               | None => modify (set_fp None);; mret None
               end
           | None => mret None
           end;
  match closed with
  | Some e => mret (Some e)
  | None =>
      name ← gets filename;
      st ← sys (os.Stat name);
      bn ← gets backupName;
      moved ← (if bool_decide (st = None) && (0 <? len bn) then
                 e ← sys (os.Rename name bn);
                 match e with
                 | Some e => mret (Some e)
                 | None => send bn;; mret None
                 end
               else mret None);
      match moved with
      | Some e => mret (Some e)
      | None =>
          bn' ← backupFileName;
          modify (set_backupName bn');;
          '(f', e) ← sys (os.Create name);
          modify (set_fp f');;
          match e with
          | None => closeOnExec f';; mret None
          | Some e => mret (Some e)
          end
      end
  end.

Definition write (data : list Byte.byte) : M (option error) :=
  let n := len_bytes data in
  r ← gets id;
  rotated ← (if add64 (size r) n >? maxSize (opt r) then
               e ← rotate;
               match e with
               | Some e => mret (Some e)
               | None => modify (set_size 0);; mret None
               end
             else mret None);
  match rotated with
  | Some e => mret (Some e)
  | None =>
      f ← gets fp;
      match f with
      | Some _ =>
          '(_, e) ← sys (os.File_Write f data);
          match e with
          | Some e => mret (Some e)
          | None => r ← gets id; modify (set_size (add64 (size r) n));; mret None
          end
      | None => mret None
      end
  end.

Definition Write (data : list Byte.byte) : M (Z * option error) :=
  locked (
    r ← gets id;
    if done r then mret (0, Some ErrLogFileClosed)
    else
      let n := len_bytes data in
      if n >? maxSize (opt r) then mret (0, Some ErrDataOversize)
      else
        match err r with
        | Some e => modify (set_err None);; mret (0, Some e)
        | None =>
            e ← write data;
            match e with
            | Some e => mret (0, Some e)
            | None => mret (n, None)
            end
        end).

(** [closeOnce.Do]: the body runs on the first call only; the named
    result [err] of a later call is still nil when it returns. *)
Definition Close : M (option error) :=
  once ← gets closeOnce;
  if (once : bool) then mret None
  else
    e ← locked (
      modify (set_done true);;
      closeDone;;
      f ← gets fp;
      e ← sys (os.File_Sync f);
      match e with
      | Some e => mret (Some e)
      | None => sys (os.File_Close f)
      end);
    modify (set_closeOnce true);;
    mret e.

(** *** Maintenance: compression *)

(** [r.mu.Lock(); defer r.mu.Unlock(); r.err = err]. *)
Definition latch (e : error) : M unit :=
  locked (modify (set_err (Some e))).

(** The deferred closes run last, the output's first; each adds its
    error to the one being returned. *)
Definition gzipFile (name : string) : M (option error) :=
  opened ← sys (os.Open name);
  match opened with
  | (_, Some e) => mret (Some e)
  | (None, None) => mret (Some ErrInvalid)
  | (Some in_, None) =>
      e1 ← (created ← sys (os.Create (name +:+ ".gz"));
            match created with
            | (_, Some e) => mret (Some e)
            | (None, None) => mret (Some ErrInvalid)
            | (Some out, None) =>
                e2 ← (e ← sys (os.GzipCopy out in_);
                      match e with
                      | Some e => mret (Some e)
                      | None =>
                          e ← sys (os.GzipClose out);
                          match e with
                          | Some e => mret (Some e)
                          | None => sys (os.Remove name)
                          end
                      end);
                c ← sys (os.File_Close (Some out));
                mret (multierr_Append e2 c)
            end);
      c ← sys (os.File_Close (Some in_));
      mret (multierr_Append e1 c)
  end.

Definition compressFile (name : string) : M unit :=
  r ← gets id;
  if negb (gzip (opt r)) then mret tt
  else
    e ← gzipFile name;
    match e with
    | Some e => latch e
    | None => mret tt
    end.

(** *** Maintenance: the age sweep *)

(** The loop of the age sweep: names not below the boundary are skipped,
    the first failed removal ends the loop with its error. *)
Fixpoint removeBelow (boundaryFile : string) (files : list string) : M (option error) :=
  match files with
  | [] => mret None
  | file :: rest =>
      if str_ge file boundaryFile then removeBelow boundaryFile rest
      else
        e ← sys (os.Remove file);
        match e with
        | Some e => mret (Some e)
        | None => removeBelow boundaryFile rest
        end
  end.

(** [-time.Hour*time.Duration(24*days)], in [int64]. *)
Definition boundaryDelay (days : Z) : time.Duration :=
  mul64 (- time.Hour) (mul64 24 days).

Definition boundaryFileName (w : World) (r : RotateWriter) : string :=
  let boundary :=
    dateline w (timeFormat (opt r)) (localTime (opt r)) (boundaryDelay (maxDays (opt r))) in
  let buf := prefix r +:+ delimiter (opt r) +:+ boundary +:+ ext r in
  if gzip (opt r) then buf +:+ ".gz" else buf.

(** [deleteOutdatedFiles] in [rotatewriter.go], where the option is
    called [keepDays]; [removeOutdatedFiles] in [part_000]. *)
Definition removeOutdatedFiles : M unit :=
  r ← gets id;
  if maxDays (opt r) <=? 0 then mret tt
  else
    '(files, e) ← listFiles;
    match e with
    | Some e => latch e
    | None =>
        w ← reads id;
        e ← removeBelow (boundaryFileName w r) files;
        match e with
        | Some e => latch e
        | None => mret tt
        end
    end.

Abbreviation deleteOutdatedFiles := removeOutdatedFiles (only parsing).

(** *** Maintenance: the count sweep *)

(** [l[:k]], which panics when [k] is out of range. *)
Definition slice_to {A : Type} (l : list A) (k : Z) : option (list A) :=
  if (k <? 0) || (Z.of_nat (length l) <? k) then None
  else Some (take (Z.to_nat k) l).

(** The loop of the count sweep. *)
Fixpoint removeEach (files : list string) : M (option error) :=
  match files with
  | [] => mret None
  | file :: rest =>
      e ← sys (os.Remove file);
      match e with
      | Some e => mret (Some e)
      | None => removeEach rest
      end
  end.

(** [sort.Strings]. *)
Definition sort_Strings (l : list string) : list string := merge_sort String.le l.

(** [src/rotatewriter.go], lines 343-374. *)
Definition deleteOverMaxFiles : M unit :=
  r ← gets id;
  if maxBackups (opt r) <=? 0 then mret tt
  else
    '(oldFiles, e) ← oldFiles;
    match e with
    | Some e => latch e
    | None =>
        let oldFiles := sort_Strings oldFiles in
        let remain := Z.of_nat (length oldFiles) in
        if (maxBackups (opt r) <=? 0) && (maxBackups (opt r) >=? remain) then mret tt
        else
          match slice_to oldFiles (sub64 remain (maxBackups (opt r))) with
          | None => panic
          | Some overMaxFiles =>
              e ← removeEach overMaxFiles;
              match e with
              | Some e => latch e
              | None => mret tt
              end
          end
    end.

(** [src/unnamed/part_000], lines 348-377. *)
Definition removeOverMaxFiles : M unit :=
  r ← gets id;
  if maxBackups (opt r) <=? 0 then mret tt
  else
    '(oldFiles, e) ← listFiles;
    match e with
    | Some e => latch e
    | None =>
        let oldFiles := sort_Strings oldFiles in
        let remain := Z.of_nat (length oldFiles) in
        if (maxBackups (opt r) <=? 0) || (maxBackups (opt r) >=? remain) then mret tt
        else
          match slice_to oldFiles (sub64 remain (maxBackups (opt r))) with
          | None => panic
          | Some overMaxFiles =>
              e ← removeEach overMaxFiles;
              match e with
              | Some e => latch e
              | None => mret tt
              end
          end
    end.

(** *** The maintainer

    One turn of the loop [for { select { ... } }]: a name is received
    and served, or the loop ends on the closed [postDone], or the
    goroutine waits. [pickDone] is the choice of the [select] when both
    cases are ready. The result says whether the loop goes on. *)
Definition maintainerTurn (serve : string -> M unit) (pickDone : bool) : M bool :=
  r ← gets id;
  match postCh r with
  | name :: rest =>
      if postDone r && pickDone then mret false
      else modify (set_postCh rest);; serve name;; mret true
  | [] => if postDone r then mret false else park onReceive
  end.

(** [src/rotatewriter.go], lines 85-96. *)
Definition postRotate : bool -> M bool :=
  maintainerTurn (fun name => compressFile name;; deleteOutdatedFiles;; deleteOverMaxFiles).

(** [src/unnamed/part_000], lines 150-161. *)
Definition afterRotate : bool -> M bool :=
  maintainerTurn (fun name => compressFile name;; removeOutdatedFiles;; removeOverMaxFiles).

(** *** Options and construction *)

Section construction.

Context `{Constants}.

Definition WithGzip (v : bool) : RotateOption := fun o =>
  {| delimiter := delimiter o; timeFormat := timeFormat o; gzip := v;
     localTime := localTime o; maxDays := maxDays o; maxSize := maxSize o;
     maxBackups := maxBackups o |}.

Definition WithMaxDays (days : Z) : RotateOption := fun o =>
  {| delimiter := delimiter o; timeFormat := timeFormat o; gzip := gzip o;
     localTime := localTime o; maxDays := days; maxSize := maxSize o;
     maxBackups := maxBackups o |}.

Definition WithMaxSize (max : Z) : RotateOption := fun o =>
  {| delimiter := delimiter o; timeFormat := timeFormat o; gzip := gzip o;
     localTime := localTime o; maxDays := maxDays o;
     maxSize := if max <=? 0 then defaultMaxSize * megabyte else mul64 max megabyte;
     maxBackups := maxBackups o |}.

Definition WithLocalTime (local : bool) : RotateOption := fun o =>
  {| delimiter := delimiter o; timeFormat := timeFormat o; gzip := gzip o;
     localTime := local; maxDays := maxDays o; maxSize := maxSize o;
     maxBackups := maxBackups o |}.

Definition WithMaxBackups (max : Z) : RotateOption := fun o =>
  {| delimiter := delimiter o; timeFormat := timeFormat o; gzip := gzip o;
     localTime := localTime o; maxDays := maxDays o; maxSize := maxSize o;
     maxBackups := max |}.

Definition WithDelimiter (s : string) : RotateOption := fun o =>
  {| delimiter := if len s =? 0 then defaultDelimiter else s;
     timeFormat := timeFormat o; gzip := gzip o;
     localTime := localTime o; maxDays := maxDays o; maxSize := maxSize o;
     maxBackups := maxBackups o |}.

Definition WithTimeFormat (format : string) : RotateOption := fun o =>
  {| delimiter := delimiter o;
     timeFormat := if len format =? 0 then defaultTimeFormat else format;
     gzip := gzip o;
     localTime := localTime o; maxDays := maxDays o; maxSize := maxSize o;
     maxBackups := maxBackups o |}.

Definition defaultOption : rotateOption :=
  {| maxDays := defaultMaxDays;
     maxSize := defaultMaxSize * megabyte;
     delimiter := defaultDelimiter;
     timeFormat := defaultTimeFormat;
     maxBackups := defaultMaxBackups;
     localTime := true;
     gzip := false |}.

(** The writer as the composite literal makes it, with the options
    applied in order. *)
Definition newWriter (name : string) (options : list RotateOption) : RotateWriter :=
  {| filename := name; prefix := ""; ext := ""; backupName := ""; size := 0;
     opt := foldl (fun o fn => fn o) defaultOption options;
     err := None; postCh := []; postDone := false; fp := None; mu := false;
     closeOnce := false; done := false |}.

(** From [r.init()] on: a failed [init] gives no writer; otherwise the
    maintainer is started and the writer returned. *)
Definition construct (name : string) (options : list RotateOption) (w : World)
  : Res World (option RotateWriter * option error) :=
  match init {| world := w; rw := newWriter name options |} with
  | Ret (Some e) s => Ret (None, Some e) (world s)
  | Ret None s => Ret (Some (rw s), None) (record goMaintainer (world s))
  | Panic s => Panic (world s)
  | Block b s => Block b (world s)
  end.

End construction.

(** [src/rotatewriter.go], lines 57-82, with the constants of
    [part_002]. *)
Module rotatewriter_go.

Definition NewRotateWriter (name : string) (options : list RotateOption) (w : World)
  : Res World (option RotateWriter * option error) :=
  construct (H := constants_part_002) name options w.

End rotatewriter_go.

(** [src/unnamed/part_000], lines 58-86, over any of the constant
    blocks that declare [defaultMaxDays]. *)
Module part_000.

Definition NewRotateWriter `{Constants} (name : string) (options : list RotateOption)
  (w : World) : Res World (option RotateWriter * option error) :=
  if len name =? 0 then Ret (None, Some ErrFileNameIsEmpty) w
  else construct name options w.

End part_000.

(** ** A concrete environment

    A world for running the methods on explicit inputs: a matcher for
    patterns with stars (a star matches any run of bytes without a
    slash), no bad patterns, no faults, UTC as the local zone, the
    identity for gzip. *)

Fixpoint star_match (pattern name : string) {struct pattern} : bool :=
  match pattern with
  | EmptyString => String.eqb name ""
  | String c pattern' =>
      if Ascii.eqb c "*"%char then
        (fix skip (name : string) : bool :=
           star_match pattern' name ||
           match name with
           | EmptyString => false
           | String d name' => negb (Ascii.eqb d "/"%char) && skip name'
           end) name
      else
        match name with
        | String d name' => Ascii.eqb c d && star_match pattern' name'
        | EmptyString => false
        end
  end.

Definition no_faults : nat -> Effect -> option Errno := fun _ _ => None.

Definition bytes (s : string) : list Byte.byte := String.list_byte_of_string s.

(** 2023-11-14T22:13:20.123456789Z. *)
Definition demo_now : Z := 1700000000123456789.

Definition demo_world (fs : list string) (fault : nat -> Effect -> option Errno) : World :=
  {| files := list_to_map ((fun n => (n, [])) <$> fs);
     dirs := {["."]};
     fds := ∅;
     now := demo_now;
     zone := fun _ => 0;
     faults := fault;
     badPattern := fun _ => false;
     matches := star_match;
     gzipOf := fun b => b;
     trace := [] |}.

Definition demo_option (size_limit backups : Z) : rotateOption :=
  {| delimiter := "-"; timeFormat := "2006-01-02T15:04:05.000"; gzip := false;
     localTime := true; maxDays := 30; maxSize := size_limit; maxBackups := backups |}.

(** A writer on [app.log] as [init] leaves it, with the given limits and
    handle. *)
Definition demo_writer (size_limit backups : Z) (handle : option nat) : RotateWriter :=
  {| filename := "app.log"; prefix := "app"; ext := ".log";
     backupName := "app-2023-11-14T22:13:20.123.log"; size := 0;
     opt := demo_option size_limit backups;
     err := None; postCh := []; postDone := false; fp := handle; mu := false;
     closeOnce := false; done := false |}.

(** ** Names and time

    What the order of backup names is measured against: the fields of an
    instant as fixed decimal fields and as one number, and the name a
    writer gives at a chosen instant. *)

(** The decimal digits of a number in a field of [w] digits. *)
Fixpoint fixed (w : nat) (x : Z) : string :=
  match w with
  | O => ""
  | S w' => String (time.digit (x / 10 ^ Z.of_nat w')) (fixed w' (x mod 10 ^ Z.of_nat w'))
  end.

(** The date of a day as one number: year, month, day of the month. *)
Definition dateKey (d : Z) : Z :=
  let '(y, yd) := time.yearDay d in
  let '(m, dd) := time.monthDay (time.isLeap y) yd in
  y * 10000 + m * 100 + dd.

(** What is checked of each day of the 400 years from 0001-01-01: the
    year, the month and the day are in range, and the date of the next
    day is a later one. *)
Definition eraStep (r : Z) : bool :=
  let '(y, yd) := time.yearDay r in
  let '(m, dd) := time.monthDay (time.isLeap y) yd in
  (1 <=? y) && (y <=? 400) && (1 <=? m) && (m <=? 12) && (1 <=? dd) && (dd <=? 31) &&
  ((r + 1 =? time.daysPer400Years) || (dateKey r <? dateKey (r + 1))).

(** A check of the days [r], [r + 1], ... one after the other. *)
Fixpoint checkFrom (f : Z -> bool) (r : Z) (n : nat) : bool :=
  match n with
  | O => true
  | S n' => if f r then checkFrom f (r + 1) n' else false
  end.

(** The date and the time of day of a second as one number. *)
Definition clockKey (sec : Z) : Z :=
  dateKey (sec / time.secondsPerDay + time.unixToInternalDays) * 1000000
  + (sec mod time.secondsPerDay / 3600) * 10000
  + (sec mod time.secondsPerDay mod 3600 / 60) * 100
  + sec mod time.secondsPerDay mod 60.

(** The first second of the year 0000 and of the year 10000. *)
Definition year0 : Z := -62167219200.
Definition year10000 : Z := 253402300800.

(** A stamp: the date and the time of day in fixed fields, then a tail. *)
Definition stamp (c : time.Civil) (tail : string) : string :=
  fixed 4 (time.year c) +:+ "-" +:+ fixed 2 (time.month c) +:+ "-" +:+
  fixed 2 (time.day c) +:+ "T" +:+ fixed 2 (time.hour c) +:+ ":" +:+
  fixed 2 (time.minute c) +:+ ":" +:+ fixed 2 (time.second c) +:+ tail.

Definition fieldsKey (c : time.Civil) : Z :=
  time.year c * 10000000000 + time.month c * 100000000 + time.day c * 1000000
  + time.hour c * 10000 + time.minute c * 100 + time.second c.

Definition fieldsFit (c : time.Civil) : Prop :=
  0 <= time.year c <= 9999 /\ 0 <= time.month c <= 99 /\ 0 <= time.day c <= 99 /\
  0 <= time.hour c <= 99 /\ 0 <= time.minute c <= 99 /\ 0 <= time.second c <= 99.

(** The default layout of [part_002], which the comment on
    [backupFileName] names. *)
Definition millisLayout : string := "2006-01-02T15:04:05.000".

(** The name [backupFileName] returns, and the name a writer gives at
    the instant [t]. *)
Definition backupNameOf (w : World) (r : RotateWriter) : string :=
  prefix r +:+ delimiter (opt r) +:+
  nowDate w (timeFormat (opt r)) (localTime (opt r)) +:+ ext r.

Definition set_now (t : Z) (w : World) : World :=
  {| files := files w; dirs := dirs w; fds := fds w; now := t; zone := zone w;
     faults := faults w; badPattern := badPattern w; matches := matches w;
     gzipOf := gzipOf w; trace := trace w |}.

Definition nameAt (w : World) (r : RotateWriter) (t : Z) : string :=
  backupNameOf (set_now t w) r.

(** The instant whose fields [nowDate] formats. *)
Definition shown (w : World) (local : bool) (t : Z) : time.Time :=
  if negb local then time.toUTC (Now (set_now t w)) else Now (set_now t w).

(** A writer on [app.log] with the given layout and time policy. *)
Definition layout_writer (format : string) (local : bool) : RotateWriter :=
  {| filename := "app.log"; prefix := "app"; ext := ".log";
     backupName := ""; size := 0;
     opt := {| delimiter := "-"; timeFormat := format; gzip := false;
               localTime := local; maxDays := 30; maxSize := 10; maxBackups := 0 |};
     err := None; postCh := []; postDone := false; fp := None; mu := false;
     closeOnce := false; done := false |}.

(** A zone that goes from four to five hours behind UTC at
    2023-11-05T06:00:00Z, as the east of North America did. *)
Definition fall_back : time.Zone :=
  fun sec => if sec <? 1699164000 then -14400 else -18000.

Definition fall_back_world : World :=
  {| files := ∅; dirs := {["."]}; fds := ∅; now := demo_now; zone := fall_back;
     faults := no_faults; badPattern := fun _ => false; matches := star_match;
     gzipOf := fun b => b; trace := [] |}.

(** ** The rest of the package

    What the properties of the options, of the constructor, of
    [Write], [Close], [rotate], [gzipFile] and of the two sweeps are
    stated with. *)

(** The three constant blocks of the repository. *)
Definition repoConstants : list Constants :=
  [constants_go; constants_part_001; constants_part_002].

(** The options a caller can build: the values of the [With...]
    functions. *)
Inductive isOption `{Constants} : RotateOption -> Prop :=
| isWithGzip (v : bool) : isOption (WithGzip v)
| isWithMaxDays (days : Z) : isOption (WithMaxDays days)
| isWithMaxSize (max : Z) : isOption (WithMaxSize max)
| isWithLocalTime (local : bool) : isOption (WithLocalTime local)
| isWithMaxBackups (max : Z) : isOption (WithMaxBackups max)
| isWithDelimiter (s : string) : isOption (WithDelimiter s)
| isWithTimeFormat (format : string) : isOption (WithTimeFormat format).

(** An environment in which no call fails. *)
Definition faultless (w : World) : Prop :=
  forall (tick : nat) (c : Effect), faults w tick c = None.

(** The writer as [init] leaves it once it has the file on the
    descriptor [fd]: the extension and the prefix cut from the name, the
    first backup name made from the clock, the descriptor kept. *)
Definition initialised `{Constants} (name : string) (options : list RotateOption)
  (w : World) (fd : nat) : RotateWriter :=
  let r := newWriter name options in
  let e := filepath.Ext name in
  let p := str_take (String.length name - String.length e) name in
  set_fp (Some fd)
    (set_backupName
       (p +:+ delimiter (opt r) +:+ nowDate w (timeFormat (opt r)) (localTime (opt r)) +:+ e)
       (set_prefix p (set_ext e r))).

(** What a call of [NewRotateWriter] on [name] in the world [w] comes
    to: it returns; with an error there is no writer, no file and no
    descriptor has been added or taken away, and the maintainer has not
    been started; without one the writer holds a descriptor open on
    [name], and starting the maintainer was the last thing done. *)
Definition constructed (name : string) (w : World)
  (res : Res World (option RotateWriter * option error)) : Prop :=
  exists r e w' calls,
    res = Ret (r, e) w' /\
    trace w' = trace w ++ calls /\
    match e with
    | Some _ => r = None /\ files w' = files w /\ fds w' = fds w /\ goMaintainer ∉ calls
    | None => exists fd, fp <$> r = Some (Some fd) /\ fds w' !! fd = Some name /\
                         last calls = Some goMaintainer
    end.

(** A caller that writes the payloads one after the other and stops at
    the first error, as a logger does with its records. *)
Fixpoint writeAll (payloads : list (list Byte.byte)) : M (option error) :=
  match payloads with
  | [] => mret None
  | p :: rest =>
      '(_, e) ← Write p;
      match e with
      | Some e => mret (Some e)
      | None => writeAll rest
      end
  end.

(** A writer on [app[.log], whose backup pattern [app[-*.log] opens a
    character class that it never closes, with one backup queued. *)
Definition bracket_state : State :=
  {| world := {| files := {["app[.log" := []; "app[-2023-11-14T22:13:20.123.log" := []]};
                 dirs := {["."]}; fds := {[0%nat := "app[.log"]}; now := demo_now;
                 zone := fun _ => 0; faults := no_faults;
                 badPattern := fun p => String.eqb p "app[-*.log";
                 matches := star_match; gzipOf := fun b => b; trace := [] |};
     rw := {| filename := "app[.log"; prefix := "app["; ext := ".log";
              backupName := "app[-2023-11-14T22:13:20.123.log"; size := 0;
              opt := demo_option 100 0;
              err := None; postCh := ["app[-2023-11-14T22:13:20.123.log"];
              postDone := false; fp := Some 0%nat; mu := false; closeOnce := false;
              done := false |} |}.

(** What [rotate] does once the old descriptor is closed: the stat, the
    rename and the hand-over of the backup, the next backup name, the
    new file. *)
Definition moveAndCreate : M (option error) :=
  name ← gets filename;
  st ← sys (os.Stat name);
  bn ← gets backupName;
  moved ← (if bool_decide (st = None) && (0 <? len bn) then
             e ← sys (os.Rename name bn);
             match e with
             | Some e => mret (Some e)
             | None => send bn;; mret None
             end
           else mret None);
  match moved with
  | Some e => mret (Some e)
  | None =>
      bn' ← backupFileName;
      modify (set_backupName bn');;
      '(f', e) ← sys (os.Create name);
      modify (set_fp f');;
      match e with
      | None => closeOnExec f';; mret None
      | Some e => mret (Some e)
      end
  end.

(** What a rotation or a write leaves alone, whatever its outcome: the
    name, the options and the flags of the writer, and, of the files,
    every one but the active file and the backup it is renamed to. *)
Definition same_settings (s s' : State) : Prop :=
  filename (rw s') = filename (rw s) /\ opt (rw s') = opt (rw s) /\
  done (rw s') = done (rw s) /\
  closeOnce (rw s') = closeOnce (rw s) /\ postDone (rw s') = postDone (rw s).

Definition same_files_but_two (s s' : State) : Prop :=
  forall name, name <> filename (rw s) -> name <> backupName (rw s) ->
               files (world s') !! name = files (world s) !! name.

Definition keeps (s s' : State) : Prop := same_settings s s' /\ same_files_but_two s s'.

(** The descriptor of the writer is not open on another file than its
    own. *)
Definition handle_on_file (s : State) : Prop :=
  forall fd name, fp (rw s) = Some fd -> fds (world s) !! fd = Some name ->
                  name = filename (rw s).

(** The writer holds a descriptor that is no longer open. *)
Definition dead_handle (s : State) (fd : nat) : Prop :=
  fp (rw s) = Some fd /\ fds (world s) !! fd = None.

(** The state with the clock at the instant [t]. *)
Definition at_time (t : Z) (s : State) : State :=
  {| world := set_now t (world s); rw := rw s |}.

(** The middle of [gzipFile], between the opening of the two files and
    the deferred closes: the copy through the gzip writer, the close of
    the gzip writer, the removal of the source. *)
Definition compressTo (name : string) (out in_ : nat) : M (option error) :=
  e ← sys (os.GzipCopy out in_);
  match e with
  | Some e => mret (Some e)
  | None =>
      e ← sys (os.GzipClose out);
      match e with
      | Some e => mret (Some e)
      | None => sys (os.Remove name)
      end
  end.

(** The name under which the backup stamped at the instant [t] is
    kept: the backup name made at [t], with [.gz] behind it when the
    writer compresses. *)
Definition keptAs (w : World) (r : RotateWriter) (t : Z) : string :=
  if gzip (opt r) then nameAt w r t +:+ ".gz" else nameAt w r t.

(** [mockBackupName] of [rotatewriter_test.go]: the name the tests
    expect of a backup made at the date [date]. *)
Definition mockBackupName `{Constants} (name date : string) : string :=
  let ext := filepath.Ext name in
  let prefix := str_take (String.length name - String.length ext) name in
  let delimiter := defaultDelimiter in
  prefix +:+ delimiter +:+ date +:+ ext.

(** An environment in which the stat of [app.log] is refused, and
    nothing else is. *)
Definition stat_refused : nat -> Effect -> option Errno :=
  fun _ c => match c with
             | sysStat name => if String.eqb name "app.log" then Some EACCES else None
             | _ => None
             end.

(** The world in which [rotate] stats the file: the world of the call,
    after the close of the old handle if the writer holds one. *)
Definition beforeStat (s : State) : World :=
  match fp (rw s) with
  | Some fd => snd (os.File_Close (Some fd) (world s))
  | None => world s
  end.

(** Whether [rotate] moves the file to the backup name: the stat has
    found the file and the backup name is not empty. *)
Definition moves (s : State) : bool :=
  bool_decide (fst (os.Stat (filename (rw s)) (beforeStat s)) = None)
  && (0 <? len (backupName (rw s))).

(** ** Theorems *)

(** *** Running under the mutex *)

Lemma set_mu_release (r : RotateWriter) :
  mu r = false -> set_mu false (set_mu true r) = r.
Proof. destruct r; simpl; intros ->; reflexivity. Qed.

Lemma locked_free {A : Type} (body : M A) (s : State) :
  mu (rw s) = false ->
  locked body s =
  match body {| world := world s; rw := set_mu true (rw s) |} with
  | Ret a s' => Ret a {| world := world s'; rw := set_mu false (rw s') |}
  | Panic s' => Panic s'
  | Block b s' => Block b s'
  end.
Proof.
  intros Hmu. unfold locked, Lock, Unlock, modify, mbind, M_bind, mret, M_ret.
  rewrite Hmu. destruct (body _); reflexivity.
Qed.

Lemma locked_held {A : Type} (body : M A) (s : State) :
  mu (rw s) = true -> locked body s = Block onLock s.
Proof.
  intros Hmu. unfold locked, Lock, mbind, M_bind. rewrite Hmu. reflexivity.
Qed.

Lemma state_eta (s : State) : {| world := world s; rw := rw s |} = s.
Proof. destruct s; reflexivity. Qed.

(** *** Oversize payloads *)

(** C7, as amended: on a writer that has not been closed, a payload
    longer than [maxSize] is answered with [(0, ErrDataOversize)] and
    nothing changes: no call is made, the files, the size counter and a
    latched error are as before. *)
Theorem Write_oversize_open (s : State) (data : list Byte.byte) :
  mu (rw s) = false ->
  done (rw s) = false ->
  len_bytes data > maxSize (opt (rw s)) ->
  Write data s = Ret (0, Some ErrDataOversize) s.
Proof.
  intros Hmu Hdone Hbig. unfold Write. rewrite (locked_free _ _ Hmu).
  unfold mbind, M_bind, gets, mret, M_ret. simpl. rewrite Hdone.
  assert ((len_bytes data >? maxSize (opt (rw s))) = true) as -> by lia.
  simpl. rewrite (set_mu_release _ Hmu), state_eta. reflexivity.
Qed.

(** A closed writer with a handle on [app.log] and a limit of 4 bytes. *)
Definition closed_state : State :=
  {| world := demo_world ["app.log"] no_faults;
     rw := set_done true (demo_writer 4 0 (Some 0%nat)) |}.

Lemma Write_oversize_open_witness :
  Write (bytes "hello") {| world := demo_world ["app.log"] no_faults;
                           rw := demo_writer 4 0 (Some 0%nat) |}
  = Ret (0, Some ErrDataOversize)
      {| world := demo_world ["app.log"] no_faults; rw := demo_writer 4 0 (Some 0%nat) |}.
Proof.
  apply Write_oversize_open; [reflexivity | reflexivity | vm_compute; reflexivity].
Defined.

(** The claim as stated, for every writer: a closed writer answers an
    oversize payload with [ErrLogFileClosed]. *)
Lemma Write_oversize_closed_counterexample :
  len_bytes (bytes "hello") > maxSize (opt (rw closed_state)) /\
  Write (bytes "hello") closed_state = Ret (0, Some ErrLogFileClosed) closed_state.
Proof. split; [vm_compute; reflexivity | reflexivity]. Qed.

(** *** Close *)

Lemma Close_again (s : State) : closeOnce (rw s) = true -> Close s = Ret None s.
Proof.
  intros H. unfold Close, mbind, M_bind, gets. rewrite H. reflexivity.
Qed.

(** C2, as amended: the first [Close] of a writer asks for the sync at
    most once and for the close at most once, both exactly once when it
    returns nil; a handle whose sync fails is never closed. The second
    [Close] changes nothing, makes no call, and returns nil, whatever
    the first returned. *)
Theorem Close_twice (s : State) :
  mu (rw s) = false -> closeOnce (rw s) = false -> postDone (rw s) = false ->
  exists e s1 calls,
    Close s = Ret e s1 /\
    Close s1 = Ret None s1 /\
    trace (world s1) = trace (world s) ++ calls /\
    match fp (rw s) with
    | None => calls = [] /\ e = Some ErrInvalid
    | Some fd =>
        (calls = [sysSync fd] /\ e <> None) \/ calls = [sysSync fd; sysClose fd]
    end.
Proof.
  intros Hmu Honce Hdone.
  unfold Close at 1. unfold mbind at 1, M_bind at 1, gets at 1. rewrite Honce.
  unfold mbind at 1, M_bind at 1. rewrite (locked_free _ _ Hmu).
  unfold mbind, M_bind, modify, closeDone, gets, sys, mret, M_ret; simpl.
  rewrite Hdone; simpl.
  destruct (fp (rw s)) as [fd|]; simpl.
  - destruct (fault (sysSync fd) (world s)) as [e|] eqn:Hsync; simpl.
    + eexists _, _, [sysSync fd]. split; [reflexivity|].
      split; [apply Close_again; reflexivity|]. split; [reflexivity|].
      left. split; [reflexivity|discriminate].
    + destruct (bool_decide (fd ∈ dom (fds (world s)))); simpl.
      * destruct (fault (sysClose fd) (record (sysSync fd) (world s))) as [e|]; simpl.
        -- eexists _, _, [sysSync fd; sysClose fd]. split; [reflexivity|].
           split; [apply Close_again; reflexivity|]. split; [|right; reflexivity].
           simpl. rewrite <- app_assoc. reflexivity.
        -- destruct (bool_decide _); simpl;
             (eexists _, _, [sysSync fd; sysClose fd]; split; [reflexivity|];
              split; [apply Close_again; reflexivity|]; split; [|right; reflexivity];
              simpl; rewrite <- app_assoc; reflexivity).
      * eexists _, _, [sysSync fd]. split; [reflexivity|].
        split; [apply Close_again; reflexivity|]. split; [reflexivity|].
        left. split; [reflexivity|discriminate].
  - eexists _, _, []. split; [reflexivity|].
    split; [apply Close_again; reflexivity|].
    split; [simpl; rewrite app_nil_r; reflexivity|]. split; reflexivity.
Qed.

Definition with_handle (fd : nat) (name : string) (w : World) : World :=
  set_fds (<[fd := name]> (fds w)) w.

(** An open writer on [app.log] with descriptor 0. *)
Definition open_state (size_limit backups : Z) (fs : list string)
  (fault : nat -> Effect -> option Errno) : State :=
  {| world := with_handle 0 "app.log" (demo_world fs fault);
     rw := demo_writer size_limit backups (Some 0%nat) |}.

Lemma Close_twice_witness :
  exists e s1 calls,
    Close (open_state 100 0 ["app.log"] no_faults) = Ret e s1 /\
    Close s1 = Ret None s1 /\
    trace (world s1) = trace (world (open_state 100 0 ["app.log"] no_faults)) ++ calls /\
    ((calls = [sysSync 0%nat] /\ e <> None) \/ calls = [sysSync 0%nat; sysClose 0%nat]).
Proof.
  apply (Close_twice (open_state 100 0 ["app.log"] no_faults)); reflexivity.
Defined.

(** An environment in which every sync fails. *)
Definition sync_fails : nat -> Effect -> option Errno :=
  fun _ c => match c with sysSync _ => Some EIO | _ => None end.

(** The claim as stated: when the sync fails, the first [Close] returns
    its error and never closes the handle, and the second returns nil. *)
Lemma Close_twice_counterexample :
  exists s1,
    Close (open_state 100 0 ["app.log"] sync_fails)
    = Ret (Some (PathError (sysSync 0%nat) EIO)) s1 /\
    Close s1 = Ret None s1 /\
    trace (world s1) = [sysSync 0%nat] /\
    fds (world s1) !! 0%nat = Some "app.log".
Proof.
  eexists. split; [vm_compute; reflexivity|].
  split; [apply Close_again; reflexivity|]. split; reflexivity.
Qed.

(** *** Construction with an empty name *)

Lemma part_000_NewRotateWriter_empty `{Constants} (options : list RotateOption) (w : World) :
  part_000.NewRotateWriter "" options w = Ret (None, Some ErrFileNameIsEmpty) w.
Proof. reflexivity. Qed.

(** C4: [part_000] refuses the empty name with [ErrFileNameIsEmpty]
    before anything else, whatever the options and the world: the world
    is returned as it was, so no file is made and no maintainer started.
    [rotatewriter.go] has no such guard: it stats the empty name and the
    directory, asks for the file to be created, and returns the error of
    that call. *)
Theorem NewRotateWriter_empty_name :
  (forall (K : Constants) (options : list RotateOption) (w : World),
     part_000.NewRotateWriter "" options w = Ret (None, Some ErrFileNameIsEmpty) w) /\
  rotatewriter_go.NewRotateWriter "" [] (demo_world [] no_faults)
  = Ret (None, Some (PathError (sysCreate "") ENOENT))
      (set_trace [sysStat ""; sysStat "."; sysCreate ""] (demo_world [] no_faults)).
Proof.
  split; [intros; reflexivity|]. vm_compute. reflexivity.
Qed.

(** *** The count sweep below its budget *)

(** Two backups on disk and a budget of five. *)
Definition two_backups : State :=
  open_state 100 5
    ["app.log"; "app-2023-11-01T00:00:00.000.log"; "app-2023-11-02T00:00:00.000.log"]
    no_faults.

(** C1: with fewer backups than [maxBackups], the count sweep of
    [rotatewriter.go] panics on its slice expression: the guard before
    it, written with a conjunction, never holds. The sweep of [part_000],
    written with a disjunction, returns having listed the backups and
    removed none. *)
Theorem deleteOverMaxFiles_below_budget :
  deleteOverMaxFiles two_backups
  = Panic {| world := record (sysGlob "app-*.log") (world two_backups);
             rw := rw two_backups |} /\
  removeOverMaxFiles two_backups
  = Ret tt {| world := record (sysGlob "app-*.log") (world two_backups);
              rw := rw two_backups |}.
Proof. split; vm_compute; reflexivity. Qed.


(** *** Rotation on overflow *)

Arguments os.Stat : simpl never.
Arguments os.Create : simpl never.
Arguments os.Rename : simpl never.
Arguments os.Remove : simpl never.
Arguments os.File_Close : simpl never.
Arguments os.File_Write : simpl never.
Arguments os.File_Sync : simpl never.
Arguments os.CloseOnExec : simpl never.
Arguments filepath.Glob : simpl never.
Arguments nowDate : simpl never.
Arguments add64 : simpl never.
(** What a call leaves behind. *)

Lemma Stat_world (name : string) (w w' : World) (o : option error) :
  os.Stat name w = (o, w') -> w' = record (sysStat name) w.
Proof.
  unfold os.Stat. destruct (fault _ _); [|destruct (os.exists_ _ _)];
    intros [= _ <-]; reflexivity.
Qed.

Lemma File_Close_world (fd : nat) (w w' : World) (o : option error) :
  os.File_Close (Some fd) w = (o, w') ->
  w' = set_fds (delete fd (fds w)) (record (sysClose fd) w).
Proof.
  unfold os.File_Close. destruct (fault _ _); [|destruct (bool_decide _)];
    intros [= _ <-]; reflexivity.
Qed.

Lemma Rename_ok (a b : string) (w w' : World) :
  os.Rename a b w = (None, w') ->
  exists data, files w !! a = Some data /\
    w' = set_files (<[b := data]> (delete a (files w))) (record (sysRename a b) w).
Proof.
  unfold os.Rename. destruct (fault _ _); [discriminate|].
  destruct (files w !! a) as [data|]; [|discriminate].
  destruct (bool_decide _); [discriminate|]. intros [= <-]. exists data. split; reflexivity.
Qed.

Lemma Rename_err (a b : string) (w w' : World) (e : error) :
  os.Rename a b w = (Some e, w') -> w' = record (sysRename a b) w.
Proof.
  unfold os.Rename. destruct (fault _ _); [intros [= _ <-]; reflexivity|].
  destruct (files w !! a) as [data|]; [|intros [= _ <-]; reflexivity].
  destruct (bool_decide _); [intros [= _ <-]; reflexivity|discriminate].
Qed.

Lemma Create_ok (name : string) (w w' : World) (f : option nat) :
  os.Create name w = ((f, None), w') ->
  f = Some (os.newfd w) /\
  w' = set_fds (<[os.newfd w := name]> (fds w))
         (set_files (<[name := []]> (files w)) (record (sysCreate name) w)).
Proof.
  unfold os.Create. destruct (fault _ _); [discriminate|].
  destruct (String.eqb name ""); [discriminate|].
  destruct (bool_decide _); [discriminate|]. intros [= <- <-]. split; reflexivity.
Qed.

Lemma Create_err (name : string) (w w' : World) (f : option nat) (e : error) :
  os.Create name w = ((f, Some e), w') -> f = None /\ w' = record (sysCreate name) w.
Proof.
  unfold os.Create. destruct (fault _ _); [intros [= <- _ <-]; split; reflexivity|].
  destruct (String.eqb name ""); [intros [= <- _ <-]; split; reflexivity|].
  destruct (bool_decide _); [intros [= <- _ <-]; split; reflexivity|discriminate].
Qed.

Lemma File_Write_ok (fd : nat) (b : list Byte.byte) (w w' : World) (k : Z) :
  os.File_Write (Some fd) b w = ((k, None), w') ->
  k = len_bytes b /\
  exists name, fds w !! fd = Some name /\
    w' = match files w !! name with
         | Some old => set_files (<[name := old ++ b]> (files w)) (record (sysWrite fd b) w)
         | None => record (sysWrite fd b) w
         end.
Proof.
  unfold os.File_Write. destruct (fault _ _); [discriminate|].
  destruct (fds w !! fd) as [name|]; [|discriminate].
  destruct (files w !! name) as [old|] eqn:Hold; intros [= <- <-];
    (split; [reflexivity|]; exists name; rewrite Hold; split; reflexivity).
Qed.

Lemma CloseOnExec_world (fd : nat) (w w' : World) (u : unit) :
  os.CloseOnExec fd w = (u, w') -> w' = record (sysCloseOnExec fd) w.
Proof. unfold os.CloseOnExec. intros [= _ <-]. reflexivity. Qed.

(** Sums within [int64] do not wrap. *)
Lemma wrap64_id (z : Z) : in_int64 z -> wrap64 z = z.
Proof.
  unfold in_int64, min_int64, max_int64, wrap64. intros Hz.
  rewrite Z.mod_small by lia. lia.
Qed.

(** Case analysis on the innermost scrutinee of a hypothesis. *)
Ltac inner t :=
  lazymatch t with
  | context [match ?x with _ => _ end] => inner x
  | _ => t
  end.

Ltac case_in H :=
  lazymatch type of H with
  | context [match ?x with _ => _ end] =>
      let y := inner x in destruct y eqn:?; simpl in H; try discriminate H
  end.

Ltac unfold_M_in H :=
  unfold locked, Lock, Unlock, closeOnExec, backupFileName, send, closeDone, latch,
    park, panic in H;
  unfold mbind, M_bind, mret, M_ret, gets, reads, modify, sys in H; simpl in H.
(** A write that succeeds while the size counter plus the length of the
    payload exceeds [maxSize] has rotated exactly once and then
    appended. The calls are the close of the old handle if there was
    one, the stat, the rename if the stat has found the file and the
    backup name is not empty, one create of the active file, the
    close-on-exec, and one write of the payload. *)
Lemma Write_rotated (s s' : State) (data : list Byte.byte) (n : Z) :
  0 <= size (rw s) ->
  size (rw s) + len_bytes data > maxSize (opt (rw s)) ->
  size (rw s) + len_bytes data <= max_int64 ->
  Write data s = Ret (n, None) s' ->
  n = len_bytes data /\
  len_bytes data <= maxSize (opt (rw s)) /\
  size (rw s') = len_bytes data /\
  exists fd',
    trace (world s') =
      trace (world s)
      ++ match fp (rw s) with Some fd => [sysClose fd] | None => [] end
      ++ [sysStat (filename (rw s))]
      ++ (if moves s then [sysRename (filename (rw s)) (backupName (rw s))] else [])
      ++ [sysCreate (filename (rw s)); sysCloseOnExec fd'; sysWrite fd' data] /\
    postCh (rw s') = postCh (rw s) ++ (if moves s then [backupName (rw s)] else []) /\
    fp (rw s') = Some fd' /\
    files (world s') !! filename (rw s) = Some data /\
    (moves s = true -> backupName (rw s) <> filename (rw s) ->
     is_Some (files (world s) !! filename (rw s)) /\
     files (world s') !! backupName (rw s) = files (world s) !! filename (rw s)) /\
    same_files_but_two s s'.
Proof.
  intros Hsize Hover Hmax H.
  assert (Hadd : add64 (size (rw s)) (len_bytes data) = size (rw s) + len_bytes data).
  { apply wrap64_id. unfold in_int64, min_int64, len_bytes in *. lia. }
  unfold moves, beforeStat, same_files_but_two.
  unfold Write, write, rotate in H. unfold_M_in H.
  case_in H. case_in H. case_in H. case_in H.
  rewrite Hadd in H.
  assert ((size (rw s) + len_bytes data >? maxSize (opt (rw s))) = true) as Hgt by lia.
  rewrite Hgt in H. simpl in H.
  repeat case_in H.
  all: injection H as <- <-.
  all: match goal with
       | Hc : os.Create _ _ = _ |- _ => apply Create_ok in Hc as [Hf ->]; try discriminate Hf
       end.
  all: injection Hf as ->.
  all: match goal with
       | Hw : os.File_Write _ _ _ = _ |- _ =>
           apply File_Write_ok in Hw as [-> (name0 & Hfd & ->)]; simpl in Hfd;
           rewrite lookup_insert_eq in Hfd; injection Hfd as <-
       end.
  all: simpl; rewrite lookup_insert_eq; simpl.
  all: try match goal with
            | Hs : os.Stat ?a ?b = _ |- context [os.Stat ?a ?b] => rewrite Hs; cbn [fst]
            end.
  all: match goal with Hb : bool_decide _ && _ = _ |- _ => rewrite Hb end.
  all: repeat match goal with
       | Hc : os.File_Close _ _ = _ |- _ => apply File_Close_world in Hc as ->
       | Hc : os.Stat _ _ = _ |- _ => apply Stat_world in Hc as ->
       | Hc : os.Rename _ _ _ = _ |- _ => apply Rename_ok in Hc as (old & Hold & ->)
       end.
  all: assert (Hsmall : len_bytes data <= maxSize (opt (rw s))) by lia.
  all: assert (Hzero : add64 0 (len_bytes data) = len_bytes data)
         by (apply wrap64_id; unfold in_int64, min_int64, len_bytes in *; lia).
  all: split; [reflexivity|]; split; [exact Hsmall|]; split; [exact Hzero|].
  all: simpl in *; eexists.
  all: split; [rewrite <- ?app_assoc; simpl; rewrite <- ?app_assoc; reflexivity|].
  all: split; [rewrite ?app_nil_r; reflexivity|].
  all: split; [reflexivity|].
  all: split; [apply lookup_insert_eq|].
  all: split; [|intros name Ha Hb; rewrite ?lookup_insert_ne, ?lookup_delete_ne by congruence;
                reflexivity].
  all: try (intros Habs; discriminate Habs).
  all: intros _ Hdiff; rewrite Hold; split; [eexists; reflexivity|].
  all: rewrite !lookup_insert_ne by congruence; apply lookup_insert_eq.
Qed.

(** A writer that has written 10 of its 12 bytes. *)
Definition nearly_full (fault : nat -> Effect -> option Errno) : State :=
  {| world := with_handle 0 "app.log" (demo_world ["app.log"] fault);
     rw := set_size 10 (demo_writer 12 0 (Some 0%nat)) |}.

(** *** Writes without a handle *)

(** An environment that refuses renames and removals, as a directory
    without write permission does. *)
Definition read_only : nat -> Effect -> option Errno :=
  fun _ c =>
    match c with
    | sysRename _ _ | sysRemove _ => Some EACCES
    | _ => None
    end.

(** A rotation that gets past the close of the old handle and then
    fails leaves no handle. *)
Lemma rotate_fails_handle (s s1 : State) (e : error) :
  fst (os.File_Close (fp (rw s)) (world s)) = None ->
  rotate s = Ret (Some e) s1 ->
  fp (rw s1) = None.
Proof.
  intros Hclose H. unfold rotate in H. unfold_M_in H.
  repeat case_in H.
  all: try (injection H as <- <-; simpl; try reflexivity).
  all: try (simpl in Hclose; discriminate Hclose).
  all: try assumption.
  all: match goal with
       | Hc : os.Create _ _ = _ |- _ => apply Create_err in Hc as [Hf _]; congruence
       end.
Qed.

(** Without a handle, a write that fits is reported as written and
    changes nothing. *)
Lemma Write_no_handle (s : State) (data : list Byte.byte) :
  fp (rw s) = None ->
  mu (rw s) = false -> done (rw s) = false -> err (rw s) = None ->
  0 <= size (rw s) ->
  size (rw s) + len_bytes data <= maxSize (opt (rw s)) ->
  maxSize (opt (rw s)) <= max_int64 ->
  Write data s = Ret (len_bytes data, None) s.
Proof.
  intros Hfp Hmu Hdone Herr Hsize Hfit Hmax.
  assert (Hadd : add64 (size (rw s)) (len_bytes data) = size (rw s) + len_bytes data).
  { apply wrap64_id. unfold in_int64, min_int64, len_bytes in *. lia. }
  unfold Write. rewrite (locked_free _ _ Hmu).
  unfold write. unfold mbind, M_bind, mret, M_ret, gets, modify. simpl.
  rewrite Hdone.
  assert ((len_bytes data >? maxSize (opt (rw s))) = false) as -> by (unfold len_bytes in *; lia).
  rewrite Herr. simpl. rewrite Hadd.
  assert ((size (rw s) + len_bytes data >? maxSize (opt (rw s))) = false) as -> by lia.
  simpl. rewrite Hfp. simpl.
  rewrite (set_mu_release _ Hmu), state_eta. reflexivity.
Qed.

(** C5, as amended: a rotation that closes the old handle and then fails
    leaves the writer without a handle; and as long as the handle is
    still missing, the writer not closed and no maintenance error
    latched, a write that fits under [maxSize] returns the length of the
    payload and nil while no call is made and nothing changes, the size
    counter included. *)
Theorem Write_after_failed_rotation (s s1 s2 : State) (e : error) (data : list Byte.byte) :
  fst (os.File_Close (fp (rw s)) (world s)) = None ->
  rotate s = Ret (Some e) s1 ->
  fp (rw s2) = fp (rw s1) ->
  mu (rw s2) = false -> done (rw s2) = false -> err (rw s2) = None ->
  0 <= size (rw s2) ->
  size (rw s2) + len_bytes data <= maxSize (opt (rw s2)) ->
  maxSize (opt (rw s2)) <= max_int64 ->
  fp (rw s1) = None /\ Write data s2 = Ret (len_bytes data, None) s2.
Proof.
  intros Hclose Hrot Hsame Hmu Hdone Herr Hsize Hfit Hmax.
  pose proof (rotate_fails_handle s s1 e Hclose Hrot) as Hnil.
  split; [exact Hnil|]. apply Write_no_handle; congruence.
Qed.

(** The writer of [nearly_full] in a directory that has become
    read-only, with the name of an earlier backup still waiting for the
    maintainer. *)
Definition stuck_state : State :=
  {| world := with_handle 0 "app.log"
                (demo_world ["app.log"; "app-2000-01-01T00:00:00.000.log"] read_only);
     rw := set_postCh ["app-2000-01-01T00:00:00.000.log"]
             (set_size 10 (demo_writer 12 0 (Some 0%nat))) |}.

Lemma Write_after_failed_rotation_witness :
  exists e s1,
    rotate stuck_state = Ret (Some e) s1 /\
    fp (rw s1) = None /\
    Write (bytes "hi") s1 = Ret (2, None) s1.
Proof.
  assert (Hrot : exists e s1, rotate stuck_state = Ret (Some e) s1)
    by (eexists _, _; vm_compute; reflexivity).
  destruct Hrot as (e & s1 & Hrot). exists e, s1. split; [exact Hrot|].
  assert (Hs1 : size (rw s1) = 10 /\ done (rw s1) = false /\ err (rw s1) = None /\
                maxSize (opt (rw s1)) = 12 /\ mu (rw s1) = false).
  { revert Hrot. vm_compute. intros [= _ <-]. repeat split. }
  destruct Hs1 as (Hsz & Hdone & Herr & Hmax & Hmu).
  apply (Write_after_failed_rotation stuck_state s1 s1 e (bytes "hi")).
  - vm_compute. reflexivity.
  - exact Hrot.
  - reflexivity.
  - exact Hmu.
  - exact Hdone.
  - exact Herr.
  - rewrite Hsz. lia.
  - rewrite Hsz, Hmax. vm_compute. discriminate.
  - rewrite Hmax. vm_compute. discriminate.
Defined.

(** The claim as stated, for every later write. The rotation of a write
    fails at the rename and leaves no handle; the maintainer then serves
    the waiting name, cannot remove the old backup, and latches that
    error; the next write fits, and returns the latched error instead of
    its length. After [Close], a write that fits returns
    [ErrLogFileClosed]. *)
Lemma Write_after_failed_rotation_counterexample :
  exists s1 s2 s3,
    Write (bytes "hello") stuck_state
    = Ret (0, Some (PathError (sysRename "app.log" "app-2023-11-14T22:13:20.123.log") EACCES)) s1 /\
    fp (rw s1) = None /\
    postRotate false s1 = Ret true s2 /\
    fp (rw s2) = None /\
    size (rw s2) + len_bytes (bytes "hi") <= maxSize (opt (rw s2)) /\
    Write (bytes "hi") s2
    = Ret (0, Some (PathError (sysRemove "app-2000-01-01T00:00:00.000.log") EACCES))
        {| world := world s2; rw := set_err None (rw s2) |} /\
    Close s1 = Ret (Some ErrInvalid) s3 /\
    fp (rw s3) = None /\
    Write (bytes "hi") s3 = Ret (0, Some ErrLogFileClosed) s3.
Proof.
  eexists _, _, _.
  split; [vm_compute; reflexivity|].
  split; [vm_compute; reflexivity|].
  split; [vm_compute; reflexivity|].
  split; [vm_compute; reflexivity|].
  split; [vm_compute; discriminate|].
  split; [vm_compute; reflexivity|].
  split; [vm_compute; reflexivity|].
  split; [vm_compute; reflexivity|].
  vm_compute; reflexivity.
Qed.
(** *** The sweeps *)

(** The pattern the lister globs, and the backups it finds. *)
Definition patternOf (r : RotateWriter) : string :=
  if gzip (opt r) then prefix r +:+ delimiter (opt r) +:+ "*" +:+ ext r +:+ ".gz"
  else prefix r +:+ delimiter (opt r) +:+ "*" +:+ ext r.

Definition backups (s : State) : list string :=
  filter (fun n => matches (world s) (patternOf (rw s)) n = true)
    (elements (dom (files (world s)) ∪ dirs (world s))).

(** No directory is among the names the lister finds. *)
Definition filesOnly (s : State) : Prop :=
  forall name, name ∈ backups s -> name ∉ dirs (world s).

(** The world after the names of [l] have been removed one after the
    other. *)
Fixpoint removeAll (l : list string) (w : World) : World :=
  match l with
  | [] => w
  | name :: l' => removeAll l' (set_files (delete name (files w)) (record (sysRemove name) w))
  end.

Definition removable (w : World) : Prop :=
  forall (tick : nat) (name : string), faults w tick (sysRemove name) = None.

Lemma listFiles_ok (s : State) :
  badPattern (world s) (patternOf (rw s)) = false ->
  listFiles s = Ret (backups s, None)
                  {| world := record (sysGlob (patternOf (rw s))) (world s); rw := rw s |}.
Proof.
  intros Hbad. unfold listFiles, backups, patternOf in *.
  unfold mbind, M_bind, mret, M_ret, gets, sys, filepath.Glob. simpl.
  destruct (gzip (opt (rw s))); rewrite Hbad; reflexivity.
Qed.

Lemma listFiles_bad (s : State) :
  badPattern (world s) (patternOf (rw s)) = true ->
  listFiles s = Ret ([], Some ErrBadPattern)
                  {| world := record (sysGlob (patternOf (rw s))) (world s); rw := rw s |}.
Proof.
  intros Hbad. unfold listFiles, backups, patternOf in *.
  unfold mbind, M_bind, mret, M_ret, gets, sys, filepath.Glob. simpl.
  destruct (gzip (opt (rw s))); rewrite Hbad; reflexivity.
Qed.

Lemma Remove_ok (name : string) (w : World) :
  removable w -> name ∈ dom (files w) ->
  os.Remove name w = (None, set_files (delete name (files w)) (record (sysRemove name) w)).
Proof.
  intros Hrem Hin. unfold os.Remove, fault. rewrite Hrem. simpl.
  rewrite bool_decide_eq_true_2 by exact Hin. reflexivity.
Qed.

Lemma removeAll_files (l : list string) (w : World) :
  files (removeAll l w) = foldl (fun m f => delete f m) (files w) l.
Proof. revert w. induction l as [|name l IH]; intros w; simpl; [reflexivity|]. rewrite IH. reflexivity. Qed.

Lemma removeAll_trace (l : list string) (w : World) :
  trace (removeAll l w) = trace w ++ (sysRemove <$> l).
Proof.
  revert w. induction l as [|name l IH]; intros w; simpl.
  - rewrite app_nil_r. reflexivity.
  - rewrite IH. simpl. rewrite <- app_assoc. reflexivity.
Qed.

Lemma removeAll_matches (l : list string) (w : World) :
  matches (removeAll l w) = matches w.
Proof. revert w. induction l as [|name l IH]; intros w; simpl; [reflexivity|]. rewrite IH. reflexivity. Qed.

Lemma foldl_delete_lookup (l : list string) (m : gmap string (list Byte.byte)) (name : string) :
  foldl (fun m f => delete f m) m l !! name = if decide (name ∈ l) then None else m !! name.
Proof.
  revert m. induction l as [|x l IH]; intros m; simpl.
  - destruct (decide (name ∈ [])) as [Hin|]; [inversion Hin|reflexivity].
  - rewrite IH. destruct (decide (name ∈ l)) as [Hin|Hnin].
    + rewrite decide_True by (right; exact Hin). reflexivity.
    + destruct (decide (x = name)) as [->|Hne].
      * rewrite lookup_delete_eq. rewrite decide_True by left. reflexivity.
      * rewrite lookup_delete_ne by exact Hne.
        rewrite decide_False; [reflexivity|].
        intros Hin. apply elem_of_cons in Hin as [->|Hin]; [apply Hne; reflexivity|apply Hnin, Hin].
Qed.

Lemma foldl_delete_dom (l : list string) (m : gmap string (list Byte.byte)) (name : string) :
  name ∈ dom (foldl (fun m f => delete f m) m l) <-> name ∈ dom m /\ name ∉ l.
Proof.
  rewrite !elem_of_dom, foldl_delete_lookup.
  destruct (decide (name ∈ l)) as [Hin|Hnin]; split.
  - intros [x Hx]; discriminate.
  - intros [_ Hn]. destruct (Hn Hin).
  - intros H. split; [exact H|exact Hnin].
  - intros [H _]. exact H.
Qed.

(** The loop of the count sweep, when every removal succeeds. *)
Lemma removeEach_ok (l : list string) (s : State) :
  removable (world s) -> NoDup l -> (forall name, name ∈ l -> name ∈ dom (files (world s))) ->
  removeEach l s = Ret None {| world := removeAll l (world s); rw := rw s |}.
Proof.
  revert s. induction l as [|name l IH]; intros s Hrem Hnd Hin; simpl.
  - unfold mret, M_ret. rewrite state_eta. reflexivity.
  - unfold mbind, M_bind, sys. rewrite Remove_ok; [|exact Hrem|apply Hin; left].
    simpl. apply NoDup_cons in Hnd as [Hnotin Hnd].
    rewrite IH; [reflexivity|exact Hrem|exact Hnd|].
    intros x Hx. simpl. rewrite dom_delete_L. apply elem_of_difference. split.
    + apply Hin. right. exact Hx.
    + intros Heq%elem_of_singleton. subst. apply Hnotin, Hx.
Qed.

(** The loop of the age sweep, when every removal succeeds. *)
Lemma removeBelow_ok (b : string) (l : list string) (s : State) :
  removable (world s) -> NoDup l -> (forall name, name ∈ l -> name ∈ dom (files (world s))) ->
  removeBelow b l s
  = Ret None {| world := removeAll (filter (fun n => str_lt n b = true) l) (world s);
                rw := rw s |}.
Proof.
  revert s. induction l as [|name l IH]; intros s Hrem Hnd Hin; simpl.
  - unfold mret, M_ret. rewrite state_eta. reflexivity.
  - apply NoDup_cons in Hnd as [Hnotin Hnd]. unfold str_ge.
    rewrite filter_cons.
    destruct (decide (str_lt name b = true)) as [Hlt|Hlt]; unfold str_lt in Hlt.
    + rewrite Hlt. simpl.
      unfold mbind, M_bind, sys. rewrite Remove_ok; [|exact Hrem|apply Hin; left].
      simpl. rewrite IH; [reflexivity|exact Hrem|exact Hnd|].
      intros x Hx. simpl. rewrite dom_delete_L. apply elem_of_difference. split.
      * apply Hin. right. exact Hx.
      * intros Heq%elem_of_singleton. subst. apply Hnotin, Hx.
    + apply not_true_is_false in Hlt. rewrite Hlt. simpl.
      apply IH; [exact Hrem|exact Hnd|]. intros x Hx. apply Hin. right. exact Hx.
Qed.
Lemma backups_NoDup (s : State) : NoDup (backups s).
Proof. unfold backups. apply NoDup_filter, NoDup_elements. Qed.

Lemma backups_exist (s : State) (name : string) :
  filesOnly s -> name ∈ backups s -> name ∈ dom (files (world s)).
Proof.
  intros Honly Hin. pose proof (Honly name Hin) as Hdir. unfold backups in Hin.
  apply list_elem_of_filter in Hin as [_ Hin]. apply elem_of_elements in Hin.
  apply elem_of_union in Hin as [Hin|Hin]; [exact Hin|destruct (Hdir Hin)].
Qed.

Lemma sort_Strings_perm (l : list string) : sort_Strings l ≡ₚ l.
Proof. apply merge_sort_Permutation. Qed.

Lemma sort_Strings_sorted (l : list string) : StronglySorted String.le (sort_Strings l).
Proof. apply StronglySorted_merge_sort; apply _. Qed.

(** The sorted names, cut after the first [k]: the two parts share no
    name, every name of the first is below every name of the second, and
    together they are the names. *)
Lemma sort_Strings_cut (l : list string) (k : nat) :
  NoDup l ->
  NoDup (take k (sort_Strings l)) /\
  NoDup (drop k (sort_Strings l)) /\
  (forall a b, a ∈ take k (sort_Strings l) -> b ∈ drop k (sort_Strings l) ->
               String.le a b /\ a <> b) /\
  (forall x, x ∈ l <-> x ∈ take k (sort_Strings l) \/ x ∈ drop k (sort_Strings l)).
Proof.
  intros Hnd.
  assert (Hnd' : NoDup (take k (sort_Strings l) ++ drop k (sort_Strings l))).
  { rewrite take_drop, sort_Strings_perm. exact Hnd. }
  assert (Hss : StronglySorted String.le (take k (sort_Strings l) ++ drop k (sort_Strings l))).
  { rewrite take_drop. apply sort_Strings_sorted. }
  apply NoDup_app in Hnd' as (Hn1 & Hdis & Hn2).
  apply StronglySorted_app in Hss as (Hle & _ & _).
  split; [exact Hn1|]. split; [exact Hn2|]. split.
  - intros a b Ha Hb. split; [apply Hle; assumption|].
    intros ->. exact (Hdis b Ha Hb).
  - intros x. rewrite <- elem_of_app, take_drop, sort_Strings_perm. reflexivity.
Qed.

(** What both count sweeps do past their guards. *)
Lemma count_sweep_run (s : State) :
  0 < maxBackups (opt (rw s)) < Z.of_nat (length (backups s)) ->
  Z.of_nat (length (backups s)) <= max_int64 ->
  badPattern (world s) (patternOf (rw s)) = false ->
  removable (world s) ->
  filesOnly s ->
  removeOverMaxFiles s
  = Ret tt {| world := removeAll
                (take (length (backups s) - Z.to_nat (maxBackups (opt (rw s))))
                   (sort_Strings (backups s)))
                (record (sysGlob (patternOf (rw s))) (world s));
              rw := rw s |} /\
  deleteOverMaxFiles s = removeOverMaxFiles s.
Proof.
  intros [Hpos Hlt] Hmax Hbad Hrem Honly.
  set (gone := take (length (backups s) - Z.to_nat (maxBackups (opt (rw s))))
                 (sort_Strings (backups s))).
  assert (Hlen : length (sort_Strings (backups s)) = length (backups s))
    by (apply Permutation_length, sort_Strings_perm).
  assert (Hsub : sub64 (Z.of_nat (length (backups s))) (maxBackups (opt (rw s)))
                 = Z.of_nat (length (backups s)) - maxBackups (opt (rw s))).
  { apply wrap64_id. unfold in_int64, min_int64, max_int64 in *. lia. }
  assert (Hslice : slice_to (sort_Strings (backups s))
                     (Z.of_nat (length (backups s)) - maxBackups (opt (rw s)))
                   = Some gone).
  { unfold slice_to. rewrite Hlen.
    assert ((Z.of_nat (length (backups s)) - maxBackups (opt (rw s)) <? 0) = false) as -> by lia.
    assert ((Z.of_nat (length (backups s))
             <? Z.of_nat (length (backups s)) - maxBackups (opt (rw s))) = false) as -> by lia.
    simpl. unfold gone. f_equal. f_equal. lia. }
  destruct (sort_Strings_cut (backups s)
              (length (backups s) - Z.to_nat (maxBackups (opt (rw s))))
              (backups_NoDup s)) as (Hnd & _ & _ & Hall).
  assert (Hgone : removeEach gone
                    {| world := record (sysGlob (patternOf (rw s))) (world s); rw := rw s |}
                  = Ret None {| world := removeAll gone
                                  (record (sysGlob (patternOf (rw s))) (world s));
                                rw := rw s |}).
  { apply (removeEach_ok gone
             {| world := record (sysGlob (patternOf (rw s))) (world s); rw := rw s |}).
    - intros tick name. apply Hrem.
    - exact Hnd.
    - intros name Hin. change (name ∈ dom (files (world s))).
      apply (backups_exist s name Honly). apply Hall. left. exact Hin. }
  assert (Hrun : removeOverMaxFiles s
                 = Ret tt {| world := removeAll gone
                               (record (sysGlob (patternOf (rw s))) (world s));
                             rw := rw s |}).
  { unfold removeOverMaxFiles. unfold mbind, M_bind, gets, mret, M_ret. simpl.
    assert ((maxBackups (opt (rw s)) <=? 0) = false) as -> by lia.
    rewrite (listFiles_ok s Hbad). simpl.
    rewrite Hlen, Hsub, Hslice.
    assert ((maxBackups (opt (rw s)) >=? Z.of_nat (length (backups s))) = false) as -> by lia.
    simpl. rewrite Hgone. reflexivity. }
  split; [exact Hrun|]. rewrite Hrun.
  unfold deleteOverMaxFiles. unfold mbind, M_bind, gets, mret, M_ret. simpl.
  assert ((maxBackups (opt (rw s)) <=? 0) = false) as -> by lia.
  rewrite (listFiles_ok s Hbad). simpl.
  rewrite Hlen, Hsub, Hslice. simpl. rewrite Hgone. reflexivity.
Qed.

(** The backups over the budget, oldest first, and the ones within it. *)
Definition overMax (s : State) : list string :=
  take (length (backups s) - Z.to_nat (maxBackups (opt (rw s)))) (sort_Strings (backups s)).

Definition withinMax (s : State) : list string :=
  drop (length (backups s) - Z.to_nat (maxBackups (opt (rw s)))) (sort_Strings (backups s)).

(** The state a count sweep leaves when nothing fails. *)
Definition swept (s : State) : State :=
  {| world := removeAll (overMax s) (record (sysGlob (patternOf (rw s))) (world s));
     rw := rw s |}.

Lemma removeAll_dirs (l : list string) (w : World) : dirs (removeAll l w) = dirs w.
Proof. revert w. induction l as [|name l IH]; intros w; simpl; [reflexivity|]. rewrite IH. reflexivity. Qed.

Lemma backups_removeAll (s : State) (l : list string) (name : string) :
  (forall x, x ∈ l -> x ∉ dirs (world s)) ->
  name ∈ backups {| world := removeAll l (record (sysGlob (patternOf (rw s))) (world s));
                    rw := rw s |}
  <-> name ∈ backups s /\ name ∉ l.
Proof.
  intros Hl. unfold backups. simpl.
  rewrite !list_elem_of_filter, !elem_of_elements, !elem_of_union.
  rewrite removeAll_matches, removeAll_dirs, removeAll_files, foldl_delete_dom. simpl.
  split.
  - intros [Hm [[Hd Hn]|Hd]].
    + split; [split; [exact Hm|left; exact Hd]|exact Hn].
    + split; [split; [exact Hm|right; exact Hd]|]. intros Hin. exact (Hl name Hin Hd).
  - intros [[Hm [Hd|Hd]] Hn].
    + split; [exact Hm|left; split; assumption].
    + split; [exact Hm|right; exact Hd].
Qed.

(** A count sweep over more backups than [maxBackups], when the listing
    and every removal succeed and no directory is listed: the names that
    sort first are removed, as many as are over the budget, in ascending
    order, and nothing else. *)
Lemma count_sweep_removes (s : State) :
  0 < maxBackups (opt (rw s)) < Z.of_nat (length (backups s)) ->
  Z.of_nat (length (backups s)) <= max_int64 ->
  badPattern (world s) (patternOf (rw s)) = false ->
  removable (world s) ->
  filesOnly s ->
  removeOverMaxFiles s = Ret tt (swept s) /\
  deleteOverMaxFiles s = Ret tt (swept s) /\
  sort_Strings (backups s) = overMax s ++ withinMax s /\
  Z.of_nat (length (overMax s))
  = Z.of_nat (length (backups s)) - maxBackups (opt (rw s)) /\
  Z.of_nat (length (withinMax s)) = maxBackups (opt (rw s)) /\
  (forall a b, a ∈ overMax s -> b ∈ withinMax s -> String.le a b /\ a <> b) /\
  trace (world (swept s))
  = trace (world s) ++ sysGlob (patternOf (rw s)) :: (sysRemove <$> overMax s) /\
  (forall name, files (world (swept s)) !! name
                = if decide (name ∈ overMax s) then None else files (world s) !! name) /\
  backups (swept s) ≡ₚ withinMax s.
Proof.
  intros Hn Hmax Hbad Hrem Honly.
  destruct (count_sweep_run s Hn Hmax Hbad Hrem Honly) as [Hrun Hsame].
  destruct (sort_Strings_cut (backups s)
              (length (backups s) - Z.to_nat (maxBackups (opt (rw s))))
              (backups_NoDup s)) as (Hnd1 & Hnd2 & Hle & Hall).
  assert (Hlen : length (sort_Strings (backups s)) = length (backups s))
    by (apply Permutation_length, sort_Strings_perm).
  split; [exact Hrun|]. split; [rewrite Hsame; exact Hrun|].
  split; [unfold overMax, withinMax; rewrite take_drop; reflexivity|].
  split; [unfold overMax; rewrite length_take, Hlen; lia|].
  split; [unfold withinMax; rewrite length_drop, Hlen; lia|].
  split; [exact Hle|].
  split; [unfold swept; simpl; rewrite removeAll_trace; simpl;
          rewrite <- app_assoc; reflexivity|].
  split.
  - intros name. unfold swept. simpl. rewrite removeAll_files. simpl.
    apply foldl_delete_lookup.
  - apply NoDup_Permutation; [apply backups_NoDup|exact Hnd2|].
    intros x. unfold swept. rewrite backups_removeAll.
    + fold (overMax s) in *. fold (withinMax s) in *. rewrite (Hall x). split.
      * intros [[Hin|Hin] Hnot]; [destruct (Hnot Hin)|exact Hin].
      * intros Hin. split; [right; exact Hin|].
        intros Hgone. destruct (Hle x x Hgone Hin) as [_ Hne]. apply Hne. reflexivity.
    + intros y Hy. apply Honly, Hall. left. exact Hy.
Qed.

(** A budget that is not positive makes either sweep return at once. *)
Lemma count_sweep_disabled (s : State) :
  maxBackups (opt (rw s)) <= 0 ->
  removeOverMaxFiles s = Ret tt s /\ deleteOverMaxFiles s = Ret tt s.
Proof.
  intros Hoff. unfold removeOverMaxFiles, deleteOverMaxFiles.
  unfold mbind, M_bind, gets, mret, M_ret. simpl.
  assert ((maxBackups (opt (rw s)) <=? 0) = true) as -> by lia.
  split; reflexivity.
Qed.

(** Six backups, one for each of six days, and a budget of five. *)
Definition six_backups : State :=
  open_state 100 5
    ["app.log";
     "app-2023-11-03T00:00:00.000.log"; "app-2023-11-01T00:00:00.000.log";
     "app-2023-11-06T00:00:00.000.log"; "app-2023-11-02T00:00:00.000.log";
     "app-2023-11-05T00:00:00.000.log"; "app-2023-11-04T00:00:00.000.log"]
    no_faults.

(** *** The age sweep *)

(** The backups below the boundary name, and the state an age sweep
    leaves when nothing fails. *)
Definition outdated (s : State) : list string :=
  filter (fun n => str_lt n (boundaryFileName (world s) (rw s)) = true) (backups s).

Definition aged (s : State) : State :=
  {| world := removeAll (outdated s) (record (sysGlob (patternOf (rw s))) (world s));
     rw := rw s |}.

(** Up to 106751 days the delay is the days times 24 hours, backwards. *)
Lemma boundaryDelay_days (days : Z) :
  0 < days <= 106751 -> boundaryDelay days = - (days * (24 * time.Hour)).
Proof.
  intros Hd. unfold boundaryDelay, mul64, time.Hour, time.Second.
  rewrite (wrap64_id (24 * days)) by (unfold in_int64, min_int64, max_int64; lia).
  rewrite wrap64_id by (unfold in_int64, min_int64, max_int64; lia). lia.
Qed.

(** The age sweep when the listing and every removal succeed and no
    directory is listed: with a
    positive age it removes the backups whose names are below the
    boundary name, and those only; without, it returns at once. *)
Lemma age_sweep (s : State) :
  (maxDays (opt (rw s)) <= 0 -> removeOutdatedFiles s = Ret tt s) /\
  (0 < maxDays (opt (rw s)) ->
   badPattern (world s) (patternOf (rw s)) = false ->
   removable (world s) ->
   filesOnly s ->
   removeOutdatedFiles s = Ret tt (aged s) /\
   trace (world (aged s))
   = trace (world s) ++ sysGlob (patternOf (rw s)) :: (sysRemove <$> outdated s) /\
   forall name,
     files (world (aged s)) !! name
     = if decide (name ∈ backups s /\ str_lt name (boundaryFileName (world s) (rw s)) = true)
       then None else files (world s) !! name).
Proof.
  split.
  - intros Hoff. unfold removeOutdatedFiles. unfold mbind, M_bind, gets, mret, M_ret. simpl.
    assert ((maxDays (opt (rw s)) <=? 0) = true) as -> by lia. reflexivity.
  - intros Hpos Hbad Hrem Honly.
    assert (Hrun : removeOutdatedFiles s = Ret tt (aged s)).
    { unfold removeOutdatedFiles. unfold mbind, M_bind, gets, reads, mret, M_ret. simpl.
      assert ((maxDays (opt (rw s)) <=? 0) = false) as -> by lia.
      rewrite (listFiles_ok s Hbad). simpl.
      rewrite (removeBelow_ok _ (backups s)
                 {| world := record (sysGlob (patternOf (rw s))) (world s); rw := rw s |}).
      - reflexivity.
      - intros tick name. apply Hrem.
      - apply backups_NoDup.
      - intros name Hin. change (name ∈ dom (files (world s))).
        apply (backups_exist s name Honly), Hin. }
    split; [exact Hrun|]. split.
    + unfold aged. simpl. rewrite removeAll_trace. simpl. rewrite <- app_assoc. reflexivity.
    + intros name. unfold aged. simpl. rewrite removeAll_files, foldl_delete_lookup. simpl.
      unfold outdated.
      destruct (decide (name ∈ filter _ (backups s))) as [Hin|Hnin];
        rewrite list_elem_of_filter in *.
      * rewrite decide_True; [reflexivity|]. destruct Hin; split; assumption.
      * rewrite decide_False; [reflexivity|]. intros [H1 H2]. apply Hnin. split; assumption.
Qed.

(** The state a method stops in, however it stops. *)
Definition lastState {A : Type} (r : Res State A) : State :=
  match r with
  | Ret _ s => s
  | Panic s => s
  | Block _ s => s
  end.

Lemma Remove_files (x : string) (w w' : World) (o : option error) :
  os.Remove x w = (o, w') -> files w' = files w \/ files w' = delete x (files w).
Proof.
  unfold os.Remove. destruct (fault _ _); [intros [= _ <-]; left; reflexivity|].
  destruct (bool_decide (x ∈ dom (files w))); [intros [= _ <-]; right; reflexivity|].
  destruct (bool_decide _); intros [= _ <-]; left; reflexivity.
Qed.

(** Whatever fails, the loop of the age sweep leaves the names that are
    not below the boundary. *)
Lemma removeBelow_keeps (b : string) (l : list string) (s : State) (name : string) :
  str_ge name b = true ->
  files (world (lastState (removeBelow b l s))) !! name = files (world s) !! name.
Proof.
  intros Hge. revert s. induction l as [|x l IH]; intros s; simpl; [reflexivity|].
  destruct (str_ge x b) eqn:Hx; [apply IH|].
  unfold mbind, M_bind, sys. destruct (os.Remove x (world s)) as [o w'] eqn:Hrem.
  assert (Hw' : files w' !! name = files (world s) !! name).
  { apply Remove_files in Hrem as [->| ->]; [reflexivity|].
    apply lookup_delete_ne. intros ->. congruence. }
  destruct o as [e|]; simpl; [exact Hw'|].
  rewrite IH. exact Hw'.
Qed.

(** Whatever fails, the age sweep removes no file whose name is not
    below the boundary name. *)
Lemma age_sweep_keeps (s : State) (name : string) :
  str_ge name (boundaryFileName (world s) (rw s)) = true ->
  files (world (lastState (removeOutdatedFiles s))) !! name = files (world s) !! name.
Proof.
  intros Hge. unfold removeOutdatedFiles. unfold mbind, M_bind, gets, reads, mret, M_ret.
  simpl. destruct (maxDays (opt (rw s)) <=? 0); [reflexivity|].
  destruct (badPattern (world s) (patternOf (rw s))) eqn:Hbad.
  - rewrite (listFiles_bad s Hbad). simpl. unfold latch, locked, Lock, Unlock, modify.
    unfold mbind, M_bind, mret, M_ret. simpl. destruct (mu (rw s)); reflexivity.
  - rewrite (listFiles_ok s Hbad). simpl.
    pose proof (removeBelow_keeps
                  (boundaryFileName (record (sysGlob (patternOf (rw s))) (world s)) (rw s))
                  (backups s)
                  {| world := record (sysGlob (patternOf (rw s))) (world s); rw := rw s |}
                  name Hge) as Hkeep.
    destruct (removeBelow _ _ _) as [[e|] s1|s1|w s1]; simpl in *; try exact Hkeep.
    unfold latch, locked, Lock, Unlock, modify. unfold mbind, M_bind, mret, M_ret. simpl.
    destruct (mu (rw s1)); simpl; exact Hkeep.
Qed.

(** A writer that is to keep its backups for 106752 days, and the backup
    it has just made. *)
Definition long_keeping : State :=
  {| world := with_handle 0 "app.log"
                (demo_world ["app.log"; "app-2023-11-14T22:13:20.123.log"] no_faults);
     rw := {| filename := "app.log"; prefix := "app"; ext := ".log";
              backupName := "app-2023-11-14T22:13:21.000.log"; size := 0;
              opt := {| delimiter := "-"; timeFormat := "2006-01-02T15:04:05.000";
                        gzip := false; localTime := true; maxDays := 106752;
                        maxSize := 100; maxBackups := 0 |};
              err := None; postCh := []; postDone := false; fp := Some 0%nat;
              mu := false; closeOnce := false; done := false |} |}.

(** The boundary name the claim describes: the current time less the
    days times 24 hours, without the [int64] arithmetic. *)
Definition statedBoundary (w : World) (r : RotateWriter) : string :=
  let boundary :=
    dateline w (timeFormat (opt r)) (localTime (opt r)) (- (maxDays (opt r) * (24 * time.Hour))) in
  let buf := prefix r +:+ delimiter (opt r) +:+ boundary +:+ ext r in
  if gzip (opt r) then buf +:+ ".gz" else buf.

(** C9: at 106752 days the product of the hours and the days leaves
    [int64]: the delay comes out positive and the boundary name lies in
    the year 2316, not in 1731. The sweep removes the backup of this very
    moment, whose name is not below the boundary name the claim
    describes. *)
Theorem age_sweep_overflow :
  boundaryDelay 106752 = 9223371273709551616 /\
  boundaryFileName (world long_keeping) (rw long_keeping) = "app-2316-02-24T21:47:53.833.log" /\
  statedBoundary (world long_keeping) (rw long_keeping) = "app-1731-08-05T22:13:20.123.log" /\
  str_ge "app-2023-11-14T22:13:20.123.log"
    (statedBoundary (world long_keeping) (rw long_keeping)) = true /\
  removeOutdatedFiles long_keeping = Ret tt (aged long_keeping) /\
  files (world long_keeping) !! "app-2023-11-14T22:13:20.123.log" = Some [] /\
  files (world (aged long_keeping)) !! "app-2023-11-14T22:13:20.123.log" = None.
Proof.
  split; [vm_compute; reflexivity|].
  split; [vm_compute; reflexivity|].
  split; [vm_compute; reflexivity|].
  split; [vm_compute; reflexivity|].
  split; [vm_compute; reflexivity|].
  split; vm_compute; reflexivity.
Qed.

(** *** The hand-off channel *)

(** A send to the full channel parks the sender. *)
Lemma send_full (name : string) (s : State) :
  (postCh_cap <= length (postCh (rw s)))%nat -> send name s = Block onSend s.
Proof.
  intros Hfull. unfold send.
  assert ((length (postCh (rw s)) <? postCh_cap)%nat = false) as ->
    by (apply Nat.ltb_ge; exact Hfull).
  reflexivity.
Qed.

Lemma send_room (name : string) (s : State) :
  (length (postCh (rw s)) < postCh_cap)%nat ->
  send name s = Ret tt {| world := world s; rw := set_postCh (postCh (rw s) ++ [name]) (rw s) |}.
Proof.
  intros Hroom. unfold send.
  assert ((length (postCh (rw s)) <? postCh_cap)%nat = true) as ->
    by (apply Nat.ltb_lt; exact Hroom).
  reflexivity.
Qed.

(** A rotation that has renamed the file cannot return while the channel
    is full. *)
Lemma rotate_full (s : State) (fd : nat) (w1 w2 w3 : World) :
  fp (rw s) = Some fd ->
  os.File_Close (Some fd) (world s) = (None, w1) ->
  os.Stat (filename (rw s)) w1 = (None, w2) ->
  0 < len (backupName (rw s)) ->
  os.Rename (filename (rw s)) (backupName (rw s)) w2 = (None, w3) ->
  (postCh_cap <= length (postCh (rw s)))%nat ->
  rotate s = Block onSend {| world := w3; rw := set_fp None (rw s) |}.
Proof.
  intros Hfp Hclose Hstat Hbn Hren Hfull.
  unfold rotate. unfold mbind, M_bind, gets, sys, modify, mret, M_ret. simpl.
  rewrite Hfp. simpl. rewrite Hclose. simpl. rewrite Hstat. simpl.
  assert ((0 <? len (backupName (rw s))) = true) as -> by lia. simpl.
  rewrite Hren. simpl. rewrite send_full by exact Hfull. reflexivity.
Qed.

(** A compressing writer that has written 10 of its 12 bytes while a
    hundred retired names wait for the maintainer, which is busy with the
    name it received before them. *)
Definition full_queue : State :=
  {| world := with_handle 0 "app.log" (demo_world ["app.log"] no_faults);
     rw := {| filename := "app.log"; prefix := "app"; ext := ".log";
              backupName := "app-2023-11-14T22:13:20.123.log"; size := 10;
              opt := {| delimiter := "-"; timeFormat := "2006-01-02T15:04:05.000";
                        gzip := true; localTime := true; maxDays := 30;
                        maxSize := 12; maxBackups := 0 |};
              err := None;
              postCh := replicate 100 "app-2023-11-13T00:00:00.000.log";
              postDone := false; fp := Some 0%nat;
              mu := false; closeOnce := false; done := false |} |}.

(** The state the write of [full_queue] is parked in. *)
Definition parked : State :=
  {| world :=
       set_trace [sysClose 0%nat; sysStat "app.log";
                  sysRename "app.log" "app-2023-11-14T22:13:20.123.log"]
         (demo_world ["app-2023-11-14T22:13:20.123.log"] no_faults);
     rw := set_fp None (set_mu true (rw full_queue)) |}.

(** C10: with a hundred names waiting, the write that rotates closes and
    renames the file and then waits in the send, inside the critical
    section: the mutex is held, the active file is gone, and the write
    has not returned. The maintainer, serving the name it received
    earlier, fails to compress it and waits for the same mutex to latch
    the error; it receives no further name, so the channel stays full
    and the write never returns. *)
Theorem rotate_blocks_on_full_channel :
  Write (bytes "hello") full_queue = Block onSend parked /\
  mu (rw parked) = true /\
  length (postCh (rw parked)) = postCh_cap /\
  files (world parked) !! "app.log" = None /\
  (exists s, compressFile "app-2023-11-12T00:00:00.000.log" parked = Block onLock s /\
             rw s = rw parked).
Proof.
  split; [vm_compute; reflexivity|].
  split; [reflexivity|].
  split; [reflexivity|].
  split; [vm_compute; reflexivity|].
  eexists. split; [vm_compute; reflexivity|]. reflexivity.
Qed.

(** *** Order of names and order of time *)

(** Byte-wise comparison of strings. *)
Lemma ascii_compare_refl (a : Ascii.ascii) : Ascii.compare a a = Eq.
Proof. unfold Ascii.compare. apply N.compare_refl. Qed.

Lemma compare_refl (s : string) : String.compare s s = Eq.
Proof. induction s as [|a s IH]; simpl; [reflexivity|]. rewrite ascii_compare_refl. exact IH. Qed.

Lemma compare_app_same (p a b : string) :
  String.compare (p +:+ a) (p +:+ b) = String.compare a b.
Proof.
  induction p as [|c p IH]; [reflexivity|].
  change (String.compare (String c (p +:+ a)) (String c (p +:+ b)) = String.compare a b).
  simpl. rewrite ascii_compare_refl. exact IH.
Qed.

Lemma compare_app_len (a a' b b' : string) :
  String.length a = String.length a' ->
  String.compare (a +:+ b) (a' +:+ b')
  = match String.compare a a' with Eq => String.compare b b' | c => c end.
Proof.
  revert a'. induction a as [|c a IH]; intros [|c' a'] Hlen; try discriminate Hlen.
  - reflexivity.
  - change (String.compare (String c (a +:+ b)) (String c' (a' +:+ b'))
            = match String.compare (String c a) (String c' a') with
              | Eq => String.compare b b' | r => r end).
    simpl. destruct (Ascii.compare c c'); [|reflexivity|reflexivity].
    apply IH. simpl in Hlen. lia.
Qed.

Lemma length_app (a b : string) :
  String.length (a +:+ b) = (String.length a + String.length b)%nat.
Proof.
  induction a as [|c a IH]; [reflexivity|].
  change (S (String.length (a +:+ b)) = S (String.length a + String.length b)).
  rewrite IH. reflexivity.
Qed.

Lemma fixed_length (w : nat) (x : Z) : String.length (fixed w x) = w.
Proof. revert x. induction w as [|w IH]; intros x; simpl; [reflexivity|]. rewrite IH. reflexivity. Qed.

Lemma digit_compare (a b : Z) :
  0 <= a < 10 -> 0 <= b < 10 -> Ascii.compare (time.digit a) (time.digit b) = (a ?= b).
Proof.
  intros Ha Hb.
  assert (a = 0 \/ a = 1 \/ a = 2 \/ a = 3 \/ a = 4 \/ a = 5 \/ a = 6 \/ a = 7 \/ a = 8 \/ a = 9)
    as Hcase by lia.
  assert (b = 0 \/ b = 1 \/ b = 2 \/ b = 3 \/ b = 4 \/ b = 5 \/ b = 6 \/ b = 7 \/ b = 8 \/ b = 9)
    as Hcase' by lia.
  repeat (destruct Hcase as [->|Hcase]); try subst a;
    repeat (destruct Hcase' as [->|Hcase']); try subst b; reflexivity.
Qed.

Lemma pow10_pos (k : nat) : 0 < 10 ^ Z.of_nat k.
Proof. apply Z.pow_pos_nonneg; lia. Qed.

Lemma pow10_S (k : nat) : 10 ^ Z.of_nat (S k) = 10 * 10 ^ Z.of_nat k.
Proof. rewrite Nat2Z.inj_succ, Z.pow_succ_r by lia. reflexivity. Qed.

(** In a field wide enough, the order of the digits is the order of the
    numbers. *)
Lemma fixed_compare (w : nat) (x y : Z) :
  0 <= x < 10 ^ Z.of_nat w -> 0 <= y < 10 ^ Z.of_nat w ->
  String.compare (fixed w x) (fixed w y) = (x ?= y).
Proof.
  revert x y. induction w as [|w IH]; intros x y Hx Hy.
  - simpl in *. assert (x = 0) as -> by lia. assert (y = 0) as -> by lia. reflexivity.
  - rewrite pow10_S in Hx, Hy. pose proof (pow10_pos w) as Hp.
    simpl. set (p := 10 ^ Z.of_nat w) in *.
    pose proof (Z.div_mod x p ltac:(lia)) as Hdx.
    pose proof (Z.div_mod y p ltac:(lia)) as Hdy.
    pose proof (Z.mod_pos_bound x p Hp) as Hmx.
    pose proof (Z.mod_pos_bound y p Hp) as Hmy.
    assert (0 <= x / p < 10) as Hqx by (split; [apply Z.div_pos; lia|apply Z.div_lt_upper_bound; lia]).
    assert (0 <= y / p < 10) as Hqy by (split; [apply Z.div_pos; lia|apply Z.div_lt_upper_bound; lia]).
    rewrite digit_compare by assumption.
    rewrite (IH (x mod p) (y mod p)) by assumption.
    destruct (Z.compare_spec (x / p) (y / p)) as [Heq|Hlt|Hgt].
    + destruct (Z.compare_spec (x mod p) (y mod p)) as [Heq'|Hlt'|Hgt'];
        symmetry; [apply Z.compare_eq_iff|apply Z.compare_lt_iff|apply Z.compare_gt_iff]; nia.
    + symmetry. apply Z.compare_lt_iff. nia.
    + symmetry. apply Z.compare_gt_iff. nia.
Qed.

(** [appendInt] writes a number that fits its width as a fixed field. *)
Lemma fixed_snoc (k : nat) (u : Z) :
  0 <= u < 10 ^ Z.of_nat (S k) ->
  fixed (S k) u = fixed k (u / 10) +:+ String (time.digit (u mod 10)) "".
Proof.
  revert u. induction k as [|k IH]; intros u Hu.
  - simpl in *. rewrite Z.div_1_r, Z.mod_small by lia. reflexivity.
  - rewrite pow10_S in Hu. pose proof (pow10_pos (S k)) as Hp. pose proof (pow10_pos k) as Hp'.
    change (fixed (S (S k)) u)
      with (String (time.digit (u / 10 ^ Z.of_nat (S k)))
              (fixed (S k) (u mod 10 ^ Z.of_nat (S k)))).
    rewrite IH by (apply Z.mod_pos_bound; lia).
    change (fixed (S k) (u / 10))
      with (String (time.digit (u / 10 / 10 ^ Z.of_nat k))
              (fixed k ((u / 10) mod 10 ^ Z.of_nat k))).
    rewrite pow10_S.
    rewrite (Z.rem_mul_r u 10 (10 ^ Z.of_nat k)) by lia.
    rewrite <- (Z.div_div u 10 (10 ^ Z.of_nat k)) by lia.
    pose proof (Z.mod_pos_bound u 10 ltac:(lia)) as Hm.
    replace ((u mod 10 + 10 * ((u / 10) mod 10 ^ Z.of_nat k)) / 10)
      with ((u / 10) mod 10 ^ Z.of_nat k).
    2:{ apply (Z.div_unique _ 10 _ (u mod 10)); lia. }
    replace ((u mod 10 + 10 * ((u / 10) mod 10 ^ Z.of_nat k)) mod 10) with (u mod 10).
    2:{ apply (Z.mod_unique _ 10 ((u / 10) mod 10 ^ Z.of_nat k)); lia. }
    reflexivity.
Qed.

Lemma app_assoc_string (a b c : string) : (a +:+ b) +:+ c = a +:+ (b +:+ c).
Proof.
  induction a as [|x a IH]; [reflexivity|].
  change (String x ((a +:+ b) +:+ c) = String x (a +:+ (b +:+ c))). rewrite IH. reflexivity.
Qed.

Lemma utoa_fixed (k fuel : nat) (u : Z) (acc : string) :
  (k <= fuel)%nat ->
  0 <= u < 10 ^ Z.of_nat (S k) -> (k = 0%nat \/ 10 ^ Z.of_nat k <= u) ->
  time.utoa (S fuel) u acc = fixed (S k) u +:+ acc.
Proof.
  revert fuel u acc. induction k as [|k IH]; intros fuel u acc Hfuel Hu Hlow.
  - simpl in Hu. simpl. assert ((u <? 10) = true) as -> by lia.
    rewrite Z.div_1_r, Z.mod_small by lia. reflexivity.
  - destruct Hlow as [Hk|Hlow]; [discriminate Hk|].
    rewrite pow10_S in Hlow. pose proof (pow10_pos k) as Hp.
    destruct fuel as [|fuel]; [lia|].
    change (time.utoa (S (S fuel)) u acc)
      with (let acc' := String (time.digit (u mod 10)) acc in
            if u <? 10 then acc' else time.utoa (S fuel) (u / 10) acc').
    cbv zeta. assert ((u <? 10) = false) as -> by lia.
    rewrite (pow10_S (S k)) in Hu.
    rewrite (IH fuel (u / 10)).
    + rewrite (fixed_snoc (S k) u) by (rewrite pow10_S; lia).
      rewrite app_assoc_string. reflexivity.
    + lia.
    + split; [apply Z.div_pos; lia|apply Z.div_lt_upper_bound; lia].
    + right. apply Z.div_le_lower_bound; lia.
Qed.

Lemma fixed_lead (j k : nat) (x : Z) :
  0 <= x < 10 ^ Z.of_nat k -> fixed (j + k) x = time.zeros j +:+ fixed k x.
Proof.
  intros Hx. induction j as [|j IH]; [reflexivity|].
  assert (10 ^ Z.of_nat k <= 10 ^ Z.of_nat (j + k)) as Hle
    by (apply Z.pow_le_mono_r; lia).
  change (String (time.digit (x / 10 ^ Z.of_nat (j + k)))
            (fixed (j + k) (x mod 10 ^ Z.of_nat (j + k)))
          = String "0"%char (time.zeros j +:+ fixed k x)).
  rewrite Z.div_small, Z.mod_small by lia. rewrite IH. reflexivity.
Qed.

(** The number of digits of a number below a power of ten. *)
Lemma digits_of (w : nat) (x : Z) :
  0 <= x < 10 ^ Z.of_nat (S w) ->
  exists k : nat, (k <= w)%nat /\ x < 10 ^ Z.of_nat (S k) /\ (k = 0%nat \/ 10 ^ Z.of_nat k <= x).
Proof.
  induction w as [|w IH]; intros Hx.
  - exists 0%nat. split; [lia|]. split; [lia|left; reflexivity].
  - destruct (Z_lt_le_dec x (10 ^ Z.of_nat (S w))) as [Hlt|Hge].
    + destruct (IH ltac:(lia)) as (k & Hk & Hb & Hl). exists k. split; [lia|]. split; assumption.
    + exists (S w). split; [lia|]. split; [lia|right; exact Hge].
Qed.

Lemma appendInt_fixed (w : nat) (x : Z) :
  0 <= x < 10 ^ Z.of_nat (S w) -> time.appendInt x (S w) = fixed (S w) x.
Proof.
  intros Hx. destruct (digits_of w x Hx) as (k & Hk & Hb & Hl).
  unfold time.appendInt. rewrite Z.abs_eq by lia.
  assert ((x <? 0) = false) as -> by lia.
  assert (Hfuel : (k <= Z.to_nat (Z.log2 x))%nat).
  { destruct Hl as [->|Hl]; [lia|].
    assert (2 ^ Z.of_nat k <= 10 ^ Z.of_nat k) by (apply Z.pow_le_mono_l; lia).
    assert (Z.of_nat k <= Z.log2 x).
    { rewrite <- (Z.log2_pow2 (Z.of_nat k)) by lia. apply Z.log2_le_mono. lia. }
    lia. }
  rewrite (utoa_fixed k _ x "" Hfuel) by (first [split; [lia|assumption] | assumption]).
  replace (fixed (S k) x +:+ "") with (fixed (S k) x).
  2:{ generalize (fixed (S k) x). intros s. induction s as [|c s IHs]; [reflexivity|].
      change (String c s = String c (s +:+ "")). rewrite <- IHs. reflexivity. }
  rewrite fixed_length.
  replace (S w) with ((S w - S k) + S k)%nat at 2 by lia.
  rewrite (fixed_lead (S w - S k) (S k) x) by lia. reflexivity.
Qed.

Lemma checkFrom_holds (f : Z -> bool) (n : nat) (r i : Z) :
  checkFrom f r n = true -> r <= i < r + Z.of_nat n -> f i = true.
Proof.
  revert r. induction n as [|n IH]; intros r H Hi; [lia|].
  simpl in H. destruct (f r) eqn:Hr; [|discriminate].
  destruct (Z.eq_dec i r) as [->|Hne]; [exact Hr|].
  apply (IH (r + 1)); [exact H|lia].
Qed.

Lemma era_checked : checkFrom eraStep 0 (Z.to_nat time.daysPer400Years) = true.
Proof. vm_compute. reflexivity. Qed.

Lemma eraStep_holds (r : Z) : 0 <= r < time.daysPer400Years -> eraStep r = true.
Proof.
  intros Hr.
  apply (checkFrom_holds eraStep (Z.to_nat time.daysPer400Years) 0 r era_checked).
  rewrite Z2Nat.id by (vm_compute; discriminate). lia.
Qed.

Lemma yearDay_era (d : Z) :
  time.yearDay d
  = (400 * (d / time.daysPer400Years) + fst (time.yearDay (d mod time.daysPer400Years)),
     snd (time.yearDay (d mod time.daysPer400Years))).
Proof.
  unfold time.yearDay. cbv zeta.
  assert (0 < time.daysPer400Years) as Hp by (vm_compute; reflexivity).
  rewrite Z.mod_mod by lia.
  rewrite (Z.div_small (d mod time.daysPer400Years) time.daysPer400Years)
    by (apply Z.mod_pos_bound; exact Hp).
  simpl. f_equal. lia.
Qed.

Lemma isLeap_era (q y : Z) : time.isLeap (400 * q + y) = time.isLeap y.
Proof.
  unfold time.isLeap.
  replace (400 * q + y) with (y + (100 * q) * 4) at 1 by lia.
  replace (400 * q + y) with (y + (4 * q) * 100) at 1 by lia.
  replace (400 * q + y) with (y + q * 400) by lia.
  rewrite !Z.mod_add by lia. reflexivity.
Qed.

Lemma dateKey_era (d : Z) :
  dateKey d = 4000000 * (d / time.daysPer400Years) + dateKey (d mod time.daysPer400Years).
Proof.
  unfold dateKey. rewrite (yearDay_era d).
  destruct (time.yearDay (d mod time.daysPer400Years)) as [y yd]. simpl fst. simpl snd.
  rewrite isLeap_era. destruct (time.monthDay (time.isLeap y) yd) as [m dd]. lia.
Qed.

Lemma dateKey_step (r : Z) :
  0 <= r -> r + 1 < time.daysPer400Years -> dateKey r < dateKey (r + 1).
Proof.
  intros H0 H1. pose proof (eraStep_holds r ltac:(lia)) as H. unfold eraStep in H.
  destruct (time.yearDay r) as [y yd]. destruct (time.monthDay _ yd) as [m dd].
  apply andb_prop in H as [_ H]. apply orb_prop in H as [H|H]; lia.
Qed.

Lemma dateKey_range (r : Z) :
  0 <= r < time.daysPer400Years -> 10101 <= dateKey r <= 4001231.
Proof.
  intros Hr. pose proof (eraStep_holds r Hr) as H. unfold eraStep, dateKey in *.
  destruct (time.yearDay r) as [y yd]. destruct (time.monthDay _ yd) as [m dd].
  repeat (apply andb_prop in H as [H ?]). lia.
Qed.

Lemma dateKey_mono_era (n : nat) (r : Z) :
  0 <= r -> r + Z.of_nat (S n) < time.daysPer400Years ->
  dateKey r < dateKey (r + Z.of_nat (S n)).
Proof.
  induction n as [|n IH]; intros H0 H1.
  - apply dateKey_step; lia.
  - apply Z.lt_trans with (dateKey (r + Z.of_nat (S n))).
    + apply IH; lia.
    + replace (r + Z.of_nat (S (S n))) with (r + Z.of_nat (S n) + 1) by lia.
      apply dateKey_step; lia.
Qed.

(** Later days have later dates. *)
Lemma dateKey_mono (d1 d2 : Z) : d1 < d2 -> dateKey d1 < dateKey d2.
Proof.
  intros Hlt. rewrite (dateKey_era d1), (dateKey_era d2).
  assert (0 < time.daysPer400Years) as Hp by (vm_compute; reflexivity).
  pose proof (Z.mod_pos_bound d1 _ Hp) as Hr1. pose proof (Z.mod_pos_bound d2 _ Hp) as Hr2.
  pose proof (dateKey_range _ Hr1) as Hk1. pose proof (dateKey_range _ Hr2) as Hk2.
  pose proof (Z.div_mod d1 time.daysPer400Years ltac:(lia)) as He1.
  pose proof (Z.div_mod d2 time.daysPer400Years ltac:(lia)) as He2.
  destruct (Z_lt_le_dec (d1 / time.daysPer400Years) (d2 / time.daysPer400Years)) as [Hq|Hq].
  - lia.
  - assert (d1 / time.daysPer400Years = d2 / time.daysPer400Years) as Heq.
    { apply Z.le_antisymm; [apply Z.div_le_mono; lia|exact Hq]. }
    rewrite Heq in *.
    assert (d1 mod time.daysPer400Years < d2 mod time.daysPer400Years) as Hr by lia.
    pose proof (dateKey_mono_era
                  (Z.to_nat (d2 mod time.daysPer400Years - d1 mod time.daysPer400Years - 1))
                  (d1 mod time.daysPer400Years) ltac:(lia)) as Hm.
    replace (d1 mod time.daysPer400Years
             + Z.of_nat (S (Z.to_nat (d2 mod time.daysPer400Years
                                      - d1 mod time.daysPer400Years - 1))))
      with (d2 mod time.daysPer400Years) in Hm by lia.
    specialize (Hm ltac:(lia)). lia.
Qed.

(** Later seconds have later dates and times. *)
Lemma clockKey_mono (s1 s2 : Z) : s1 < s2 -> clockKey s1 < clockKey s2.
Proof.
  intros Hlt. unfold clockKey, time.secondsPerDay.
  destruct (Z_lt_le_dec (s1 / 86400) (s2 / 86400)) as [Hd|Hd].
  - pose proof (dateKey_mono (s1 / 86400 + time.unixToInternalDays)
                  (s2 / 86400 + time.unixToInternalDays) ltac:(lia)) as Hk.
    Z.div_mod_to_equations. lia.
  - assert (s1 / 86400 = s2 / 86400) as Heq.
    { apply Z.le_antisymm; [apply Z.div_le_mono; lia|exact Hd]. }
    rewrite Heq. Z.div_mod_to_equations. lia.
Qed.

Lemma clockKey_mono_le (s1 s2 : Z) : s1 <= s2 -> clockKey s1 <= clockKey s2.
Proof.
  intros Hle. destruct (Z.eq_dec s1 s2) as [->|Hne]; [lia|].
  pose proof (clockKey_mono s1 s2 ltac:(lia)). lia.
Qed.

Lemma date_fields (d y yd m dd : Z) :
  time.yearDay d = (y, yd) -> time.monthDay (time.isLeap y) yd = (m, dd) ->
  1 <= m <= 12 /\ 1 <= dd <= 31 /\ dateKey d = y * 10000 + m * 100 + dd.
Proof.
  intros Hy Hm.
  assert (dateKey d = y * 10000 + m * 100 + dd) as Hkey
    by (unfold dateKey; rewrite Hy, Hm; reflexivity).
  split; [|split]; [| |exact Hkey].
  all: rewrite yearDay_era in Hy.
  all: assert (0 < time.daysPer400Years) as Hp by (vm_compute; reflexivity).
  all: pose proof (eraStep_holds _ (Z.mod_pos_bound d _ Hp)) as H; unfold eraStep in H.
  all: destruct (time.yearDay (d mod time.daysPer400Years)) as [y' yd'].
  all: simpl in Hy; injection Hy as <- <-; rewrite isLeap_era in Hm; rewrite Hm in H.
  all: repeat (apply andb_prop in H as [H ?]); lia.
Qed.

(** The fields of an instant: their ranges, and their places in the
    number of its second. *)
Lemma civil_fields (z : time.Zone) (t : time.Time) :
  1 <= time.month (time.civil z t) <= 12 /\
  1 <= time.day (time.civil z t) <= 31 /\
  0 <= time.hour (time.civil z t) <= 23 /\
  0 <= time.minute (time.civil z t) <= 59 /\
  0 <= time.second (time.civil z t) <= 59 /\
  0 <= time.nanosecond (time.civil z t) < 1000000000 /\
  time.offset (time.civil z t) = time.zoneOffset z t /\
  time.nanosecond (time.civil z t) = time.unixNano t mod time.Second /\
  time.year (time.civil z t) * 10000000000 + time.month (time.civil z t) * 100000000
  + time.day (time.civil z t) * 1000000 + time.hour (time.civil z t) * 10000
  + time.minute (time.civil z t) * 100 + time.second (time.civil z t)
  = clockKey (time.unixNano t / time.Second + time.zoneOffset z t).
Proof.
  unfold time.civil, clockKey.
  set (sec := time.unixNano t / time.Second + time.zoneOffset z t).
  destruct (time.yearDay (sec / time.secondsPerDay + time.unixToInternalDays))
    as [y yd] eqn:Hy.
  destruct (time.monthDay (time.isLeap y) yd) as [m dd] eqn:Hm.
  destruct (date_fields _ _ _ _ _ Hy Hm) as (Hmr & Hdr & Hkey).
  simpl. rewrite Hkey. unfold time.secondsPerDay, time.Second.
  repeat split; try lia; Z.div_mod_to_equations; lia.
Qed.

Lemma civil_year (z : time.Zone) (t : time.Time) :
  year0 <= time.unixNano t / time.Second + time.zoneOffset z t < year10000 ->
  0 <= time.year (time.civil z t) <= 9999.
Proof.
  intros Hsec. destruct (civil_fields z t) as (Hm & Hd & Hh & Hmi & Hs & _ & _ & _ & Hkey).
  set (sec := time.unixNano t / time.Second + time.zoneOffset z t) in *.
  pose proof (clockKey_mono_le year0 sec ltac:(lia)) as Hlo.
  pose proof (clockKey_mono_le sec (year10000 - 1) ltac:(lia)) as Hhi.
  assert (clockKey year0 = 101000000) as Hk0 by (vm_compute; reflexivity).
  assert (clockKey (year10000 - 1) = 99991231235959) as Hk1 by (vm_compute; reflexivity).
  lia.
Qed.

Lemma compare_field (w : nat) (x y : Z) (r r' : string) :
  0 <= x < 10 ^ Z.of_nat w -> 0 <= y < 10 ^ Z.of_nat w ->
  String.compare (fixed w x +:+ r) (fixed w y +:+ r')
  = match x ?= y with Eq => String.compare r r' | c => c end.
Proof.
  intros Hx Hy. rewrite compare_app_len by (rewrite !fixed_length; reflexivity).
  rewrite fixed_compare by assumption. reflexivity.
Qed.

(** Stamps compare as their numbers do, and then as their tails. *)
Lemma stamp_compare (c1 c2 : time.Civil) (tail1 tail2 : string) :
  fieldsFit c1 -> fieldsFit c2 ->
  String.compare (stamp c1 tail1) (stamp c2 tail2)
  = match fieldsKey c1 ?= fieldsKey c2 with
    | Eq => String.compare tail1 tail2
    | c => c
    end.
Proof.
  intros (Hy1 & Hm1 & Hd1 & Hh1 & Hi1 & Hs1) (Hy2 & Hm2 & Hd2 & Hh2 & Hi2 & Hs2).
  unfold stamp, fieldsKey.
  repeat (rewrite compare_field by (simpl; lia); rewrite ?compare_app_same).
  destruct (Z.compare_spec (time.year c1) (time.year c2));
  destruct (Z.compare_spec (time.month c1) (time.month c2));
  destruct (Z.compare_spec (time.day c1) (time.day c2));
  destruct (Z.compare_spec (time.hour c1) (time.hour c2));
  destruct (Z.compare_spec (time.minute c1) (time.minute c2));
  destruct (Z.compare_spec (time.second c1) (time.second c2));
  match goal with
  | |- _ = match ?k1 ?= ?k2 with _ => _ end =>
      destruct (Z.compare_spec k1 k2); try reflexivity; exfalso; lia
  end.
Qed.

Lemma app_empty_r (s : string) : s +:+ "" = s.
Proof.
  induction s as [|c s IH]; [reflexivity|].
  change (String c (s +:+ "") = String c s). rewrite IH. reflexivity.
Qed.

(** The first three of the nine digits of the nanoseconds are the
    milliseconds. *)
Lemma take3_fixed9 (ns : Z) :
  0 <= ns < 1000000000 -> str_take 3 (fixed 9 ns) = fixed 3 (ns / 1000000).
Proof.
  intros Hns. unfold str_take.
  change (fixed 9 ns)
    with (String (time.digit (ns / 100000000))
            (String (time.digit (ns mod 100000000 / 10000000))
               (String (time.digit (ns mod 100000000 mod 10000000 / 1000000))
                  (fixed 6 (ns mod 100000000 mod 10000000 mod 1000000))))).
  change (fixed 3 (ns / 1000000))
    with (String (time.digit (ns / 1000000 / 100))
            (String (time.digit ((ns / 1000000) mod 100 / 10))
               (String (time.digit ((ns / 1000000) mod 100 mod 10 / 1)) ""))).
  simpl String.substring.
  f_equal; [f_equal; Z.div_mod_to_equations; lia|].
  f_equal; [f_equal; Z.div_mod_to_equations; lia|].
  f_equal. f_equal. Z.div_mod_to_equations. lia.
Qed.

(** What [Format] writes for the two layouts of fixed width. *)
Lemma Format_millis (z : time.Zone) (t : time.Time) :
  0 <= time.year (time.civil z t) <= 9999 ->
  time.Format z t millisLayout
  = stamp (time.civil z t) ("." +:+ fixed 3 (time.nanosecond (time.civil z t) / 1000000)).
Proof.
  intros Hy. destruct (civil_fields z t) as (Hm & Hd & Hh & Hmi & Hs & Hns & _ & _ & _).
  unfold time.Format.
  assert (Hscan : time.scan (String.length millisLayout) millisLayout
                  = [time.stdLongYear; time.text "-"; time.stdZeroMonth; time.text "-";
                     time.stdZeroDay; time.text "T"; time.stdHour; time.text ":";
                     time.stdZeroMinute; time.text ":"; time.stdZeroSecond;
                     time.stdFracSecond0 "." 3])
    by (vm_compute; reflexivity).
  rewrite Hscan. unfold time.appendChunks, time.appendChunk, time.appendNano.
  cbn [andb orb negb]. cbv zeta.
  rewrite (appendInt_fixed 3 (time.year _)) by (simpl; lia).
  rewrite (appendInt_fixed 1 (time.month _)) by (simpl; lia).
  rewrite (appendInt_fixed 1 (time.day _)) by (simpl; lia).
  rewrite (appendInt_fixed 1 (time.hour _)) by (simpl; lia).
  rewrite (appendInt_fixed 1 (time.minute _)) by (simpl; lia).
  rewrite (appendInt_fixed 1 (time.second _)) by (simpl; lia).
  rewrite (appendInt_fixed 8 (time.nanosecond _)) by (simpl; lia).
  rewrite take3_fixed9 by lia.
  unfold stamp.
  change (String "."%char (fixed 3 (time.nanosecond (time.civil z t) / 1000000)) +:+ "")
    with ("." +:+ (fixed 3 (time.nanosecond (time.civil z t) / 1000000) +:+ "")).
  rewrite app_empty_r. reflexivity.
Qed.

Lemma Format_RFC3339 (z : time.Zone) (t : time.Time) :
  0 <= time.year (time.civil z t) <= 9999 ->
  time.Format z t time.RFC3339
  = stamp (time.civil z t) (time.appendZone (time.offset (time.civil z t))).
Proof.
  intros Hy. destruct (civil_fields z t) as (Hm & Hd & Hh & Hmi & Hs & Hns & _ & _ & _).
  unfold time.Format.
  assert (Hscan : time.scan (String.length time.RFC3339) time.RFC3339
                  = [time.stdLongYear; time.text "-"; time.stdZeroMonth; time.text "-";
                     time.stdZeroDay; time.text "T"; time.stdHour; time.text ":";
                     time.stdZeroMinute; time.text ":"; time.stdZeroSecond;
                     time.stdISO8601ColonTZ])
    by (vm_compute; reflexivity).
  rewrite Hscan. unfold time.appendChunks, time.appendChunk.
  rewrite (appendInt_fixed 3 (time.year _)) by (simpl; lia).
  rewrite (appendInt_fixed 1 (time.month _)) by (simpl; lia).
  rewrite (appendInt_fixed 1 (time.day _)) by (simpl; lia).
  rewrite (appendInt_fixed 1 (time.hour _)) by (simpl; lia).
  rewrite (appendInt_fixed 1 (time.minute _)) by (simpl; lia).
  rewrite (appendInt_fixed 1 (time.second _)) by (simpl; lia).
  unfold stamp. rewrite app_empty_r. reflexivity.
Qed.

Lemma backupFileName_name (s : State) :
  backupFileName s = Ret (backupNameOf (world s) (rw s)) s.
Proof. reflexivity. Qed.

Lemma nowDate_shown (w : World) (format : string) (local : bool) (t : Z) :
  nowDate (set_now t w) format local = time.Format (zone w) (shown w local t) format.
Proof. unfold nowDate, shown. destruct local; reflexivity. Qed.

Lemma stamp_app (c : time.Civil) (tail rest : string) :
  stamp c tail +:+ rest = stamp c (tail +:+ rest).
Proof. unfold stamp. rewrite !app_assoc_string. reflexivity. Qed.

Lemma leb_of_compare (a b : string) : String.compare a b <> Gt -> String.leb a b = true.
Proof. unfold String.leb. destruct (String.compare a b); congruence. Qed.

Lemma ltb_of_compare (a b : string) : String.compare a b = Lt -> str_lt a b = true.
Proof. unfold str_lt, String.ltb. intros ->. reflexivity. Qed.

(** C3, as amended: with a default layout of fixed width (the one of
    [part_002], which the comment on [backupFileName] names, or
    [time.RFC3339] of [part_001]), under the UTC policy, or under the
    local policy in a zone whose offset is the same at every instant,
    and for instants of the years 0000 to 9999: the name of the earlier
    instant does not sort after the name of the later one, and sorts
    strictly before it as soon as the two instants differ in what the
    layout shows, the millisecond or the second. *)
Theorem backup_names_follow_time (w : World) (r : RotateWriter) (off t1 t2 : Z) :
  timeFormat (opt r) = @defaultTimeFormat constants_part_002 \/
  timeFormat (opt r) = @defaultTimeFormat constants_part_001 ->
  (if localTime (opt r) then forall sec, zone w sec = off else off = 0) ->
  year0 <= t1 / time.Second + off ->
  t2 / time.Second + off < year10000 ->
  t1 <= t2 ->
  String.leb (nameAt w r t1) (nameAt w r t2) = true /\
  (timeFormat (opt r) = @defaultTimeFormat constants_part_002 ->
   t1 / 1000000 < t2 / 1000000 ->
   str_lt (nameAt w r t1) (nameAt w r t2) = true) /\
  (timeFormat (opt r) = @defaultTimeFormat constants_part_001 ->
   t1 / time.Second < t2 / time.Second ->
   str_lt (nameAt w r t1) (nameAt w r t2) = true).
Proof.
  change (@defaultTimeFormat constants_part_002) with millisLayout.
  change (@defaultTimeFormat constants_part_001) with time.RFC3339.
  intros Hfmt Hzone Hlo Hhi Hle.
  set (T1 := shown w (localTime (opt r)) t1). set (T2 := shown w (localTime (opt r)) t2).
  assert (Hn1 : time.unixNano T1 = t1) by (unfold T1, shown; destruct (localTime _); reflexivity).
  assert (Hn2 : time.unixNano T2 = t2) by (unfold T2, shown; destruct (localTime _); reflexivity).
  assert (Ho1 : time.zoneOffset (zone w) T1 = off).
  { unfold T1, shown, time.zoneOffset. destruct (localTime (opt r)); simpl;
      [apply Hzone|symmetry; exact Hzone]. }
  assert (Ho2 : time.zoneOffset (zone w) T2 = off).
  { unfold T2, shown, time.zoneOffset. destruct (localTime (opt r)); simpl;
      [apply Hzone|symmetry; exact Hzone]. }
  assert (Hdiv : t1 / time.Second <= t2 / time.Second)
    by (apply Z.div_le_mono; [reflexivity|exact Hle]).
  destruct (civil_fields (zone w) T1) as (Hm1 & Hd1 & Hh1 & Hi1 & Hs1 & Hns1 & Hoff1 & Hnano1 & Hk1).
  destruct (civil_fields (zone w) T2) as (Hm2 & Hd2 & Hh2 & Hi2 & Hs2 & Hns2 & Hoff2 & Hnano2 & Hk2).
  rewrite Hn1, Ho1 in Hk1. rewrite Hn2, Ho2 in Hk2.
  rewrite Hn1 in Hnano1. rewrite Hn2 in Hnano2.
  rewrite Ho1 in Hoff1. rewrite Ho2 in Hoff2.
  assert (Hy1 : 0 <= time.year (time.civil (zone w) T1) <= 9999)
    by (apply civil_year; rewrite Hn1, Ho1; lia).
  assert (Hy2 : 0 <= time.year (time.civil (zone w) T2) <= 9999)
    by (apply civil_year; rewrite Hn2, Ho2; lia).
  assert (Hfit1 : fieldsFit (time.civil (zone w) T1)) by (unfold fieldsFit; lia).
  assert (Hfit2 : fieldsFit (time.civil (zone w) T2)) by (unfold fieldsFit; lia).
  pose proof (clockKey_mono_le (t1 / time.Second + off) (t2 / time.Second + off)
                ltac:(lia)) as Hkle.
  assert (Hkeys : fieldsKey (time.civil (zone w) T1) <= fieldsKey (time.civil (zone w) T2))
    by (unfold fieldsKey; lia).
  assert (Hstrict : t1 / time.Second < t2 / time.Second ->
                    fieldsKey (time.civil (zone w) T1) < fieldsKey (time.civil (zone w) T2)).
  { intros Hlt.
    pose proof (clockKey_mono (t1 / time.Second + off) (t2 / time.Second + off) ltac:(lia)).
    unfold fieldsKey. lia. }
  unfold nameAt, backupNameOf. rewrite !nowDate_shown. fold T1 T2.
  assert (Hcmp : forall F1 F2 : string,
             String.compare (prefix r +:+ delimiter (opt r) +:+ F1 +:+ ext r)
               (prefix r +:+ delimiter (opt r) +:+ F2 +:+ ext r)
             = String.compare (F1 +:+ ext r) (F2 +:+ ext r))
    by (intros F1 F2; rewrite !compare_app_same; reflexivity).
  destruct Hfmt as [Hfmt|Hfmt]; rewrite Hfmt.
  - rewrite !Format_millis by assumption.
    assert (Hval : String.compare
                     (prefix r +:+ delimiter (opt r) +:+
                      stamp (time.civil (zone w) T1)
                        ("." +:+ fixed 3 (time.nanosecond (time.civil (zone w) T1) / 1000000))
                      +:+ ext r)
                     (prefix r +:+ delimiter (opt r) +:+
                      stamp (time.civil (zone w) T2)
                        ("." +:+ fixed 3 (time.nanosecond (time.civil (zone w) T2) / 1000000))
                      +:+ ext r)
                   = match fieldsKey (time.civil (zone w) T1)
                           ?= fieldsKey (time.civil (zone w) T2) with
                     | Eq => match time.nanosecond (time.civil (zone w) T1) / 1000000
                                   ?= time.nanosecond (time.civil (zone w) T2) / 1000000 with
                             | Eq => Eq
                             | c => c
                             end
                     | c => c
                     end).
    { rewrite Hcmp, !stamp_app, stamp_compare by assumption.
      rewrite !app_assoc_string, compare_app_same.
      rewrite compare_field by (simpl; Z.div_mod_to_equations; lia).
      rewrite compare_refl. reflexivity. }
    assert (Hsame : t1 / time.Second = t2 / time.Second ->
                    time.nanosecond (time.civil (zone w) T1) / 1000000
                    <= time.nanosecond (time.civil (zone w) T2) / 1000000).
    { intros Heq. rewrite Hnano1, Hnano2. unfold time.Second in *.
      Z.div_mod_to_equations. lia. }
    assert (Hsame' : t1 / time.Second = t2 / time.Second -> t1 / 1000000 < t2 / 1000000 ->
                     time.nanosecond (time.civil (zone w) T1) / 1000000
                     < time.nanosecond (time.civil (zone w) T2) / 1000000).
    { intros Heq Hlt. rewrite Hnano1, Hnano2. unfold time.Second in *.
      Z.div_mod_to_equations. lia. }
    split; [|split].
    + apply leb_of_compare. rewrite Hval.
      destruct (Z.compare_spec (fieldsKey (time.civil (zone w) T1))
                  (fieldsKey (time.civil (zone w) T2))) as [Hk|Hk|Hk];
        [|discriminate|lia].
      assert (t1 / time.Second = t2 / time.Second) as Heq
        by (destruct (Z.eq_dec (t1 / time.Second) (t2 / time.Second)) as [?|Hne];
            [assumption|specialize (Hstrict ltac:(lia)); lia]).
      specialize (Hsame Heq).
      destruct (Z.compare_spec (time.nanosecond (time.civil (zone w) T1) / 1000000)
                  (time.nanosecond (time.civil (zone w) T2) / 1000000));
        [discriminate|discriminate|lia].
    + intros _ Hlt. apply ltb_of_compare. rewrite Hval.
      destruct (Z.compare_spec (fieldsKey (time.civil (zone w) T1))
                  (fieldsKey (time.civil (zone w) T2))) as [Hk|Hk|Hk];
        [|reflexivity|lia].
      assert (t1 / time.Second = t2 / time.Second) as Heq
        by (destruct (Z.eq_dec (t1 / time.Second) (t2 / time.Second)) as [?|Hne];
            [assumption|specialize (Hstrict ltac:(lia)); lia]).
      specialize (Hsame' Heq Hlt).
      destruct (Z.compare_spec (time.nanosecond (time.civil (zone w) T1) / 1000000)
                  (time.nanosecond (time.civil (zone w) T2) / 1000000));
        [lia|reflexivity|lia].
    + intros Habs. discriminate Habs.
  - rewrite !Format_RFC3339 by assumption. rewrite Hoff1, Hoff2.
    assert (Hval : String.compare
                     (prefix r +:+ delimiter (opt r) +:+
                      stamp (time.civil (zone w) T1) (time.appendZone off) +:+ ext r)
                     (prefix r +:+ delimiter (opt r) +:+
                      stamp (time.civil (zone w) T2) (time.appendZone off) +:+ ext r)
                   = match fieldsKey (time.civil (zone w) T1)
                           ?= fieldsKey (time.civil (zone w) T2) with
                     | Eq => Eq
                     | c => c
                     end).
    { rewrite Hcmp, !stamp_app, stamp_compare by assumption.
      rewrite compare_refl. reflexivity. }
    split; [|split].
    + apply leb_of_compare. rewrite Hval.
      destruct (Z.compare_spec (fieldsKey (time.civil (zone w) T1))
                  (fieldsKey (time.civil (zone w) T2))); [discriminate|discriminate|lia].
    + intros Habs. discriminate Habs.
    + intros _ Hlt. apply ltb_of_compare. rewrite Hval. specialize (Hstrict Hlt).
      destruct (Z.compare_spec (fieldsKey (time.civil (zone w) T1))
                  (fieldsKey (time.civil (zone w) T2))); [lia|reflexivity|lia].
Qed.

(** The theorem at the clock of the examples and one millisecond later,
    under the local policy in a zone of offset zero. *)
Lemma backup_names_follow_time_witness :
  nameAt (demo_world [] no_faults) (demo_writer 10 0 None) demo_now
  = "app-2023-11-14T22:13:20.123.log" /\
  nameAt (demo_world [] no_faults) (demo_writer 10 0 None) (demo_now + 1000000)
  = "app-2023-11-14T22:13:20.124.log" /\
  String.leb (nameAt (demo_world [] no_faults) (demo_writer 10 0 None) demo_now)
    (nameAt (demo_world [] no_faults) (demo_writer 10 0 None) (demo_now + 1000000)) = true /\
  str_lt (nameAt (demo_world [] no_faults) (demo_writer 10 0 None) demo_now)
    (nameAt (demo_world [] no_faults) (demo_writer 10 0 None) (demo_now + 1000000)) = true.
Proof.
  split; [vm_compute; reflexivity|]. split; [vm_compute; reflexivity|].
  destruct (backup_names_follow_time (demo_world [] no_faults) (demo_writer 10 0 None) 0
              demo_now (demo_now + 1000000)) as (Hle & Hlt & _).
  - left. reflexivity.
  - intros sec. reflexivity.
  - vm_compute. discriminate.
  - vm_compute. reflexivity.
  - vm_compute. discriminate.
  - split; [exact Hle|]. apply Hlt; [reflexivity|vm_compute; reflexivity].
Defined.

(** The claim as stated fails in three ways. With the default layout of
    [constants.go], whose fraction is cut of its trailing zeros, the name
    of the later of two instants half a second apart sorts before the
    name of the earlier one, under the UTC policy. With the layout of
    [part_002], two instants of the same millisecond, one strictly
    earlier, get the same name. Under the local policy, in a zone that
    sets its clocks back, the name of the later instant sorts before the
    name of the earlier one. *)
Lemma backup_names_follow_time_counterexample :
  (1700000000000000000 < 1700000000500000000 /\
   nameAt (demo_world [] no_faults)
     (layout_writer (@defaultTimeFormat constants_go) false) 1700000000000000000
   = "app-2023-11-14T22:13:20Z.log" /\
   nameAt (demo_world [] no_faults)
     (layout_writer (@defaultTimeFormat constants_go) false) 1700000000500000000
   = "app-2023-11-14T22:13:20.5Z.log" /\
   str_lt
     (nameAt (demo_world [] no_faults)
        (layout_writer (@defaultTimeFormat constants_go) false) 1700000000500000000)
     (nameAt (demo_world [] no_faults)
        (layout_writer (@defaultTimeFormat constants_go) false) 1700000000000000000)
   = true) /\
  (demo_now < demo_now + 1 /\
   nameAt (demo_world [] no_faults)
     (layout_writer (@defaultTimeFormat constants_part_002) false) demo_now
   = nameAt (demo_world [] no_faults)
       (layout_writer (@defaultTimeFormat constants_part_002) false) (demo_now + 1) /\
   str_lt
     (nameAt (demo_world [] no_faults)
        (layout_writer (@defaultTimeFormat constants_part_002) false) demo_now)
     (nameAt (demo_world [] no_faults)
        (layout_writer (@defaultTimeFormat constants_part_002) false) (demo_now + 1))
   = false) /\
  (1699163999000000000 < 1699164000000000000 /\
   nameAt fall_back_world
     (layout_writer (@defaultTimeFormat constants_part_002) true) 1699163999000000000
   = "app-2023-11-05T01:59:59.000.log" /\
   nameAt fall_back_world
     (layout_writer (@defaultTimeFormat constants_part_002) true) 1699164000000000000
   = "app-2023-11-05T01:00:00.000.log" /\
   str_lt
     (nameAt fall_back_world
        (layout_writer (@defaultTimeFormat constants_part_002) true) 1699164000000000000)
     (nameAt fall_back_world
        (layout_writer (@defaultTimeFormat constants_part_002) true) 1699163999000000000)
   = true).
Proof. vm_compute. repeat split. Qed.

(** ** Further properties of the package *)

(** An open writer on [app.log] that keeps its backups for thirty days,
    with a backup of two weeks ago and one of six weeks ago. *)
Definition two_ages : State :=
  open_state 100 0
    ["app.log"; "app-2023-11-01T00:00:00.000.log"; "app-2023-10-01T00:00:00.000.log"]
    no_faults.

(** An open writer on [app.log], which holds a first record, at the
    instant whose stamp its backup name carries. *)
Definition first_record : State :=
  {| world := with_handle 0 "app.log"
                (set_files {["app.log" := bytes "first"]} (demo_world [] no_faults));
     rw := demo_writer 12 0 (Some 0%nat) |}.

(** A world with a backup that holds records, and a writer beside it. *)
Definition with_backup : State :=
  {| world := set_files {["app.log" := []; "app-2023-11-01T00:00:00.000.log" := bytes "records"]}
                (demo_world [] no_faults);
     rw := demo_writer 12 0 None |}.

(** An environment in which every close fails. *)
Definition close_fails : nat -> Effect -> option Errno :=
  fun _ c => match c with sysClose _ => Some EIO | _ => None end.

(** *** The world under its updates

    From here on the updates of the world are kept folded; what an update
    leaves of each field is a rewriting rule. *)

Arguments record : simpl never.
Arguments set_files : simpl never.
Arguments set_dirs : simpl never.
Arguments set_fds : simpl never.
Arguments set_trace : simpl never.
Arguments os.newfd : simpl never.
Arguments os.OpenFile : simpl never.
Arguments os.Open : simpl never.
Arguments os.MkdirAll : simpl never.
Arguments os.GzipCopy : simpl never.
Arguments os.GzipClose : simpl never.
Arguments path.Dir : simpl never.
Arguments filepath.Ext : simpl never.

Create Rewrite HintDb world.

Lemma files_set_files (f : gmap string (list Byte.byte)) (w : World) : files (set_files f w) = f.
Proof. reflexivity. Qed.
Lemma dirs_set_files (f : gmap string (list Byte.byte)) (w : World) : dirs (set_files f w) = dirs w.
Proof. reflexivity. Qed.
Lemma fds_set_files (f : gmap string (list Byte.byte)) (w : World) : fds (set_files f w) = fds w.
Proof. reflexivity. Qed.
Lemma now_set_files (f : gmap string (list Byte.byte)) (w : World) : now (set_files f w) = now w.
Proof. reflexivity. Qed.
Lemma zone_set_files (f : gmap string (list Byte.byte)) (w : World) : zone (set_files f w) = zone w.
Proof. reflexivity. Qed.
Lemma faults_set_files (f : gmap string (list Byte.byte)) (w : World) : faults (set_files f w) = faults w.
Proof. reflexivity. Qed.
Lemma badPattern_set_files (f : gmap string (list Byte.byte)) (w : World) : badPattern (set_files f w) = badPattern w.
Proof. reflexivity. Qed.
Lemma matches_set_files (f : gmap string (list Byte.byte)) (w : World) : matches (set_files f w) = matches w.
Proof. reflexivity. Qed.
Lemma gzipOf_set_files (f : gmap string (list Byte.byte)) (w : World) : gzipOf (set_files f w) = gzipOf w.
Proof. reflexivity. Qed.
Lemma trace_set_files (f : gmap string (list Byte.byte)) (w : World) : trace (set_files f w) = trace w.
Proof. reflexivity. Qed.
Lemma files_set_dirs (d : gset string) (w : World) : files (set_dirs d w) = files w.
Proof. reflexivity. Qed.
Lemma dirs_set_dirs (d : gset string) (w : World) : dirs (set_dirs d w) = d.
Proof. reflexivity. Qed.
Lemma fds_set_dirs (d : gset string) (w : World) : fds (set_dirs d w) = fds w.
Proof. reflexivity. Qed.
Lemma now_set_dirs (d : gset string) (w : World) : now (set_dirs d w) = now w.
Proof. reflexivity. Qed.
Lemma zone_set_dirs (d : gset string) (w : World) : zone (set_dirs d w) = zone w.
Proof. reflexivity. Qed.
Lemma faults_set_dirs (d : gset string) (w : World) : faults (set_dirs d w) = faults w.
Proof. reflexivity. Qed.
Lemma badPattern_set_dirs (d : gset string) (w : World) : badPattern (set_dirs d w) = badPattern w.
Proof. reflexivity. Qed.
Lemma matches_set_dirs (d : gset string) (w : World) : matches (set_dirs d w) = matches w.
Proof. reflexivity. Qed.
Lemma gzipOf_set_dirs (d : gset string) (w : World) : gzipOf (set_dirs d w) = gzipOf w.
Proof. reflexivity. Qed.
Lemma trace_set_dirs (d : gset string) (w : World) : trace (set_dirs d w) = trace w.
Proof. reflexivity. Qed.
Lemma files_set_fds (d : gmap nat string) (w : World) : files (set_fds d w) = files w.
Proof. reflexivity. Qed.
Lemma dirs_set_fds (d : gmap nat string) (w : World) : dirs (set_fds d w) = dirs w.
Proof. reflexivity. Qed.
Lemma fds_set_fds (d : gmap nat string) (w : World) : fds (set_fds d w) = d.
Proof. reflexivity. Qed.
Lemma now_set_fds (d : gmap nat string) (w : World) : now (set_fds d w) = now w.
Proof. reflexivity. Qed.
Lemma zone_set_fds (d : gmap nat string) (w : World) : zone (set_fds d w) = zone w.
Proof. reflexivity. Qed.
Lemma faults_set_fds (d : gmap nat string) (w : World) : faults (set_fds d w) = faults w.
Proof. reflexivity. Qed.
Lemma badPattern_set_fds (d : gmap nat string) (w : World) : badPattern (set_fds d w) = badPattern w.
Proof. reflexivity. Qed.
Lemma matches_set_fds (d : gmap nat string) (w : World) : matches (set_fds d w) = matches w.
Proof. reflexivity. Qed.
Lemma gzipOf_set_fds (d : gmap nat string) (w : World) : gzipOf (set_fds d w) = gzipOf w.
Proof. reflexivity. Qed.
Lemma trace_set_fds (d : gmap nat string) (w : World) : trace (set_fds d w) = trace w.
Proof. reflexivity. Qed.
Lemma files_set_trace (t : list Effect) (w : World) : files (set_trace t w) = files w.
Proof. reflexivity. Qed.
Lemma dirs_set_trace (t : list Effect) (w : World) : dirs (set_trace t w) = dirs w.
Proof. reflexivity. Qed.
Lemma fds_set_trace (t : list Effect) (w : World) : fds (set_trace t w) = fds w.
Proof. reflexivity. Qed.
Lemma now_set_trace (t : list Effect) (w : World) : now (set_trace t w) = now w.
Proof. reflexivity. Qed.
Lemma zone_set_trace (t : list Effect) (w : World) : zone (set_trace t w) = zone w.
Proof. reflexivity. Qed.
Lemma faults_set_trace (t : list Effect) (w : World) : faults (set_trace t w) = faults w.
Proof. reflexivity. Qed.
Lemma badPattern_set_trace (t : list Effect) (w : World) : badPattern (set_trace t w) = badPattern w.
Proof. reflexivity. Qed.
Lemma matches_set_trace (t : list Effect) (w : World) : matches (set_trace t w) = matches w.
Proof. reflexivity. Qed.
Lemma gzipOf_set_trace (t : list Effect) (w : World) : gzipOf (set_trace t w) = gzipOf w.
Proof. reflexivity. Qed.
Lemma trace_set_trace (t : list Effect) (w : World) : trace (set_trace t w) = t.
Proof. reflexivity. Qed.
Lemma files_record (c : Effect) (w : World) : files (record c w) = files w.
Proof. reflexivity. Qed.
Lemma dirs_record (c : Effect) (w : World) : dirs (record c w) = dirs w.
Proof. reflexivity. Qed.
Lemma fds_record (c : Effect) (w : World) : fds (record c w) = fds w.
Proof. reflexivity. Qed.
Lemma now_record (c : Effect) (w : World) : now (record c w) = now w.
Proof. reflexivity. Qed.
Lemma zone_record (c : Effect) (w : World) : zone (record c w) = zone w.
Proof. reflexivity. Qed.
Lemma faults_record (c : Effect) (w : World) : faults (record c w) = faults w.
Proof. reflexivity. Qed.
Lemma badPattern_record (c : Effect) (w : World) : badPattern (record c w) = badPattern w.
Proof. reflexivity. Qed.
Lemma matches_record (c : Effect) (w : World) : matches (record c w) = matches w.
Proof. reflexivity. Qed.
Lemma gzipOf_record (c : Effect) (w : World) : gzipOf (record c w) = gzipOf w.
Proof. reflexivity. Qed.
Lemma trace_record (c : Effect) (w : World) : trace (record c w) = trace w ++ [c].
Proof. reflexivity. Qed.

#[export] Hint Rewrite files_set_files dirs_set_files fds_set_files now_set_files zone_set_files faults_set_files : world.
#[export] Hint Rewrite badPattern_set_files matches_set_files gzipOf_set_files trace_set_files files_set_dirs dirs_set_dirs : world.
#[export] Hint Rewrite fds_set_dirs now_set_dirs zone_set_dirs faults_set_dirs badPattern_set_dirs matches_set_dirs : world.
#[export] Hint Rewrite gzipOf_set_dirs trace_set_dirs files_set_fds dirs_set_fds fds_set_fds now_set_fds : world.
#[export] Hint Rewrite zone_set_fds faults_set_fds badPattern_set_fds matches_set_fds gzipOf_set_fds trace_set_fds : world.
#[export] Hint Rewrite files_set_trace dirs_set_trace fds_set_trace now_set_trace zone_set_trace faults_set_trace : world.
#[export] Hint Rewrite badPattern_set_trace matches_set_trace gzipOf_set_trace trace_set_trace files_record dirs_record : world.
#[export] Hint Rewrite fds_record now_record zone_record faults_record badPattern_record matches_record : world.
#[export] Hint Rewrite gzipOf_record trace_record : world.

Lemma newfd_fds (w w' : World) : fds w' = fds w -> os.newfd w' = os.newfd w.
Proof. unfold os.newfd. intros ->. reflexivity. Qed.

Lemma newfd_record (c : Effect) (w : World) : os.newfd (record c w) = os.newfd w.
Proof. reflexivity. Qed.

Lemma newfd_set_files (f : gmap string (list Byte.byte)) (w : World) :
  os.newfd (set_files f w) = os.newfd w.
Proof. reflexivity. Qed.

Lemma newfd_set_dirs (d : gset string) (w : World) : os.newfd (set_dirs d w) = os.newfd w.
Proof. reflexivity. Qed.

Lemma newfd_set_trace (t : list Effect) (w : World) : os.newfd (set_trace t w) = os.newfd w.
Proof. reflexivity. Qed.

#[export] Hint Rewrite newfd_record newfd_set_files newfd_set_dirs newfd_set_trace : world.

Lemma newfd_fresh (w : World) : fds w !! os.newfd w = None.
Proof. apply not_elem_of_dom. unfold os.newfd. apply is_fresh. Qed.

Lemma fault_faultless (c : Effect) (w : World) : faultless w -> fault c w = None.
Proof. intros Hf. unfold fault. rewrite Hf. reflexivity. Qed.

Lemma faultless_record (c : Effect) (w : World) : faultless w -> faultless (record c w).
Proof. intros Hf tick c'. apply Hf. Qed.

Lemma faultless_set_files (f : gmap string (list Byte.byte)) (w : World) :
  faultless w -> faultless (set_files f w).
Proof. intros Hf tick c'. apply Hf. Qed.

Lemma faultless_set_dirs (d : gset string) (w : World) :
  faultless w -> faultless (set_dirs d w).
Proof. intros Hf tick c'. apply Hf. Qed.

Lemma faultless_set_fds (d : gmap nat string) (w : World) :
  faultless w -> faultless (set_fds d w).
Proof. intros Hf tick c'. apply Hf. Qed.

Create HintDb faultless.

#[export] Hint Resolve fault_faultless faultless_record faultless_set_files
  faultless_set_dirs faultless_set_fds : faultless.

Arguments set_now : simpl never.

Lemma files_set_now (t : Z) (w : World) : files (set_now t w) = files w.
Proof. reflexivity. Qed.
Lemma dirs_set_now (t : Z) (w : World) : dirs (set_now t w) = dirs w.
Proof. reflexivity. Qed.
Lemma fds_set_now (t : Z) (w : World) : fds (set_now t w) = fds w.
Proof. reflexivity. Qed.
Lemma now_set_now (t : Z) (w : World) : now (set_now t w) = t.
Proof. reflexivity. Qed.
Lemma zone_set_now (t : Z) (w : World) : zone (set_now t w) = zone w.
Proof. reflexivity. Qed.
Lemma faults_set_now (t : Z) (w : World) : faults (set_now t w) = faults w.
Proof. reflexivity. Qed.
Lemma badPattern_set_now (t : Z) (w : World) : badPattern (set_now t w) = badPattern w.
Proof. reflexivity. Qed.
Lemma matches_set_now (t : Z) (w : World) : matches (set_now t w) = matches w.
Proof. reflexivity. Qed.
Lemma gzipOf_set_now (t : Z) (w : World) : gzipOf (set_now t w) = gzipOf w.
Proof. reflexivity. Qed.
Lemma trace_set_now (t : Z) (w : World) : trace (set_now t w) = trace w.
Proof. reflexivity. Qed.

#[export] Hint Rewrite files_set_now dirs_set_now fds_set_now now_set_now zone_set_now : world.
#[export] Hint Rewrite faults_set_now badPattern_set_now matches_set_now gzipOf_set_now trace_set_now : world.

Lemma newfd_set_now (t : Z) (w : World) : os.newfd (set_now t w) = os.newfd w.
Proof. reflexivity. Qed.

#[export] Hint Rewrite newfd_set_now : world.

Lemma faultless_set_now (t : Z) (w : World) : faultless w -> faultless (set_now t w).
Proof. intros Hf tick c'. apply Hf. Qed.

#[export] Hint Resolve faultless_set_now : faultless.

(** Unfolding of the monad of the methods. *)
Ltac unfold_M :=
  unfold locked, Lock, Unlock, closeOnExec, backupFileName, send, closeDone, latch,
    park, panic;
  unfold mbind, M_bind, mret, M_ret, gets, reads, modify, sys; simpl.

(** *** Options *)

Section options.

Context `{K : Constants}.

Lemma repoConstants_values :
  K ∈ repoConstants ->
  megabyte = 1048576 /\ defaultMaxSize = 128 /\ defaultDelimiter = "-" /\
  0 < len defaultTimeFormat.
Proof.
  unfold repoConstants. rewrite !elem_of_cons, elem_of_nil.
  intros [->|[->|[->|[]]]]; repeat split; reflexivity.
Qed.

(** X1: [WithMaxSize] counts in megabytes. A size of at most
    8796093022207 megabytes sets [maxSize] to that many times 1048576
    bytes, or to the 128 megabytes of the default when the size is not
    positive, and the result is a positive [int64]. One megabyte more
    and the product leaves [int64]: [maxSize] is then the least
    [int64]. *)
Theorem WithMaxSize_megabytes (max : Z) (o : rotateOption) :
  K ∈ repoConstants ->
  max <= 8796093022207 ->
  maxSize (WithMaxSize max o) = (if max <=? 0 then 128 else max) * 1048576 /\
  0 < maxSize (WithMaxSize max o) <= max_int64 /\
  maxSize (WithMaxSize 8796093022208 o) = min_int64.
Proof.
  intros HK Hmax. destruct (repoConstants_values HK) as (Hmb & Hdef & _ & _).
  unfold WithMaxSize. simpl. rewrite Hmb, Hdef.
  assert (Hval : (if max <=? 0 then 128 * 1048576 else mul64 max 1048576)
                 = (if max <=? 0 then 128 else max) * 1048576).
  { destruct (max <=? 0) eqn:Hle; [reflexivity|].
    apply Z.leb_gt in Hle. unfold mul64. apply wrap64_id.
    unfold in_int64, min_int64, max_int64. lia. }
  rewrite Hval. split; [reflexivity|]. split.
  - unfold max_int64. destruct (max <=? 0) eqn:Hle; [lia|]. apply Z.leb_gt in Hle. lia.
  - reflexivity.
Qed.

End options.

Lemma WithMaxSize_megabytes_witness :
  maxSize (WithMaxSize (H := constants_part_002) 500 (@defaultOption constants_part_002)) = 500 * 1048576 /\
  0 < maxSize (WithMaxSize (H := constants_part_002) 500 (@defaultOption constants_part_002)) <= max_int64 /\
  maxSize (WithMaxSize (H := constants_part_002) 8796093022208 (@defaultOption constants_part_002)) = min_int64.
Proof.
  apply (WithMaxSize_megabytes (K := constants_part_002) 500 (@defaultOption constants_part_002)).
  - unfold repoConstants. rewrite !elem_of_cons. right. right. left. reflexivity.
  - lia.
Defined.

Section options_kept.

Context `{K : Constants}.

Lemma isOption_keeps (fn : RotateOption) (o : rotateOption) :
  0 < len defaultDelimiter -> 0 < len defaultTimeFormat ->
  isOption fn ->
  0 < len (delimiter o) /\ 0 < len (timeFormat o) ->
  0 < len (delimiter (fn o)) /\ 0 < len (timeFormat (fn o)).
Proof.
  intros Hd Hf Hfn [Ho1 Ho2]. destruct Hfn; simpl; try (split; assumption).
  - split; [|assumption]. destruct (len s =? 0) eqn:E; [assumption|].
    apply Z.eqb_neq in E. unfold len in *. lia.
  - split; [assumption|]. destruct (len format =? 0) eqn:E; [assumption|].
    apply Z.eqb_neq in E. unfold len in *. lia.
Qed.

(** X2: whatever options a caller passes, and in whatever order, the
    writer is made with a delimiter and a time layout that are not
    empty: an empty argument of [WithDelimiter] or [WithTimeFormat]
    puts the default back. *)
Theorem options_never_empty (name : string) (options : list RotateOption) :
  K ∈ repoConstants ->
  Forall isOption options ->
  0 < len (delimiter (opt (newWriter name options))) /\
  0 < len (timeFormat (opt (newWriter name options))).
Proof.
  intros HK Hall. destruct (repoConstants_values HK) as (_ & _ & Hd & Hf).
  assert (Hd' : 0 < len defaultDelimiter) by (rewrite Hd; reflexivity).
  unfold newWriter. simpl.
  assert (Hstart : 0 < len (delimiter defaultOption) /\ 0 < len (timeFormat defaultOption))
    by (split; assumption).
  revert Hstart. generalize defaultOption as o.
  induction Hall as [|fn rest Hfn _ IH]; intros o Ho; simpl; [exact Ho|].
  apply IH. apply isOption_keeps; assumption.
Qed.

End options_kept.

Lemma options_never_empty_witness :
  0 < len (delimiter (opt (newWriter (H := constants_go) "app.log"
                             [@WithDelimiter constants_go "_"; @WithTimeFormat constants_go "";
                              @WithDelimiter constants_go ""]))) /\
  0 < len (timeFormat (opt (newWriter (H := constants_go) "app.log"
                              [@WithDelimiter constants_go "_"; @WithTimeFormat constants_go "";
                              @WithDelimiter constants_go ""]))).
Proof.
  apply (options_never_empty (K := constants_go)).
  - unfold repoConstants. rewrite !elem_of_cons. left. reflexivity.
  - repeat constructor.
Defined.

(** *** Construction *)

Lemma ext_scan_suffix (path e : string) :
  filepath.ext_scan path = Some e ->
  (exists p, path = p +:+ e) /\
  (e = "" \/ exists e', e = String "." e' /\ filepath.ext_scan e' = None).
Proof.
  revert e. induction path as [|c rest IH]; intros e; simpl; [discriminate|].
  destruct (filepath.ext_scan rest) as [e0|] eqn:Hrest.
  - intros [= <-]. destruct (IH e0 eq_refl) as [[p Hp] Hshape]. split; [|exact Hshape].
    exists (String c p). simpl. rewrite Hp. reflexivity.
  - destruct (Ascii.eqb c ".") eqn:Hdot.
    + intros [= <-]. apply Ascii.eqb_eq in Hdot. subst c. split.
      * exists "". reflexivity.
      * right. exists rest. split; [reflexivity|exact Hrest].
    + destruct (Ascii.eqb c "/"); [|discriminate].
      intros [= <-]. split; [|left; reflexivity].
      exists (String c rest). simpl. f_equal. symmetry. apply app_empty_r.
Qed.

Lemma Ext_suffix (path : string) :
  (exists p, path = p +:+ filepath.Ext path) /\
  (filepath.Ext path = "" \/
   exists e', filepath.Ext path = String "." e' /\ filepath.ext_scan e' = None).
Proof.
  unfold filepath.Ext. destruct (filepath.ext_scan path) as [e|] eqn:Hscan; simpl.
  - apply ext_scan_suffix. exact Hscan.
  - split; [|left; reflexivity]. exists path. symmetry. apply app_empty_r.
Qed.

Lemma str_take_app (p e : string) :
  str_take (String.length (p +:+ e) - String.length e) (p +:+ e) = p.
Proof.
  rewrite length_app. replace (String.length p + String.length e - String.length e)%nat
    with (String.length p) by lia.
  unfold str_take. induction p as [|c p IH]; simpl.
  - destruct e; reflexivity.
  - rewrite IH. reflexivity.
Qed.

(** A scan that finds nothing has met neither a dot nor a slash. *)
Lemma ext_scan_none (e : string) (c : Ascii.ascii) :
  filepath.ext_scan e = None -> c = "."%char \/ c = "/"%char ->
  forall n, String.get n e <> Some c.
Proof.
  induction e as [|d e IH]; intros Hscan Hc n; simpl in *.
  - destruct n; discriminate.
  - destruct (filepath.ext_scan e) eqn:He; [discriminate|].
    destruct (Ascii.eqb d ".") eqn:Hdot; [discriminate|].
    destruct (Ascii.eqb d "/") eqn:Hslash; [discriminate|].
    destruct n as [|n].
    + intros [= ->]. destruct Hc as [->| ->]; discriminate.
    + apply IH; [reflexivity|exact Hc].
Qed.

(** What [init] leaves of the writer whatever the file system answers. *)
Lemma init_fields (s : State) :
  let r := rw (lastState (init s)) in
  filename r = filename (rw s) /\
  ext r = filepath.Ext (filename (rw s)) /\
  prefix r = str_take (String.length (filename (rw s))
                       - String.length (filepath.Ext (filename (rw s)))) (filename (rw s)) /\
  opt r = opt (rw s) /\ size r = size (rw s) /\ err r = err (rw s) /\
  postCh r = postCh (rw s) /\ postDone r = postDone (rw s) /\ mu r = mu (rw s) /\
  closeOnce r = closeOnce (rw s) /\ done r = done (rw s) /\
  backupName r = prefix r +:+ delimiter (opt r) +:+
                 nowDate (world s) (timeFormat (opt r)) (localTime (opt r)) +:+ ext r.
Proof.
  unfold init. unfold_M.
  repeat (case_match; simplify_eq/=); repeat split; reflexivity.
Qed.

(** X3: [init] cuts the file name in two at the extension that
    [filepath.Ext] finds: the prefix followed by the extension is the
    name again, so the slice [filename[:len(filename)-len(ext)]] is
    always within bounds; the extension is empty, or it is a dot followed
    by bytes among which there is neither a dot nor a slash. This holds
    whether or not [init] goes on to open the file. *)
Theorem init_splits_name (s : State) :
  prefix (rw (lastState (init s))) +:+ ext (rw (lastState (init s))) = filename (rw s) /\
  (String.length (ext (rw (lastState (init s)))) <= String.length (filename (rw s)))%nat /\
  (ext (rw (lastState (init s))) = "" \/
   exists e, ext (rw (lastState (init s))) = String "." e /\
             forall n, String.get n e <> Some "."%char /\ String.get n e <> Some "/"%char).
Proof.
  destruct (init_fields s) as (_ & Hext & Hpre & _). rewrite Hext, Hpre.
  destruct (Ext_suffix (filename (rw s))) as [[p Hp] Hshape].
  set (e := filepath.Ext (filename (rw s))) in *. clearbody e. rewrite Hp.
  split; [|split].
  - rewrite str_take_app. reflexivity.
  - rewrite length_app. lia.
  - destruct Hshape as [He|(e' & He & Hnone)]; [left; exact He|].
    right. exists e'. split; [exact He|]. intros n.
    split; apply ext_scan_none; auto.
Qed.

(** *** What the calls answer when they succeed *)

Lemma Stat_found (name : string) (w : World) :
  fault (sysStat name) w = None -> os.exists_ name w = true ->
  os.Stat name w = (None, record (sysStat name) w).
Proof. intros Hf Hex. unfold os.Stat. rewrite Hf, Hex. reflexivity. Qed.


Lemma exists_file (name : string) (w : World) :
  name ∈ dom (files w) -> os.exists_ name w = true.
Proof.
  intros Hin. unfold os.exists_. rewrite (bool_decide_eq_true_2 _ Hin). reflexivity.
Qed.

Lemma exists_dir (name : string) (w : World) : name ∈ dirs w -> os.exists_ name w = true.
Proof.
  intros Hin. unfold os.exists_. rewrite (bool_decide_eq_true_2 _ Hin). apply orb_true_r.
Qed.


Lemma open_existing_found (c : Effect) (name : string) (w : World) :
  fault c w = None -> name ∉ dirs w -> name ∈ dom (files w) ->
  os.open_existing c name w
  = ((Some (os.newfd w), None), set_fds (<[os.newfd w := name]> (fds w)) (record c w)).
Proof.
  intros Hf Hd Hin. unfold os.open_existing. rewrite Hf.
  rewrite (bool_decide_eq_false_2 _ Hd), (bool_decide_eq_true_2 _ Hin). reflexivity.
Qed.

Lemma Create_made (name : string) (w : World) :
  fault (sysCreate name) w = None -> name <> "" -> name ∉ dirs w ->
  os.Create name w
  = ((Some (os.newfd w), None),
     set_fds (<[os.newfd w := name]> (fds w))
       (set_files (<[name := []]> (files w)) (record (sysCreate name) w))).
Proof.
  intros Hf Hne Hd. unfold os.Create. rewrite Hf.
  destruct (String.eqb name "") eqn:E; [apply String.eqb_eq in E; contradiction|].
  rewrite (bool_decide_eq_false_2 _ Hd). reflexivity.
Qed.


(** *** Construction *)

Section construction_props.

Context `{K : Constants}.

Lemma construct_existing (name : string) (options : list RotateOption) (w : World) :
  faultless w -> name ∈ dom (files w) -> name ∉ dirs w ->
  construct name options w
  = Ret (Some (initialised name options w (os.newfd w)), None)
      (record goMaintainer
         (record (sysCloseOnExec (os.newfd w))
            (set_fds (<[os.newfd w := name]> (fds w))
               (record (sysOpenAppend name) (record (sysStat name) w))))).
Proof.
  intros Hf Hin Hd. unfold construct, init. unfold_M.
  rewrite Stat_found by (auto using exists_file with faultless). simpl.
  unfold os.OpenFile. rewrite open_existing_found by (auto with faultless). simpl.
  unfold os.CloseOnExec. simpl. autorewrite with world. reflexivity.
Qed.


End construction_props.

Lemma MkdirAll_frame (p : string) (w w' : World) (o : option error) :
  os.MkdirAll p w = (o, w') ->
  files w' = files w /\ fds w' = fds w /\ trace w' = trace w ++ [sysMkdirAll p].
Proof.
  unfold os.MkdirAll. destruct (fault _ w); [intros [= _ <-]; auto|].
  destruct (bool_decide _); intros [= _ <-]; auto.
Qed.

Lemma open_existing_inv (c : Effect) (name : string) (w w' : World) (f : option nat)
  (o : option error) :
  os.open_existing c name w = ((f, o), w') ->
  (o <> None /\ f = None /\ w' = record c w) \/
  (o = None /\ f = Some (os.newfd w) /\ name ∈ dom (files w) /\
   w' = set_fds (<[os.newfd w := name]> (fds w)) (record c w)).
Proof.
  unfold os.open_existing. destruct (fault c w); [intros [= <- <- <-]; left; auto|].
  destruct (bool_decide (name ∈ dirs w)); [intros [= <- <- <-]; left; auto|].
  destruct (bool_decide (name ∈ dom (files w))) eqn:Hin; intros [= <- <- <-].
  - right. apply bool_decide_eq_true_1 in Hin. auto.
  - left. auto.
Qed.

Ltac not_among :=
  rewrite ?elem_of_app, ?elem_of_cons, ?elem_of_nil; intuition discriminate.

Lemma construct_outcome `{K : Constants} (name : string) (options : list RotateOption)
  (w : World) : constructed name w (construct name options w).
Proof.
  unfold constructed.
  unfold construct, init. unfold_M.
  destruct (os.Stat name w) as [st w1] eqn:H1. apply Stat_world in H1. subst w1.
  destruct st as [e1|]; simpl.
  - destruct (os.Stat (path.Dir name) _) as [st2 w2] eqn:H2. apply Stat_world in H2.
    subst w2. simpl.
    destruct st2 as [e2|]; simpl.
    + destruct (os.MkdirAll _ _) as [mk w3] eqn:H3.
      apply MkdirAll_frame in H3 as (Hf3 & Hd3 & Ht3). autorewrite with world in *.
      destruct mk as [e3|]; simpl.
      * eexists None, (Some e3), w3, _. split; [reflexivity|].
        split; [rewrite Ht3, <- !app_assoc; reflexivity|].
        repeat split; auto. not_among.
      * destruct (os.Create name w3) as [[f e] w4] eqn:H4. destruct e as [e4|]; simpl.
        -- apply Create_err in H4 as [-> ->].
           eexists None, (Some e4), _, _. split; [reflexivity|].
           split; [autorewrite with world; rewrite Ht3, <- !app_assoc; reflexivity|].
           autorewrite with world. repeat split; auto. not_among.
        -- apply Create_ok in H4 as [-> ->]. simpl. unfold os.CloseOnExec. simpl.
           eexists (Some _), None, _, _. split; [reflexivity|].
           split; [autorewrite with world; rewrite Ht3, <- !app_assoc; reflexivity|].
           exists (os.newfd w3). split; [reflexivity|]. autorewrite with world.
           split; [apply lookup_insert_eq|reflexivity].
    + destruct (os.Create name _) as [[f e] w4] eqn:H4. destruct e as [e4|]; simpl.
      * apply Create_err in H4 as [-> ->].
        eexists None, (Some e4), _, _. split; [reflexivity|].
        split; [autorewrite with world; rewrite <- !app_assoc; reflexivity|].
        autorewrite with world. repeat split; auto. not_among.
      * apply Create_ok in H4 as [-> ->]. simpl. unfold os.CloseOnExec. simpl.
        eexists (Some _), None, _, _. split; [reflexivity|].
        split; [autorewrite with world; rewrite <- !app_assoc; reflexivity|].
        eexists. split; [reflexivity|]. autorewrite with world.
        split; [apply lookup_insert_eq|reflexivity].
  - unfold os.OpenFile.
    destruct (os.open_existing _ name _) as [[f e] w4] eqn:H4.
    apply open_existing_inv in H4 as [(He & -> & ->)|(-> & -> & Hin & ->)].
    + destruct e as [e4|]; [|contradiction]. simpl.
      eexists None, (Some e4), _, _. split; [reflexivity|].
      split; [autorewrite with world; rewrite <- !app_assoc; reflexivity|].
      autorewrite with world. repeat split; auto. not_among.
    + simpl. unfold os.CloseOnExec. simpl.
      eexists (Some _), None, _, _. split; [reflexivity|].
      split; [autorewrite with world; rewrite <- !app_assoc; reflexivity|].
      eexists. split; [reflexivity|]. autorewrite with world.
      split; [apply lookup_insert_eq|reflexivity].
Qed.

(** X4: [NewRotateWriter] never panics and never waits. When it
    returns an error it returns no writer, it has left the files and
    the open descriptors as they were, and it has not started the
    maintainer. When it returns a writer, the writer holds a descriptor
    open on the file, and starting the maintainer was the last thing
    done. This holds in both revisions, for every name, list of options
    and behaviour of the file system. *)
Theorem NewRotateWriter_outcome (name : string) (options : list RotateOption) (w : World) :
  constructed name w (rotatewriter_go.NewRotateWriter name options w) /\
  forall K : Constants, constructed name w (part_000.NewRotateWriter name options w).
Proof.
  split; [apply construct_outcome|]. intros K. unfold part_000.NewRotateWriter.
  destruct (len name =? 0); [|apply construct_outcome].
  exists None, (Some ErrFileNameIsEmpty), w, []. split; [reflexivity|].
  split; [symmetry; apply app_nil_r|]. repeat split; auto. not_among.
Qed.

Lemma len_nonempty (name : string) : name <> "" -> (len name =? 0) = false.
Proof. intros Hne. apply Z.eqb_neq. unfold len. destruct name; [contradiction|simpl; lia]. Qed.

(** X5: on a file that is there, [NewRotateWriter] stats it, opens it
    for appending and marks the descriptor close-on-exec, and that is
    all: the content of the file is kept, and the writer starts with a
    size of 0 however long the file is, so that the bytes already in the
    file do not count towards [maxSize]. Both revisions do the same. *)
Theorem NewRotateWriter_existing_file (K : Constants) (name : string)
  (options : list RotateOption) (w : World) (content : list Byte.byte) :
  faultless w -> files w !! name = Some content -> name ∉ dirs w -> name <> "" ->
  exists w',
    part_000.NewRotateWriter name options w
    = Ret (Some (initialised name options w (os.newfd w)), None) w' /\
    rotatewriter_go.NewRotateWriter name options w
    = Ret (Some (initialised (H := constants_part_002) name options w (os.newfd w)), None) w' /\
    size (initialised name options w (os.newfd w)) = 0 /\
    files w' = files w /\
    fds w' = <[os.newfd w := name]> (fds w) /\
    trace w' = trace w ++ [sysStat name; sysOpenAppend name;
                           sysCloseOnExec (os.newfd w); goMaintainer].
Proof.
  intros Hf Hin Hd Hne. assert (Hdom : name ∈ dom (files w)) by (apply elem_of_dom; eauto).
  eexists. unfold part_000.NewRotateWriter, rotatewriter_go.NewRotateWriter.
  rewrite (len_nonempty name Hne), !construct_existing by assumption.
  split; [reflexivity|]. split; [reflexivity|]. split; [reflexivity|].
  autorewrite with world. rewrite <- !app_assoc. auto.
Qed.

Lemma NewRotateWriter_existing_file_witness :
  exists w',
    part_000.NewRotateWriter (H := constants_go) "app.log" []
      (set_files {["app.log" := bytes "old"]} (demo_world [] no_faults))
    = Ret (Some (initialised (H := constants_go) "app.log" []
                   (set_files {["app.log" := bytes "old"]} (demo_world [] no_faults)) 0), None)
        w' /\
    files w' !! "app.log" = Some (bytes "old") /\
    trace w' = [sysStat "app.log"; sysOpenAppend "app.log"; sysCloseOnExec 0; goMaintainer].
Proof.
  destruct (NewRotateWriter_existing_file constants_go "app.log" []
              (set_files {["app.log" := bytes "old"]} (demo_world [] no_faults))
              (bytes "old"))
    as (w' & Hrun & _ & _ & Hfiles & _ & Htrace).
  - intros tick c. reflexivity.
  - reflexivity.
  - change ("app.log" ∉ ({["."]} : gset string)). apply not_elem_of_singleton. discriminate.
  - discriminate.
  - exists w'. split; [exact Hrun|]. split; [rewrite Hfiles; reflexivity|exact Htrace].
Defined.



(** *** Writing *)

Lemma File_Write_appends (fd : nat) (b : list Byte.byte) (w : World) (name : string)
  (old : list Byte.byte) :
  fault (sysWrite fd b) w = None -> fds w !! fd = Some name -> files w !! name = Some old ->
  os.File_Write (Some fd) b w
  = ((len_bytes b, None), set_files (<[name := old ++ b]> (files w)) (record (sysWrite fd b) w)).
Proof. intros Hf Hfd Hold. unfold os.File_Write. rewrite Hf, Hfd, Hold. reflexivity. Qed.

Lemma gtb_false (a b : Z) : a <= b -> (a >? b) = false.
Proof. intros H. rewrite Z.gtb_ltb. apply Z.ltb_ge. exact H. Qed.

Lemma gtb_true (a b : Z) : a > b -> (a >? b) = true.
Proof. intros H. rewrite Z.gtb_ltb. apply Z.ltb_lt. lia. Qed.

Lemma len_bytes_nonneg (b : list Byte.byte) : 0 <= len_bytes b.
Proof. unfold len_bytes. lia. Qed.

Lemma add64_exact (a b : Z) : min_int64 <= a + b <= max_int64 -> add64 a b = a + b.
Proof. intros H. unfold add64. apply wrap64_id. exact H. Qed.

(** A write that fits: one call, the payload appended, the size
    advanced. *)
Lemma Write_fits (s : State) (data old : list Byte.byte) (fd : nat) (name : string) :
  mu (rw s) = false -> done (rw s) = false -> err (rw s) = None ->
  fp (rw s) = Some fd -> fds (world s) !! fd = Some name ->
  files (world s) !! name = Some old ->
  fault (sysWrite fd data) (world s) = None ->
  0 <= size (rw s) -> size (rw s) + len_bytes data <= maxSize (opt (rw s)) ->
  maxSize (opt (rw s)) <= max_int64 ->
  Write data s
  = Ret (len_bytes data, None)
      {| world := set_files (<[name := old ++ data]> (files (world s)))
                    (record (sysWrite fd data) (world s));
         rw := set_size (size (rw s) + len_bytes data) (rw s) |}.
Proof.
  intros Hmu Hdone Herr Hfp Hfd Hold Hfault Hsize Hfit Hmax.
  pose proof (len_bytes_nonneg data) as Hn.
  unfold Write. rewrite locked_free by exact Hmu. unfold write. unfold_M.
  rewrite Hdone, Herr. cbn [rw world size opt set_mu].
  rewrite (gtb_false (len_bytes data) (maxSize (opt (rw s)))) by lia.
  cbn [rw world size opt set_mu].
  rewrite add64_exact by (unfold min_int64; lia).
  rewrite (gtb_false (size (rw s) + len_bytes data) (maxSize (opt (rw s)))) by lia.
  cbn [rw world fp set_mu]. rewrite Hfp. cbn [rw world fp set_mu]. rewrite ?Hfp.
  rewrite (File_Write_appends fd data (world s) name old) by assumption.
  cbn [rw world size set_mu]. rewrite add64_exact by (unfold min_int64; lia).
  destruct s as [w r]. destruct r. simpl in *. subst. reflexivity.
Qed.

Lemma len_bytes_app (a b : list Byte.byte) : len_bytes (a ++ b) = len_bytes a + len_bytes b.
Proof. unfold len_bytes. rewrite List.length_app. lia. Qed.

Lemma set_size_twice (a b : Z) (r : RotateWriter) : set_size a (set_size b r) = set_size a r.
Proof. reflexivity. Qed.

(** X7: while the payloads fit, [Write] only appends. A writer that
    is open, not closed and without a latched error, given payloads
    whose lengths add up to no more than what is left of [maxSize],
    makes one write call for each payload and no other call, returns
    no error, leaves the file holding what it held followed by the
    payloads in order, and has counted exactly their bytes. A total
    that reaches [maxSize] exactly does not rotate. *)
Theorem writes_accumulate (payloads : list (list Byte.byte)) (s : State) (fd : nat)
  (name : string) (old : list Byte.byte) :
  mu (rw s) = false -> done (rw s) = false -> err (rw s) = None ->
  fp (rw s) = Some fd -> fds (world s) !! fd = Some name ->
  files (world s) !! name = Some old ->
  faultless (world s) ->
  0 <= size (rw s) ->
  size (rw s) + len_bytes (concat payloads) <= maxSize (opt (rw s)) ->
  maxSize (opt (rw s)) <= max_int64 ->
  exists s',
    writeAll payloads s = Ret None s' /\
    rw s' = set_size (size (rw s) + len_bytes (concat payloads)) (rw s) /\
    files (world s') = <[name := old ++ concat payloads]> (files (world s)) /\
    fds (world s') = fds (world s) /\
    trace (world s') = trace (world s) ++ (sysWrite fd <$> payloads).
Proof.
  revert s old. induction payloads as [|p rest IH];
    intros s old Hmu Hdone Herr Hfp Hfd Hold Hf Hsize Hfit Hmax.
  - exists s. simpl. rewrite !app_nil_r. change (len_bytes []) with 0. rewrite Z.add_0_r.
    split; [reflexivity|]. split; [destruct s as [w r]; destruct r; reflexivity|].
    split; [symmetry; apply insert_id; exact Hold|]. split; reflexivity.
  - simpl in Hfit. rewrite len_bytes_app in Hfit.
    pose proof (len_bytes_nonneg p) as Hp.
    pose proof (len_bytes_nonneg (concat rest)) as Hrest.
    simpl. unfold mbind, M_bind.
    rewrite (Write_fits s p old fd name) by (auto with faultless; lia).
    destruct (IH {| world := set_files (<[name := old ++ p]> (files (world s)))
                               (record (sysWrite fd p) (world s));
                    rw := set_size (size (rw s) + len_bytes p) (rw s) |} (old ++ p))
      as (s' & Hrun & Hrw & Hfiles & Hfds & Htrace); simpl; auto with faultless;
      try lia.
    + autorewrite with world. apply lookup_insert_eq.
    + exists s'. split; [exact Hrun|]. simpl in Hrw. rewrite Hrw, Hfiles, Hfds, Htrace.
      simpl. autorewrite with world. rewrite insert_insert_eq, <- !app_assoc, len_bytes_app.
      rewrite Z.add_assoc. repeat split.
Qed.

Lemma writes_accumulate_witness :
  exists s',
    writeAll [bytes "one "; bytes "two "; bytes "three"] (open_state 13 0 ["app.log"] no_faults)
    = Ret None s' /\
    size (rw s') = 13 /\
    files (world s') !! "app.log" = Some (bytes "one two three") /\
    trace (world s') = [sysWrite 0 (bytes "one "); sysWrite 0 (bytes "two ");
                        sysWrite 0 (bytes "three")].
Proof.
  destruct (writes_accumulate [bytes "one "; bytes "two "; bytes "three"]
              (open_state 13 0 ["app.log"] no_faults) 0%nat "app.log" [])
    as (s' & Hrun & Hrw & Hfiles & _ & Htrace);
    try first [reflexivity | (intros tick c; reflexivity) | (vm_compute; discriminate)].
  exists s'. split; [exact Hrun|]. rewrite Hrw, Hfiles, Htrace.
  split; [reflexivity|]. split; [apply lookup_insert_eq|reflexivity].
Defined.

(** *** Closing *)

Lemma Close_writer (s s1 : State) (e : option error) :
  closeOnce (rw s) = false -> Close s = Ret e s1 ->
  mu (rw s) = false /\ postDone (rw s) = false /\
  rw s1 = set_closeOnce true (set_postDone true (set_done true (rw s))).
Proof.
  intros Honce. unfold Close. unfold mbind at 1, M_bind at 1, gets at 1. rewrite Honce.
  unfold mbind at 1, M_bind at 1.
  destruct (mu (rw s)) eqn:Hmu; [rewrite locked_held by exact Hmu; discriminate|].
  rewrite locked_free by exact Hmu. unfold_M.
  destruct (postDone (rw s)) eqn:Hdone; [discriminate|]. simpl.
  destruct (os.File_Sync (fp (rw s)) (world s)) as [e1 w1]. simpl.
  destruct e1 as [e1|]; simpl.
  - intros [= <- <-]. simpl. repeat split.
    destruct s as [w r]. destruct r. simpl in *. subst. reflexivity.
  - destruct (os.File_Close (fp (rw s)) w1) as [e2 w2]. simpl.
    intros [= <- <-]. simpl. repeat split.
    destruct s as [w r]. destruct r. simpl in *. subst. reflexivity.
Qed.

Lemma Write_closed (s : State) (data : list Byte.byte) :
  mu (rw s) = false -> done (rw s) = true ->
  Write data s = Ret (0, Some ErrLogFileClosed) s.
Proof.
  intros Hmu Hdone. unfold Write. rewrite locked_free by exact Hmu. unfold_M.
  rewrite Hdone. simpl. rewrite set_mu_release by exact Hmu. rewrite state_eta. reflexivity.
Qed.

Lemma maintainer_done (serve : string -> M unit) (pick : bool) (s : State) :
  postCh (rw s) = [] -> postDone (rw s) = true -> maintainerTurn serve pick s = Ret false s.
Proof. intros Hq Hd. unfold maintainerTurn. unfold_M. rewrite Hq, Hd. reflexivity. Qed.

(** X8: once the first [Close] has returned, whatever its result, the
    writer is closed for good: every [Write] returns
    [ErrLogFileClosed] with 0 bytes, makes no call and changes nothing,
    and the maintainer ends its loop as soon as it finds the queue
    empty. A [Close] may also end the loop while names are still
    queued: when the [select] takes the closed channel, the names that
    wait are never served. *)
Theorem Close_is_final (s s1 : State) (e : option error) :
  closeOnce (rw s) = false -> Close s = Ret e s1 ->
  (forall data, Write data s1 = Ret (0, Some ErrLogFileClosed) s1) /\
  (forall pick, postCh (rw s1) = [] ->
     postRotate pick s1 = Ret false s1 /\ afterRotate pick s1 = Ret false s1) /\
  postRotate true s1 = Ret false s1 /\ afterRotate true s1 = Ret false s1.
Proof.
  intros Honce Hclose. destruct (Close_writer s s1 e Honce Hclose) as (Hmu & Hdone & Hrw).
  split; [|split].
  - intros data. apply Write_closed; rewrite Hrw; [exact Hmu|reflexivity].
  - intros pick Hq. split; apply maintainer_done; try exact Hq; rewrite Hrw; reflexivity.
  - unfold postRotate, afterRotate, maintainerTurn. unfold_M. rewrite Hrw. simpl.
    destruct (postCh (rw s)); split; reflexivity.
Qed.

Lemma Close_is_final_witness :
  exists s1,
    Close (open_state 100 0 ["app.log"] no_faults) = Ret None s1 /\
    Write (bytes "late") s1 = Ret (0, Some ErrLogFileClosed) s1 /\
    postRotate false s1 = Ret false s1.
Proof.
  assert (Hrun : exists s1, Close (open_state 100 0 ["app.log"] no_faults) = Ret None s1)
    by (eexists; vm_compute; reflexivity).
  destruct Hrun as [s1 Hrun]. exists s1.
  destruct (Close_is_final (open_state 100 0 ["app.log"] no_faults) s1 None eq_refl Hrun)
    as (Hwrite & Hidle & _).
  split; [exact Hrun|]. split; [apply Hwrite|]. apply Hidle.
  revert Hrun. vm_compute. intros [= <-]. reflexivity.
Defined.

(** *** Errors of the maintainer *)

Lemma latch_free (e : error) (s : State) :
  mu (rw s) = false ->
  latch e s = Ret tt {| world := world s; rw := set_err (Some e) (rw s) |}.
Proof.
  intros Hmu. unfold latch. rewrite locked_free by exact Hmu. unfold_M.
  destruct s as [w r]. destruct r. simpl in *. subst. reflexivity.
Qed.

Lemma Write_latched (s : State) (data : list Byte.byte) (e : error) :
  mu (rw s) = false -> done (rw s) = false -> len_bytes data <= maxSize (opt (rw s)) ->
  err (rw s) = Some e ->
  Write data s = Ret (0, Some e) {| world := world s; rw := set_err None (rw s) |}.
Proof.
  intros Hmu Hdone Hlen Herr. unfold Write. rewrite locked_free by exact Hmu. unfold_M.
  rewrite Hdone, Herr. cbn [rw world opt set_mu].
  rewrite (gtb_false (len_bytes data) (maxSize (opt (rw s)))) by exact Hlen.
  destruct s as [w r]. destruct r. simpl in *. subst. reflexivity.
Qed.

Lemma age_sweep_bad (s : State) :
  0 < maxDays (opt (rw s)) -> mu (rw s) = false ->
  badPattern (world s) (patternOf (rw s)) = true ->
  removeOutdatedFiles s
  = Ret tt {| world := record (sysGlob (patternOf (rw s))) (world s);
              rw := set_err (Some ErrBadPattern) (rw s) |}.
Proof.
  intros Hdays Hmu Hbad. unfold removeOutdatedFiles.
  unfold mbind, M_bind, gets, reads, mret, M_ret. simpl.
  assert ((maxDays (opt (rw s)) <=? 0) = false) as -> by lia.
  rewrite (listFiles_bad s Hbad). rewrite latch_free by exact Hmu. reflexivity.
Qed.

Lemma count_sweep_bad (s : State) :
  0 < maxBackups (opt (rw s)) -> mu (rw s) = false ->
  badPattern (world s) (patternOf (rw s)) = true ->
  removeOverMaxFiles s
  = Ret tt {| world := record (sysGlob (patternOf (rw s))) (world s);
              rw := set_err (Some ErrBadPattern) (rw s) |} /\
  deleteOverMaxFiles s = removeOverMaxFiles s.
Proof.
  intros Hmax Hmu Hbad. unfold removeOverMaxFiles, deleteOverMaxFiles.
  unfold mbind, M_bind, gets, reads, mret, M_ret. simpl.
  assert ((maxBackups (opt (rw s)) <=? 0) = false) as -> by lia.
  rewrite (listFiles_bad s Hbad). rewrite latch_free by exact Hmu. split; reflexivity.
Qed.

Lemma age_sweep_off (s : State) :
  maxDays (opt (rw s)) <= 0 -> removeOutdatedFiles s = Ret tt s.
Proof.
  intros Hoff. unfold removeOutdatedFiles. unfold mbind, M_bind, gets, mret, M_ret. simpl.
  assert ((maxDays (opt (rw s)) <=? 0) = true) as -> by lia. reflexivity.
Qed.

Lemma count_sweep_off (s : State) :
  maxBackups (opt (rw s)) <= 0 ->
  removeOverMaxFiles s = Ret tt s /\ deleteOverMaxFiles s = Ret tt s.
Proof.
  intros Hoff. unfold removeOverMaxFiles, deleteOverMaxFiles.
  unfold mbind, M_bind, gets, mret, M_ret. simpl.
  assert ((maxBackups (opt (rw s)) <=? 0) = true) as -> by lia. split; reflexivity.
Qed.

Lemma compressFile_off (name : string) (s : State) :
  gzip (opt (rw s)) = false -> compressFile name s = Ret tt s.
Proof.
  intros Hoff. unfold compressFile. unfold mbind, M_bind, gets, mret, M_ret. simpl.
  rewrite Hoff. reflexivity.
Qed.

(** One turn of the maintainer on a queued name, as the two sweeps run
    one after the other. *)
Lemma maintainerTurn_serves (serve : string -> M unit) (pick : bool) (s : State)
  (name : string) (rest : list string) :
  postCh (rw s) = name :: rest -> postDone (rw s) = false ->
  maintainerTurn serve pick s
  = match serve name {| world := world s; rw := set_postCh rest (rw s) |} with
    | Ret _ s' => Ret true s'
    | Panic s' => Panic s'
    | Block b s' => Block b s'
    end.
Proof.
  intros Hq Hd. unfold maintainerTurn. unfold_M. rewrite Hq, Hd. simpl.
  destruct (serve name _); reflexivity.
Qed.

(** X9: an error of the maintainer reaches the caller through the
    next [Write], at the price of that payload. When the pattern of the
    backups is malformed, a turn of the maintainer with a sweep
    configured lists nothing, removes nothing and latches
    [ErrBadPattern]; the next [Write] of a payload that fits returns
    that error with 0 bytes, makes no call, writes nothing and clears
    the latch. Both revisions do the same. *)
Theorem listing_error_reaches_Write (s : State) (name : string) (rest : list string)
  (data : list Byte.byte) (pick : bool) :
  mu (rw s) = false -> done (rw s) = false -> postDone (rw s) = false ->
  postCh (rw s) = name :: rest ->
  gzip (opt (rw s)) = false ->
  0 < maxDays (opt (rw s)) \/ 0 < maxBackups (opt (rw s)) ->
  badPattern (world s) (patternOf (rw s)) = true ->
  len_bytes data <= maxSize (opt (rw s)) ->
  exists s1,
    postRotate pick s = Ret true s1 /\
    afterRotate pick s = Ret true s1 /\
    rw s1 = set_err (Some ErrBadPattern) (set_postCh rest (rw s)) /\
    files (world s1) = files (world s) /\
    Forall (fun c => c = sysGlob (patternOf (rw s)))
      (drop (length (trace (world s))) (trace (world s1))) /\
    Write data s1 = Ret (0, Some ErrBadPattern)
                      {| world := world s1; rw := set_err None (set_postCh rest (rw s)) |}.
Proof.
  intros Hmu Hdone Hpd Hq Hgz Hsweep Hbad Hlen.
  unfold postRotate, afterRotate. rewrite !(maintainerTurn_serves _ pick s name rest Hq Hpd).
  set (s0 := {| world := world s; rw := set_postCh rest (rw s) |}).
  assert (Hp0 : patternOf (rw s0) = patternOf (rw s)) by reflexivity.
  unfold mbind, M_bind. rewrite (compressFile_off name s0 Hgz).
  destruct (Z_lt_le_dec 0 (maxDays (opt (rw s)))) as [Hd|Hd];
    destruct (Z_lt_le_dec 0 (maxBackups (opt (rw s)))) as [Hb|Hb]; try lia.
  - rewrite (age_sweep_bad s0) by assumption. rewrite Hp0.
    set (s1 := {| world := record (sysGlob (patternOf (rw s))) (world s0);
                  rw := set_err (Some ErrBadPattern) (rw s0) |}).
    destruct (count_sweep_bad s1) as [Hrun Hsame]; try assumption.
    rewrite Hsame, Hrun. eexists. split; [reflexivity|]. split; [reflexivity|].
    simpl. split; [reflexivity|]. autorewrite with world. split; [reflexivity|].
    split.
    + rewrite <- app_assoc, drop_app_length. repeat constructor.
    + rewrite Write_latched with (e := ErrBadPattern); try assumption; reflexivity.
  - rewrite (age_sweep_bad s0) by assumption. rewrite Hp0.
    set (s1 := {| world := record (sysGlob (patternOf (rw s))) (world s0);
                  rw := set_err (Some ErrBadPattern) (rw s0) |}).
    destruct (count_sweep_off s1) as [Hrun Hrun']; [exact Hb|].
    rewrite Hrun, Hrun'. eexists. split; [reflexivity|]. split; [reflexivity|].
    simpl. split; [reflexivity|]. autorewrite with world. split; [reflexivity|].
    split.
    + rewrite drop_app_length. repeat constructor.
    + rewrite Write_latched with (e := ErrBadPattern); try assumption; reflexivity.
  - rewrite (age_sweep_off s0) by exact Hd.
    destruct (count_sweep_bad s0) as [Hrun Hsame]; try assumption.
    rewrite Hsame, Hrun, Hp0. eexists. split; [reflexivity|]. split; [reflexivity|].
    simpl. split; [reflexivity|]. autorewrite with world. split; [reflexivity|].
    split.
    + rewrite drop_app_length. repeat constructor.
    + rewrite Write_latched with (e := ErrBadPattern); try assumption; reflexivity.
Qed.

Lemma listing_error_reaches_Write_witness :
  exists s1,
    postRotate false bracket_state = Ret true s1 /\
    files (world s1) = files (world bracket_state) /\
    Write (bytes "lost") s1
    = Ret (0, Some ErrBadPattern)
        {| world := world s1; rw := set_err None (set_postCh [] (rw bracket_state)) |}.
Proof.
  pose proof (listing_error_reaches_Write bracket_state "app[-2023-11-14T22:13:20.123.log" []
              (bytes "lost") false) as H.
  specialize (H eq_refl eq_refl eq_refl eq_refl eq_refl (or_introl eq_refl)).
  assert (Hb : badPattern (world bracket_state) (patternOf (rw bracket_state)) = true) by (vm_compute; reflexivity).
  specialize (H Hb).
  assert (Hl : len_bytes (bytes "lost") <= maxSize (opt (rw bracket_state))) by (vm_compute; discriminate).
  specialize (H Hl).
  destruct H as (s1 & Hturn & _ & _ & Hfiles & _ & Hwrite).
  exists s1. split; [exact Hturn|]. split; [exact Hfiles|exact Hwrite].
Defined.

(** *** What a rotation and a write leave alone *)

Arguments rotate : simpl never.
Arguments moveAndCreate : simpl never.

Lemma rotate_unfold (s : State) :
  rotate s
  = match fp (rw s) with
    | Some fd =>
        match os.File_Close (Some fd) (world s) with
        | (Some e, w) => Ret (Some e) {| world := w; rw := rw s |}
        | (None, w) => moveAndCreate {| world := w; rw := set_fp None (rw s) |}
        end
    | None => moveAndCreate s
    end.
Proof.
  unfold rotate, moveAndCreate. unfold_M. destruct (fp (rw s)) as [fd|]; simpl.
  - destruct (os.File_Close (Some fd) (world s)) as [[e|] w]; reflexivity.
  - destruct s; reflexivity.
Qed.

Lemma Rename_frame (a b : string) (w w' : World) (o : option error) :
  os.Rename a b w = (o, w') ->
  fds w' = fds w /\
  forall name, name <> a -> name <> b -> files w' !! name = files w !! name.
Proof.
  destruct o as [e|]; intros H.
  - apply Rename_err in H. subst w'. auto.
  - apply Rename_ok in H as (data & _ & ->). autorewrite with world. split; [reflexivity|].
    intros name Ha Hb. rewrite lookup_insert_ne, lookup_delete_ne by auto. reflexivity.
Qed.

Lemma Create_frame (a : string) (w w' : World) (f : option nat) (o : option error) :
  os.Create a w = ((f, o), w') ->
  (forall name, name <> a -> files w' !! name = files w !! name) /\
  match o with
  | None => exists fd, f = Some fd /\ fds w' = <[fd := a]> (fds w)
  | Some _ => f = None /\ fds w' = fds w
  end.
Proof.
  destruct o as [e|]; intros H.
  - apply Create_err in H as [-> ->]. auto.
  - apply Create_ok in H as [-> ->]. autorewrite with world. split.
    + intros name Ha. rewrite lookup_insert_ne by auto. reflexivity.
    + eexists. split; reflexivity.
Qed.

(** The outcomes of the second half of a rotation. *)
Lemma moveAndCreate_frame (s : State) :
  fp (rw s) = None ->
  match moveAndCreate s with
  | Ret e s' =>
      keeps s s' /\ size (rw s') = size (rw s) /\ err (rw s') = err (rw s) /\
      mu (rw s') = mu (rw s) /\ handle_on_file s' /\ (e = None -> fp (rw s') <> None)
  | Block b s' =>
      b = onSend /\ keeps s s' /\ size (rw s') = size (rw s) /\ err (rw s') = err (rw s) /\
      mu (rw s') = mu (rw s) /\ handle_on_file s'
  | Panic _ => False
  end.
Proof.
  intros Hfp. unfold moveAndCreate. unfold_M.
  destruct (os.Stat (filename (rw s)) (world s)) as [st w1] eqn:H1.
  apply Stat_world in H1. subst w1. simpl.
  assert (Hnone : handle_on_file s) by (intros fd name Hfd; congruence).
  destruct (bool_decide (st = None) && (0 <? len (backupName (rw s)))) eqn:Hmove; simpl.
  - destruct (os.Rename _ _ _) as [o w2] eqn:H2.
    pose proof (Rename_frame _ _ _ _ _ H2) as [Hfds2 Hfiles2].
    autorewrite with world in *. destruct o as [e|]; simpl.
    + repeat split; auto; try discriminate;
             try solve [intros name Ha Hb; simpl; autorewrite with world;
                        rewrite ?Hfiles3, ?Hfiles2 by auto; auto];
             try solve [intros fd' name' Hfd Hname; simpl in *;
                        first [discriminate | congruence
                              | (injection Hfd as <-; autorewrite with world in Hname;
                                 rewrite Hfds3, lookup_insert_eq in Hname; congruence)]].
    + destruct (length (postCh (rw s)) <? postCh_cap)%nat; simpl.
      * destruct (os.Create _ _) as [[f e] w3] eqn:H3. simpl in H3.
        pose proof (Create_frame _ _ _ _ _ H3) as [Hfiles3 Hfd3].
        destruct e as [e|]; simpl.
        -- destruct Hfd3 as [-> Hfds3].
           repeat split; auto; try discriminate;
             try solve [intros name Ha Hb; simpl; autorewrite with world;
                        rewrite ?Hfiles3, ?Hfiles2 by auto; auto];
             try solve [intros fd' name' Hfd Hname; simpl in *;
                        first [discriminate | congruence
                              | (injection Hfd as <-; autorewrite with world in Hname;
                                 rewrite Hfds3, lookup_insert_eq in Hname; congruence)]].
        -- destruct Hfd3 as (fd & -> & Hfds3). simpl. unfold os.CloseOnExec. simpl.
           repeat split; auto; try discriminate;
             try solve [intros name Ha Hb; simpl; autorewrite with world;
                        rewrite ?Hfiles3, ?Hfiles2 by auto; auto];
             try solve [intros fd' name' Hfd Hname; simpl in *;
                        first [discriminate | congruence
                              | (injection Hfd as <-; autorewrite with world in Hname;
                                 rewrite Hfds3, lookup_insert_eq in Hname; congruence)]].
      * repeat split; auto; try discriminate;
             try solve [intros name Ha Hb; simpl; autorewrite with world;
                        rewrite ?Hfiles3, ?Hfiles2 by auto; auto];
             try solve [intros fd' name' Hfd Hname; simpl in *;
                        first [discriminate | congruence
                              | (injection Hfd as <-; autorewrite with world in Hname;
                                 rewrite Hfds3, lookup_insert_eq in Hname; congruence)]].
  - destruct (os.Create _ _) as [[f e] w3] eqn:H3. simpl in H3.
    pose proof (Create_frame _ _ _ _ _ H3) as [Hfiles3 Hfd3]. autorewrite with world in *.
    destruct e as [e|]; simpl.
    + destruct Hfd3 as [-> Hfds3].
      repeat split; auto; try discriminate;
             try solve [intros name Ha Hb; simpl; autorewrite with world;
                        rewrite ?Hfiles3, ?Hfiles2 by auto; auto];
             try solve [intros fd' name' Hfd Hname; simpl in *;
                        first [discriminate | congruence
                              | (injection Hfd as <-; autorewrite with world in Hname;
                                 rewrite Hfds3, lookup_insert_eq in Hname; congruence)]].
    + destruct Hfd3 as (fd & -> & Hfds3). simpl. unfold os.CloseOnExec. simpl.
      repeat split; auto; try discriminate;
             try solve [intros name Ha Hb; simpl; autorewrite with world;
                        rewrite ?Hfiles3, ?Hfiles2 by auto; auto];
             try solve [intros fd' name' Hfd Hname; simpl in *;
                        first [discriminate | congruence
                              | (injection Hfd as <-; autorewrite with world in Hname;
                                 rewrite Hfds3, lookup_insert_eq in Hname; congruence)]].
Qed.

Lemma rotate_frame (s : State) :
  match rotate s with
  | Ret e s' =>
      keeps s s' /\ size (rw s') = size (rw s) /\ err (rw s') = err (rw s) /\
      mu (rw s') = mu (rw s) /\ handle_on_file s' /\ (e = None -> fp (rw s') <> None)
  | Block b s' =>
      b = onSend /\ keeps s s' /\ size (rw s') = size (rw s) /\ err (rw s') = err (rw s) /\
      mu (rw s') = mu (rw s) /\ handle_on_file s'
  | Panic _ => False
  end.
Proof.
  rewrite rotate_unfold. destruct (fp (rw s)) as [fd|] eqn:Hfp.
  - destruct (os.File_Close (Some fd) (world s)) as [c w1] eqn:Hc.
    apply File_Close_world in Hc. subst w1. destruct c as [e|].
    + repeat split; auto; try discriminate.
      intros fd' name Hfd Hname. simpl in *. rewrite Hfp in Hfd. injection Hfd as <-.
      autorewrite with world in Hname. rewrite lookup_delete_eq in Hname. discriminate.
    + pose proof (moveAndCreate_frame
                    {| world := set_fds (delete fd (fds (world s)))
                                  (record (sysClose fd) (world s));
                       rw := set_fp None (rw s) |} eq_refl) as H.
      destruct (moveAndCreate _) as [e s'|s'|b s']; exact H.
  - pose proof (moveAndCreate_frame s Hfp) as H.
    destruct (moveAndCreate s) as [e s'|s'|b s']; exact H.
Qed.

Lemma File_Write_frame (fd : nat) (b : list Byte.byte) (w w' : World) (k : Z)
  (o : option error) :
  os.File_Write (Some fd) b w = ((k, o), w') ->
  fds w' = fds w /\
  forall name, fds w !! fd <> Some name -> files w' !! name = files w !! name.
Proof.
  unfold os.File_Write. destruct (fault _ w); [intros [= _ _ <-]; auto|].
  destruct (fds w !! fd) as [n|] eqn:Hn; [|intros [= _ _ <-]; auto].
  destruct (files w !! n); intros [= _ _ <-]; autorewrite with world; [|auto].
  split; [reflexivity|]. intros name Hne. apply lookup_insert_ne. congruence.
Qed.

Lemma keeps_refl (s : State) : keeps s s.
Proof. repeat split. Qed.

Lemma same_settings_refl (s : State) : same_settings s s.
Proof. repeat split. Qed.

Ltac write_leaf :=
  repeat split; auto 7;
  try (intros ? ? ?; reflexivity);
  try solve [left; split; reflexivity];
  try solve [right; split; [discriminate|reflexivity]].

(** Every outcome of a [Write]. *)
Lemma Write_outcome (s : State) (data : list Byte.byte) :
  match Write data s with
  | Ret (n, e) s' =>
      (e = None /\ n = len_bytes data \/ e <> None /\ n = 0) /\
      same_settings s s' /\ mu (rw s') = false /\
      (size (rw s') = size (rw s) \/
       (len_bytes data <= maxSize (opt (rw s)) /\
        size (rw s') = add64 (size (rw s)) (len_bytes data) /\
        add64 (size (rw s)) (len_bytes data) <= maxSize (opt (rw s))) \/
       (len_bytes data <= maxSize (opt (rw s)) /\
        (size (rw s') = 0 \/ size (rw s') = add64 0 (len_bytes data)))) /\
      (handle_on_file s -> same_files_but_two s s' /\ handle_on_file s')
  | Block b s' =>
      same_settings s s' /\ size (rw s') = size (rw s) /\
      (b = onLock \/ b = onSend) /\
      (handle_on_file s -> same_files_but_two s s' /\ handle_on_file s')
  | Panic _ => False
  end.
Proof.
  unfold Write. destruct (mu (rw s)) eqn:Hmu.
  { rewrite locked_held by exact Hmu. write_leaf. }
  rewrite locked_free by exact Hmu. unfold write. unfold_M.
  destruct (done (rw s)) eqn:Hdone; simpl.
  { rewrite set_mu_release by exact Hmu. rewrite state_eta.
    write_leaf. }
  destruct (len_bytes data >? maxSize (opt (rw s))) eqn:Hover; simpl.
  { rewrite set_mu_release by exact Hmu. rewrite state_eta.
    write_leaf. }
  assert (Hlen : len_bytes data <= maxSize (opt (rw s)))
    by (rewrite Z.gtb_ltb in Hover; apply Z.ltb_ge in Hover; exact Hover).
  destruct (err (rw s)) as [e0|] eqn:Herr; simpl.
  { write_leaf. }
  set (sl := {| world := world s; rw := set_mu true (rw s) |}).
  destruct (add64 (size (rw s)) (len_bytes data) >? maxSize (opt (rw s))) eqn:Hrot; simpl.
  - pose proof (rotate_frame sl) as Hr.
    destruct (rotate sl) as [e s1|s1|b s1]; [|contradiction|].
    + destruct Hr as ([Hset Hf1] & Hsz & He & Hm & Hh1 & Hfp1). destruct e as [e|]; simpl.
      * destruct Hset as (? & ? & ? & ? & ?). write_leaf.
      * destruct (fp (rw s1)) as [fd|] eqn:Hfd; [|exfalso; apply Hfp1; auto]. simpl.
        destruct (os.File_Write (Some fd) data (world s1)) as [[k e] w2] eqn:Hw.
        pose proof (File_Write_frame _ _ _ _ _ _ Hw) as [Hfds2 Hfiles2].
        destruct Hset as (Hn1 & Ho1 & Hd1 & Hc1 & Hp1).
        unfold sl, same_files_but_two in *.
        simpl in Hn1, Ho1, Hd1, Hc1, Hp1, Hf1, Hsz, He, Hm.
        assert (Hframe : forall name, name <> filename (rw s) -> name <> backupName (rw s) ->
                                      files w2 !! name = files (world s) !! name).
        { intros name Ha Hb. rewrite Hfiles2; [apply Hf1; auto|].
          intros Hname. apply Ha. rewrite <- Hn1. eapply Hh1; eauto. }
        assert (Hh2 : forall r', fp r' = Some fd -> filename r' = filename (rw s1) ->
                                 handle_on_file {| world := w2; rw := r' |}).
        { intros r' Hfp' Hfn' fd' name Hfd' Hname. simpl in *. rewrite Hfp' in Hfd'.
          injection Hfd' as <-. rewrite Hfds2 in Hname. rewrite Hfn'. eapply Hh1; eauto. }
        destruct e as [e|]; simpl; write_leaf.
    + destruct Hr as (-> & [Hset Hf1] & Hsz & He & Hm & Hh1). repeat split; auto; apply Hset.
  - rewrite Z.gtb_ltb in Hrot. apply Z.ltb_ge in Hrot.
    destruct (fp (rw s)) as [fd|] eqn:Hfd; simpl.
    + destruct (os.File_Write (Some fd) data (world s)) as [[k e] w2] eqn:Hw.
      pose proof (File_Write_frame _ _ _ _ _ _ Hw) as [Hfds2 Hfiles2].
      assert (Hframe : handle_on_file s ->
                       forall name, name <> filename (rw s) -> name <> backupName (rw s) ->
                                    files w2 !! name = files (world s) !! name).
      { intros Hh name Ha Hb. apply Hfiles2. intros Hname. apply Ha. eapply Hh; eauto. }
      assert (Hh2 : handle_on_file s ->
                    forall r', fp r' = Some fd -> filename r' = filename (rw s) ->
                               handle_on_file {| world := w2; rw := r' |}).
      { intros Hh r' Hfp' Hfn' fd' name Hfd' Hname. simpl in *. rewrite Hfp' in Hfd'.
        injection Hfd' as <-. rewrite Hfds2 in Hname. rewrite Hfn'. eapply Hh; eauto. }
      destruct e as [e|]; simpl; unfold same_files_but_two; write_leaf.
    + rewrite set_mu_release by exact Hmu. rewrite state_eta.
      write_leaf.
Qed.

(** X10: what a [Write] returns. It never panics; it waits only for
    the mutex, or, holding it, on the full queue of the maintainer; and
    when it returns it has released the mutex and answers as an
    [io.Writer] must: the whole length of the payload with no error, or
    0 with an error, never a part. This holds for every state of the
    writer and every behaviour of the file system. *)
Theorem Write_contract (s : State) (data : list Byte.byte) :
  (exists n e s', Write data s = Ret (n, e) s' /\
                  mu (rw s') = false /\
                  (e = None /\ n = len_bytes data \/ e <> None /\ n = 0)) \/
  (exists b s', Write data s = Block b s' /\ (b = onLock \/ b = onSend)).
Proof.
  pose proof (Write_outcome s data) as H.
  destruct (Write data s) as [[n e] s'|s'|b s']; [|contradiction|].
  - left. exists n, e, s'. destruct H as (Hne & _ & Hmu & _). auto.
  - right. exists b, s'. destruct H as (_ & _ & Hb & _). auto.
Qed.

(** X11: a [Write] touches two names at most. Whatever the payload,
    the state of the writer and the behaviour of the file system, and
    whether the call returns, fails or waits, every file other than
    the active file and the file of the current backup name is after
    the call what it was before; the writer's descriptor, if it is
    open, is still open on the writer's own file, and the name, the
    options and the flags of the writer are unchanged. *)
Theorem Write_touches_two_names (s : State) (data : list Byte.byte) :
  handle_on_file s ->
  same_files_but_two s (lastState (Write data s)) /\
  handle_on_file (lastState (Write data s)) /\
  same_settings s (lastState (Write data s)).
Proof.
  intros Hh. pose proof (Write_outcome s data) as H.
  destruct (Write data s) as [[n e] s'|s'|b s']; [|contradiction|]; simpl.
  - destruct H as (_ & Hset & _ & _ & Hfr). destruct (Hfr Hh). auto.
  - destruct H as (Hset & _ & _ & Hfr). destruct (Hfr Hh). auto.
Qed.

Lemma add64_small (a b m : Z) :
  0 <= a <= m -> 0 <= b -> b <= m -> 2 * m <= max_int64 -> add64 a b = a + b.
Proof. intros Ha Hb Hbm Hm. apply add64_exact. unfold min_int64. lia. Qed.

(** X12: the size counter stays within bounds. If the counter is
    between 0 and [maxSize], and twice [maxSize] is an [int64], then
    after a [Write], whatever its outcome, the counter is again
    between 0 and [maxSize], and [maxSize] is what it was. *)
Theorem Write_size_within_maxSize (s : State) (data : list Byte.byte) :
  0 <= size (rw s) <= maxSize (opt (rw s)) ->
  2 * maxSize (opt (rw s)) <= max_int64 ->
  0 <= size (rw (lastState (Write data s))) <= maxSize (opt (rw (lastState (Write data s)))) /\
  maxSize (opt (rw (lastState (Write data s)))) = maxSize (opt (rw s)).
Proof.
  intros Hsize Hmax. pose proof (Write_outcome s data) as H.
  pose proof (len_bytes_nonneg data) as Hn.
  destruct (Write data s) as [[n e] s'|s'|b s']; [|contradiction|]; simpl.
  - destruct H as (_ & (_ & Hopt & _) & _ & Hsz & _). rewrite Hopt. split; [|reflexivity].
    destruct Hsz as [->|[(Hlen & -> & Hle)|[Hlen [->| ->]]]]; try lia.
    + rewrite (add64_small _ _ (maxSize (opt (rw s)))) in * by lia. lia.
    + rewrite (add64_small _ _ (maxSize (opt (rw s)))) by lia. lia.
  - destruct H as ((_ & Hopt & _) & Hsz & _). rewrite Hopt, Hsz. auto.
Qed.

(** *** A close that fails *)

Lemma File_Close_dead (fd : nat) (w : World) :
  fds w !! fd = None ->
  exists e, os.File_Close (Some fd) w
            = (Some e, set_fds (delete fd (fds w)) (record (sysClose fd) w)) /\
            (fault (sysClose fd) w = None -> e = ErrClosed).
Proof.
  intros Hfd. unfold os.File_Close. destruct (fault _ w) as [e|].
  - exists e. split; [reflexivity|discriminate].
  - rewrite bool_decide_eq_false_2 by (apply not_elem_of_dom; exact Hfd).
    exists ErrClosed. auto.
Qed.

Lemma File_Write_dead (fd : nat) (b : list Byte.byte) (w : World) :
  fds w !! fd = None ->
  exists e, os.File_Write (Some fd) b w = ((0, Some e), record (sysWrite fd b) w) /\
            (fault (sysWrite fd b) w = None -> e = ErrClosed).
Proof.
  intros Hfd. unfold os.File_Write. destruct (fault _ w) as [e|].
  - exists e. split; [reflexivity|discriminate].
  - rewrite Hfd. exists ErrClosed. auto.
Qed.

Lemma Write_dead (s : State) (fd : nat) (data : list Byte.byte) :
  dead_handle s fd -> mu (rw s) = false ->
  exists e s',
    Write data s = Ret (0, Some e) s' /\
    dead_handle s' fd /\ mu (rw s') = false /\ files (world s') = files (world s) /\
    (done (rw s) = false -> len_bytes data <= maxSize (opt (rw s)) -> err (rw s) = None ->
     faultless (world s) -> e = ErrClosed).
Proof.
  intros [Hfp Hfd] Hmu. unfold Write. rewrite locked_free by exact Hmu. unfold write.
  unfold_M. destruct (done (rw s)) eqn:Hdone; simpl.
  { eexists _, _. split; [reflexivity|]. simpl. repeat split; auto. discriminate. }
  destruct (len_bytes data >? maxSize (opt (rw s))) eqn:Hover; simpl.
  { eexists _, _. split; [reflexivity|]. simpl. repeat split; auto.
    intros _ Hle. rewrite gtb_false in Hover by exact Hle. discriminate. }
  destruct (err (rw s)) as [e0|] eqn:Herr; simpl.
  { eexists _, _. split; [reflexivity|]. simpl. repeat split; auto. discriminate. }
  destruct (add64 (size (rw s)) (len_bytes data) >? maxSize (opt (rw s))); simpl.
  - rewrite rotate_unfold. simpl. rewrite Hfp.
    destruct (File_Close_dead fd (world s) Hfd) as (e & -> & He). simpl.
    eexists _, _. split; [reflexivity|]. simpl. autorewrite with world.
    repeat split; auto; try apply lookup_delete_eq.
    intros _ _ _ Hf. apply He. apply fault_faultless, Hf.
  - rewrite Hfp. simpl.
    destruct (File_Write_dead fd data (world s) Hfd) as (e & -> & He). simpl.
    eexists _, _. split; [reflexivity|]. simpl. autorewrite with world.
    repeat split; auto. intros _ _ _ Hf. apply He. apply fault_faultless, Hf.
Qed.

(** X13: a rotation whose close of the old descriptor fails leaves
    the writer for ever without a working file. [rotate] returns the
    error of the close and keeps the descriptor, which is closed all the
    same; from then on every [Write] returns 0 and an error and changes
    no file ([ErrClosed] for a payload that fits, once nothing else is
    wrong), and leaves the writer in the same condition, so that the
    next [Write] fails too. *)
Theorem failed_close_is_fatal (s : State) (fd : nat) (e0 : error) :
  fp (rw s) = Some fd ->
  fst (os.File_Close (Some fd) (world s)) = Some e0 ->
  exists s1,
    rotate s = Ret (Some e0) s1 /\ dead_handle s1 fd /\
    forall s2 data,
      dead_handle s2 fd -> mu (rw s2) = false ->
      exists e s3,
        Write data s2 = Ret (0, Some e) s3 /\
        dead_handle s3 fd /\ mu (rw s3) = false /\ files (world s3) = files (world s2) /\
        (done (rw s2) = false -> len_bytes data <= maxSize (opt (rw s2)) ->
         err (rw s2) = None -> faultless (world s2) -> e = ErrClosed).
Proof.
  intros Hfp Hclose. rewrite rotate_unfold, Hfp.
  destruct (os.File_Close (Some fd) (world s)) as [c w1] eqn:Hc. simpl in Hclose. subst c.
  apply File_Close_world in Hc. subst w1.
  eexists. split; [reflexivity|]. split.
  - split; [exact Hfp|]. simpl. autorewrite with world. apply lookup_delete_eq.
  - intros s2 data Hdead Hmu. apply Write_dead; assumption.
Qed.

(** *** Rotations that share a backup name *)

Lemma File_Close_ok (fd : nat) (w : World) :
  fault (sysClose fd) w = None -> fd ∈ dom (fds w) ->
  os.File_Close (Some fd) w = (None, set_fds (delete fd (fds w)) (record (sysClose fd) w)).
Proof.
  intros Hf Hin. unfold os.File_Close. rewrite Hf, (bool_decide_eq_true_2 _ Hin). reflexivity.
Qed.

Lemma Rename_moved (a b : string) (w : World) (data : list Byte.byte) :
  fault (sysRename a b) w = None -> files w !! a = Some data -> b ∉ dirs w ->
  os.Rename a b w
  = (None, set_files (<[b := data]> (delete a (files w))) (record (sysRename a b) w)).
Proof.
  intros Hf Ha Hb. unfold os.Rename. rewrite Hf, Ha, (bool_decide_eq_false_2 _ Hb).
  reflexivity.
Qed.

Lemma nowDate_frame (w w' : World) (format : string) (local : bool) :
  now w' = now w -> zone w' = zone w -> nowDate w' format local = nowDate w format local.
Proof. unfold nowDate, Now. intros -> ->. reflexivity. Qed.

(** A rotation in which every call succeeds. *)
Lemma moveAndCreate_moves (s : State) (content : list Byte.byte) :
  faultless (world s) ->
  files (world s) !! filename (rw s) = Some content ->
  filename (rw s) <> "" -> filename (rw s) ∉ dirs (world s) ->
  backupName (rw s) ∉ dirs (world s) -> 0 < len (backupName (rw s)) ->
  (length (postCh (rw s)) < postCh_cap)%nat ->
  moveAndCreate s
  = Ret None
      {| world :=
           record (sysCloseOnExec (os.newfd (world s)))
             (set_fds (<[os.newfd (world s) := filename (rw s)]> (fds (world s)))
                (set_files (<[filename (rw s) := []]>
                              (<[backupName (rw s) := content]>
                                 (delete (filename (rw s)) (files (world s)))))
                   (record (sysCreate (filename (rw s)))
                      (record (sysRename (filename (rw s)) (backupName (rw s)))
                         (record (sysStat (filename (rw s))) (world s))))));
         rw := set_fp (Some (os.newfd (world s)))
                 (set_backupName (backupNameOf (world s) (rw s))
                    (set_postCh (postCh (rw s) ++ [backupName (rw s)]) (rw s))) |}.
Proof.
  intros Hf Hfile Hne Hnd Hbd Hbn Hroom. unfold moveAndCreate. unfold_M.
  rewrite Stat_found by (auto using exists_file with faultless; apply exists_file, elem_of_dom; eauto).
  simpl.
  assert ((0 <? len (backupName (rw s))) = true) as -> by (apply Z.ltb_lt; exact Hbn).
  simpl. rewrite (Rename_moved _ _ _ content) by (autorewrite with world; auto with faultless).
  simpl. apply Nat.ltb_lt in Hroom. rewrite Hroom. simpl.
  rewrite Create_made; [|auto 10 with faultless|exact Hne|autorewrite with world; exact Hnd].
  simpl. unfold os.CloseOnExec. simpl. autorewrite with world.
  unfold backupNameOf.
  rewrite (nowDate_frame (world s)) by (autorewrite with world; reflexivity).
  reflexivity.
Qed.

Lemma rotate_moves (s : State) (fd : nat) (content : list Byte.byte) :
  faultless (world s) ->
  fp (rw s) = Some fd -> fd ∈ dom (fds (world s)) ->
  files (world s) !! filename (rw s) = Some content ->
  filename (rw s) <> "" -> filename (rw s) ∉ dirs (world s) ->
  backupName (rw s) ∉ dirs (world s) -> 0 < len (backupName (rw s)) ->
  (length (postCh (rw s)) < postCh_cap)%nat ->
  exists s1,
    rotate s = Ret None s1 /\
    rw s1 = set_fp (fp (rw s1))
              (set_backupName (backupNameOf (world s) (rw s))
                 (set_postCh (postCh (rw s) ++ [backupName (rw s)]) (rw s))) /\
    (exists fd', fp (rw s1) = Some fd' /\ fd' ∈ dom (fds (world s1))) /\
    files (world s1) = <[filename (rw s) := []]>
                         (<[backupName (rw s) := content]>
                            (delete (filename (rw s)) (files (world s)))) /\
    dirs (world s1) = dirs (world s) /\ faultless (world s1).
Proof.
  intros Hf Hfp Hin Hfile Hne Hnd Hbd Hbn Hroom. rewrite rotate_unfold, Hfp.
  rewrite File_Close_ok by (auto with faultless).
  rewrite (moveAndCreate_moves _ content); simpl; autorewrite with world;
    auto with faultless.
  eexists. split; [reflexivity|]. simpl. autorewrite with world.
  split; [reflexivity|]. split.
  - eexists. split; [reflexivity|]. rewrite dom_insert. apply elem_of_union. left.
    apply elem_of_singleton. reflexivity.
  - repeat split. auto 10 with faultless.
Qed.

(** X14: two rotations can give their backups the same name, and
    then the second backup replaces the first. A rotation moves the
    active file to the name that was computed at the rotation before
    (or by [init]), and computes the next name from the clock; [rename]
    replaces what is there. So when a rotation happens while the clock
    still shows the stamp of the name it uses, the backup it makes is
    overwritten by the next rotation, whenever that one comes: the
    content saved first is in no file any more, and the maintainer is
    handed the same name twice. *)
Theorem rotations_share_backup_name (s : State) (fd : nat) (content : list Byte.byte)
  (t : Z) :
  faultless (world s) ->
  fp (rw s) = Some fd -> fd ∈ dom (fds (world s)) ->
  files (world s) !! filename (rw s) = Some content ->
  filename (rw s) <> "" -> filename (rw s) ∉ dirs (world s) ->
  backupName (rw s) ∉ dirs (world s) -> backupName (rw s) <> filename (rw s) ->
  0 < len (backupName (rw s)) ->
  backupName (rw s) = backupNameOf (world s) (rw s) ->
  (length (postCh (rw s)) + 1 < postCh_cap)%nat ->
  exists s1 s2,
    rotate s = Ret None s1 /\
    files (world s1) !! backupName (rw s) = Some content /\
    backupName (rw s1) = backupName (rw s) /\
    rotate (at_time t s1) = Ret None s2 /\
    files (world s2) !! backupName (rw s) = Some [] /\
    files (world s2) !! filename (rw s) = Some [] /\
    postCh (rw s2) = postCh (rw s) ++ [backupName (rw s); backupName (rw s)] /\
    forall name, name <> filename (rw s) -> name <> backupName (rw s) ->
                 files (world s2) !! name = files (world s) !! name.
Proof.
  intros Hf Hfp Hin Hfile Hne Hnd Hbd Hdiff Hbn Hstamp Hroom.
  destruct (rotate_moves s fd content) as (s1 & Hrun1 & Hrw1 & (fd1 & Hfp1 & Hin1) & Hfiles1
                                           & Hdirs1 & Hf1); auto; try lia.
  assert (Hname1 : filename (rw s1) = filename (rw s)) by (rewrite Hrw1; reflexivity).
  assert (Hbn1 : backupName (rw s1) = backupName (rw s))
    by (rewrite Hrw1; simpl; symmetry; exact Hstamp).
  assert (Hq1 : postCh (rw s1) = postCh (rw s) ++ [backupName (rw s)])
    by (rewrite Hrw1; reflexivity).
  destruct (rotate_moves (at_time t s1) fd1 [])
    as (s2 & Hrun2 & Hrw2 & _ & Hfiles2 & _ & _); unfold at_time; simpl;
    autorewrite with world; rewrite ?Hname1, ?Hbn1, ?Hdirs1, ?Hq1; auto with faultless.
  { rewrite Hfiles1. apply lookup_insert_eq. }
  { rewrite List.length_app. simpl. lia. }
  exists s1, s2. split; [exact Hrun1|]. split.
  { rewrite Hfiles1, lookup_insert_ne, lookup_insert_eq by auto. reflexivity. }
  split; [exact Hbn1|]. split; [exact Hrun2|].
  unfold at_time in Hfiles2, Hrw2. simpl in Hfiles2, Hrw2. autorewrite with world in Hfiles2.
  rewrite Hname1, Hbn1 in Hfiles2. rewrite Hfiles2. split.
  { rewrite lookup_insert_ne, lookup_insert_eq by auto. reflexivity. }
  split; [apply lookup_insert_eq|]. split.
  { rewrite Hrw2. simpl. rewrite Hq1, Hbn1, <- app_assoc. reflexivity. }
  intros name Ha Hb.
  rewrite !lookup_insert_ne, lookup_delete_ne by auto.
  rewrite Hfiles1, !lookup_insert_ne, lookup_delete_ne by auto. reflexivity.
Qed.

(** *** An overflowing write from end to end *)

(** A write through an open descriptor, when the call does not fail. *)
Lemma File_Write_open (fd : nat) (b : list Byte.byte) (w : World) :
  fault (sysWrite fd b) w = None -> fd ∈ dom (fds w) ->
  exists w', os.File_Write (Some fd) b w = ((len_bytes b, None), w').
Proof.
  intros Hf [name Hname]%elem_of_dom. unfold os.File_Write. rewrite Hf, Hname.
  destruct (files w !! name); eexists; reflexivity.
Qed.

(** An overflowing write in an environment that lets it through: an
    open writer on a file that is there, no call failing, room in the
    queue. *)
Lemma Write_rotates (s : State) (data old : list Byte.byte) (fd : nat) :
  mu (rw s) = false -> done (rw s) = false -> err (rw s) = None ->
  faultless (world s) ->
  fp (rw s) = Some fd -> fd ∈ dom (fds (world s)) ->
  files (world s) !! filename (rw s) = Some old ->
  filename (rw s) <> "" -> filename (rw s) ∉ dirs (world s) ->
  backupName (rw s) ∉ dirs (world s) -> 0 < len (backupName (rw s)) ->
  (length (postCh (rw s)) < postCh_cap)%nat ->
  0 <= size (rw s) ->
  size (rw s) + len_bytes data > maxSize (opt (rw s)) ->
  len_bytes data <= maxSize (opt (rw s)) ->
  size (rw s) + len_bytes data <= max_int64 ->
  moves s = true /\ exists s', Write data s = Ret (len_bytes data, None) s'.
Proof.
  intros Hmu Hdone Herr Hf Hfp Hin Hold Hne Hnd Hbd Hbn Hroom Hsize Hover Hfit Hmax.
  pose proof (len_bytes_nonneg data) as Hn.
  split.
  - unfold moves, beforeStat. rewrite Hfp.
    rewrite File_Close_ok by (auto with faultless). cbn [snd].
    rewrite Stat_found.
    + cbn [fst]. rewrite bool_decide_eq_true_2 by reflexivity.
      apply andb_true_iff. split; [reflexivity|apply Z.ltb_lt; exact Hbn].
    + auto with faultless.
    + autorewrite with world. apply exists_file, elem_of_dom. eauto.
  - destruct (rotate_moves {| world := world s; rw := set_mu true (rw s) |} fd old)
      as (s1 & Hrun & Hrw1 & (fd1 & Hfp1 & Hin1) & Hfiles1 & Hdirs1 & Hf1); auto.
    unfold Write. rewrite locked_free by exact Hmu. unfold write. unfold_M.
    rewrite Hdone, Herr. cbn [rw world size opt set_mu].
    rewrite (gtb_false (len_bytes data) (maxSize (opt (rw s)))) by lia.
    cbn [rw world size opt set_mu].
    rewrite add64_exact by (unfold min_int64; lia).
    rewrite (gtb_true (size (rw s) + len_bytes data) (maxSize (opt (rw s)))) by lia.
    rewrite Hrun. cbn [rw world fp set_size]. rewrite Hfp1.
    destruct (File_Write_open fd1 data (world s1)) as [w' Hw]; [auto with faultless|exact Hin1|].
    cbn [world rw]. rewrite Hw. eexists. reflexivity.
Qed.

(** C6: a write whose payload fits [maxSize] while the size counter plus
    the length of the payload exceeds it rotates exactly once and then
    appends. Every such write that returns without an error has made
    these calls and no others: the close of the old handle if there was
    one, the stat, the rename of the file to the backup name if the stat
    has found the file and the backup name is not empty, one create of
    the active file, the close-on-exec, one write of the payload. A
    rename queues the backup name for the maintainer, and the backup
    then holds what the file held. The counter, set to zero by the
    rotation, ends at the length of the payload; the new file holds the
    payload; no other file is touched. And the write does return so: on
    an open writer whose file is there, with no call failing and room in
    the queue, these six calls are made, the rename among them. The sum
    is assumed not to leave [int64]. *)
Theorem Write_rotates_once (s : State) (data : list Byte.byte) :
  0 <= size (rw s) ->
  size (rw s) + len_bytes data > maxSize (opt (rw s)) ->
  size (rw s) + len_bytes data <= max_int64 ->
  (forall n s',
     Write data s = Ret (n, None) s' ->
     n = len_bytes data /\
     len_bytes data <= maxSize (opt (rw s)) /\
     size (rw s') = len_bytes data /\
     exists fd',
       trace (world s') =
         trace (world s)
         ++ match fp (rw s) with Some fd => [sysClose fd] | None => [] end
         ++ [sysStat (filename (rw s))]
         ++ (if moves s then [sysRename (filename (rw s)) (backupName (rw s))] else [])
         ++ [sysCreate (filename (rw s)); sysCloseOnExec fd'; sysWrite fd' data] /\
       postCh (rw s') = postCh (rw s) ++ (if moves s then [backupName (rw s)] else []) /\
       fp (rw s') = Some fd' /\
       files (world s') !! filename (rw s) = Some data /\
       (moves s = true -> backupName (rw s) <> filename (rw s) ->
        is_Some (files (world s) !! filename (rw s)) /\
        files (world s') !! backupName (rw s) = files (world s) !! filename (rw s)) /\
       same_files_but_two s s') /\
  (forall fd old,
     mu (rw s) = false -> done (rw s) = false -> err (rw s) = None ->
     len_bytes data <= maxSize (opt (rw s)) ->
     faultless (world s) ->
     fp (rw s) = Some fd -> fd ∈ dom (fds (world s)) ->
     files (world s) !! filename (rw s) = Some old ->
     filename (rw s) <> "" -> filename (rw s) ∉ dirs (world s) ->
     backupName (rw s) ∉ dirs (world s) -> backupName (rw s) <> filename (rw s) ->
     0 < len (backupName (rw s)) ->
     (length (postCh (rw s)) < postCh_cap)%nat ->
     exists s' fd',
       Write data s = Ret (len_bytes data, None) s' /\
       size (rw s') = len_bytes data /\
       trace (world s') =
         trace (world s)
         ++ [sysClose fd; sysStat (filename (rw s));
             sysRename (filename (rw s)) (backupName (rw s));
             sysCreate (filename (rw s)); sysCloseOnExec fd'; sysWrite fd' data] /\
       postCh (rw s') = postCh (rw s) ++ [backupName (rw s)] /\
       fp (rw s') = Some fd' /\
       files (world s') !! filename (rw s) = Some data /\
       files (world s') !! backupName (rw s) = Some old /\
       same_files_but_two s s').
Proof.
  intros Hsize Hover Hmax. split.
  - intros n s' Hrun. exact (Write_rotated s s' data n Hsize Hover Hmax Hrun).
  - intros fd old Hmu Hdone Herr Hfit Hf Hfp Hin Hold Hne Hnd Hbd Hdiff Hbn Hroom.
    destruct (Write_rotates s data old fd) as [Hmoves [s' Hrun]]; try assumption.
    destruct (Write_rotated s s' data _ Hsize Hover Hmax Hrun)
      as (_ & _ & Hsz & fd' & Htrace & Hq & Hfp' & Hnew & Hback & Hrest).
    rewrite Hmoves, Hfp in *. destruct (Hback eq_refl Hdiff) as [_ Hb].
    exists s', fd'. split; [exact Hrun|]. split; [exact Hsz|].
    split; [exact Htrace|]. split; [exact Hq|]. split; [exact Hfp'|].
    split; [exact Hnew|]. split; [rewrite Hb; exact Hold|exact Hrest].
Qed.

(** The writer of [first_record] when it has counted 10 of its 12
    bytes. *)
Definition nearly_full_record : State :=
  {| world := world first_record; rw := set_size 10 (rw first_record) |}.

Lemma Write_rotates_once_witness :
  exists s',
    Write (bytes "hello") nearly_full_record = Ret (5, None) s' /\
    size (rw s') = 5 /\
    trace (world s')
    = [sysClose 0%nat; sysStat "app.log";
       sysRename "app.log" "app-2023-11-14T22:13:20.123.log";
       sysCreate "app.log"; sysCloseOnExec 0%nat; sysWrite 0%nat (bytes "hello")] /\
    postCh (rw s') = ["app-2023-11-14T22:13:20.123.log"] /\
    files (world s') !! "app.log" = Some (bytes "hello") /\
    files (world s') !! "app-2023-11-14T22:13:20.123.log" = Some (bytes "first").
Proof.
  destruct (Write_rotates_once nearly_full_record (bytes "hello")) as [_ Hrun].
  - vm_compute. discriminate.
  - vm_compute. reflexivity.
  - vm_compute. discriminate.
  - destruct (Hrun 0%nat (bytes "first"))
      as (s' & fd' & Hw & Hsz & Htrace & Hq & Hfp & Hnew & Hback & _).
    + reflexivity.
    + reflexivity.
    + reflexivity.
    + vm_compute. discriminate.
    + intros tick c. reflexivity.
    + reflexivity.
    + apply elem_of_dom. exists "app.log". reflexivity.
    + reflexivity.
    + discriminate.
    + change ("app.log" ∉ ({["."]} : gset string)). apply not_elem_of_singleton. discriminate.
    + change ("app-2023-11-14T22:13:20.123.log" ∉ ({["."]} : gset string)).
      apply not_elem_of_singleton. discriminate.
    + discriminate.
    + vm_compute. reflexivity.
    + vm_compute. lia.
    + assert (Hfd : fd' = 0%nat).
      { revert Hw Hfp. vm_compute. intros [= <-]. intros [= <-]. reflexivity. }
      subst fd'. exists s'. split; [exact Hw|]. split; [exact Hsz|].
      split; [exact Htrace|]. split; [exact Hq|]. split; [exact Hnew|exact Hback].
Defined.

(** *** Compression *)

Lemma app_gz_differs (name : string) : name +:+ ".gz" <> name.
Proof.
  intros H. apply (f_equal String.length) in H. rewrite length_app in H. simpl in H. lia.
Qed.

Lemma GzipCopy_inv (out in_ : nat) (w w' : World) (o : option error) :
  os.GzipCopy out in_ w = (o, w') ->
  fds w' = fds w /\ dirs w' = dirs w /\ gzipOf w' = gzipOf w /\
  trace w' = trace w ++ [sysGzipCopy out in_] /\
  (files w' = files w \/
   o = None /\ exists src dst data,
     fds w !! in_ = Some src /\ fds w !! out = Some dst /\ files w !! src = Some data /\
     files w' = <[dst := gzipOf w data]> (files w)) /\
  (o = None -> forall src dst data,
     fds w !! in_ = Some src -> fds w !! out = Some dst -> files w !! src = Some data ->
     files w' = <[dst := gzipOf w data]> (files w)).
Proof.
  unfold os.GzipCopy. destruct (fault _ w) as [e|].
  { intros [= <- <-]. autorewrite with world. repeat split; auto. discriminate. }
  destruct (fds w !! in_) as [src|] eqn:Hin.
  2:{ intros [= <- <-]. autorewrite with world. repeat split; auto. discriminate. }
  destruct (fds w !! out) as [dst|] eqn:Hout.
  2:{ intros [= <- <-]. autorewrite with world. repeat split; auto. discriminate. }
  destruct (files w !! src) as [data|] eqn:Hsrc; intros [= <- <-]; autorewrite with world.
  - repeat split; auto.
    + right. split; [reflexivity|]. exists src, dst, data. auto.
    + intros _ src' dst' data' [= <-] [= <-] H3. rewrite Hsrc in H3. injection H3 as <-.
      reflexivity.
  - repeat split; auto. intros _ src' dst' data' [= <-] _ H3. congruence.
Qed.

Lemma Remove_inv (x : string) (w w' : World) (o : option error) :
  os.Remove x w = (o, w') ->
  fds w' = fds w /\ trace w' = trace w ++ [sysRemove x] /\ gzipOf w' = gzipOf w /\
  (files w' = files w \/ o = None /\ files w' = delete x (files w)) /\
  (o = None -> x ∈ dom (files w) -> files w' = delete x (files w)).
Proof.
  unfold os.Remove. destruct (fault _ w) as [e|].
  { intros [= <- <-]. autorewrite with world. repeat split; auto. discriminate. }
  destruct (bool_decide (x ∈ dom (files w))) eqn:Hin.
  { intros [= <- <-]. autorewrite with world. repeat split; auto. }
  apply bool_decide_eq_false_1 in Hin.
  destruct (bool_decide (x ∈ dirs w)); intros [= <- <-]; autorewrite with world;
    repeat split; auto; try discriminate; intros; contradiction.
Qed.

Arguments gzipFile : simpl never.
Arguments compressTo : simpl never.

Lemma gzipFile_unfold (name : string) (s : State) :
  gzipFile name s
  = match os.Open name (world s) with
    | ((_, Some e), w1) => Ret (Some e) {| world := w1; rw := rw s |}
    | ((None, None), w1) => Ret (Some ErrInvalid) {| world := w1; rw := rw s |}
    | ((Some in_, None), w1) =>
        match
          match os.Create (name +:+ ".gz") w1 with
          | ((_, Some e), w2) => Ret (Some e) {| world := w2; rw := rw s |}
          | ((None, None), w2) => Ret (Some ErrInvalid) {| world := w2; rw := rw s |}
          | ((Some out, None), w2) =>
              match compressTo name out in_ {| world := w2; rw := rw s |} with
              | Ret e2 s3 =>
                  let '(c, w4) := os.File_Close (Some out) (world s3) in
                  Ret (multierr_Append e2 c) {| world := w4; rw := rw s3 |}
              | Panic s3 => Panic s3
              | Block b s3 => Block b s3
              end
          end
        with
        | Ret e1 s4 =>
            let '(c, w5) := os.File_Close (Some in_) (world s4) in
            Ret (multierr_Append e1 c) {| world := w5; rw := rw s4 |}
        | Panic s4 => Panic s4
        | Block b s4 => Block b s4
        end
    end.
Proof.
  unfold gzipFile, compressTo. unfold_M.
  destruct (os.Open name (world s)) as [[[in_|] [e1|]] w1]; simpl; try reflexivity.
  destruct (os.Create (name +:+ ".gz") w1) as [[[out|] [e2|]] w2]; simpl.
  all: try solve [destruct (os.File_Close (Some in_) w2); reflexivity].
  destruct (os.GzipCopy out in_ w2) as [[e3|] w3]; simpl.
  { destruct (os.File_Close (Some out) w3) as [c w]; simpl.
    destruct (os.File_Close (Some in_) w); reflexivity. }
  unfold os.GzipClose. simpl. destruct (fault (sysGzipClose out) w3) as [e4|]; simpl.
  { destruct (os.File_Close (Some out) _) as [c w]; simpl.
    destruct (os.File_Close (Some in_) w); reflexivity. }
  destruct (os.Remove name _) as [c w5]; simpl.
  destruct (os.File_Close (Some out) w5) as [c' w]; simpl.
  destruct (os.File_Close (Some in_) w); reflexivity.
Qed.

(** Every outcome of the middle of [gzipFile], on the two descriptors just
    opened. *)
Lemma compressTo_outcome (name : string) (out in_ : nat) (w2 : World) (r : RotateWriter)
  (before : gmap string (list Byte.byte)) (gz : list Byte.byte -> list Byte.byte) :
  fds w2 !! in_ = Some name -> fds w2 !! out = Some (name +:+ ".gz") ->
  files w2 = <[name +:+ ".gz" := []]> before -> gzipOf w2 = gz ->
  exists e2 w3,
    compressTo name out in_ {| world := w2; rw := r |} = Ret e2 {| world := w3; rw := r |} /\
    fds w3 = fds w2 /\
    (forall n, n <> name -> n <> name +:+ ".gz" -> files w3 !! n = before !! n) /\
    (forall content, before !! name = Some content ->
       files w3 !! name = Some content \/
       files w3 !! name = None /\ files w3 !! (name +:+ ".gz") = Some (gz content)) /\
    (e2 = None -> name ∈ dom before -> files w3 !! name = None).
Proof.
  intros Hin Hout Hfiles2 Hgz2. pose proof (app_gz_differs name) as Hdiff.
  unfold compressTo. unfold_M.
  destruct (os.GzipCopy out in_ w2) as [c w3] eqn:H3.
  apply GzipCopy_inv in H3 as (Hfds3 & _ & Hgz3 & _ & Hfiles3 & Hcopied).
  assert (Hother3 : forall n, n <> name +:+ ".gz" -> files w3 !! n = before !! n).
  { intros n Hn. destruct Hfiles3 as [->|(_ & src & dst & data & Hsrc & Hdst & _ & ->)].
    - rewrite Hfiles2, lookup_insert_ne by auto. reflexivity.
    - rewrite Hout in Hdst. injection Hdst as <-.
      rewrite lookup_insert_ne, Hfiles2, lookup_insert_ne by auto. reflexivity. }
  destruct c as [e|]; simpl.
  { eexists _, _. split; [reflexivity|]. repeat split; auto; try discriminate.
    intros content Hc. left. rewrite Hother3 by auto. exact Hc. }
  unfold os.GzipClose. simpl. destruct (fault (sysGzipClose out) w3) as [e|]; simpl.
  { eexists _, _. split; [reflexivity|]. autorewrite with world.
    repeat split; auto; try discriminate.
    intros content Hc. left. rewrite Hother3 by auto. exact Hc. }
  destruct (os.Remove name (record (sysGzipClose out) w3)) as [c w4] eqn:H4.
  apply Remove_inv in H4 as (Hfds4 & _ & _ & Hfiles4 & Hremoved).
  autorewrite with world in *.
  eexists _, _. split; [reflexivity|]. split; [congruence|]. split; [|split].
  - intros n Hn Hgz. destruct Hfiles4 as [->|[_ ->]].
    + apply Hother3. exact Hgz.
    + rewrite lookup_delete_ne by auto. apply Hother3. exact Hgz.
  - intros content Hc. destruct Hfiles4 as [->|[_ ->]].
    + left. rewrite Hother3 by auto. exact Hc.
    + right. split; [apply lookup_delete_eq|].
      rewrite lookup_delete_ne by auto.
      rewrite (Hcopied eq_refl name (name +:+ ".gz") content); auto.
      * rewrite lookup_insert_eq, Hgz2. reflexivity.
      * rewrite Hfiles2, lookup_insert_ne by auto. exact Hc.
  - intros -> Hdom. rewrite Hremoved; [apply lookup_delete_eq|reflexivity|].
    apply elem_of_dom. rewrite Hother3 by auto. apply elem_of_dom. exact Hdom.
Qed.

Lemma File_Close_restores (fd : nat) (name : string) (w : World)
  (before : gmap nat string) :
  fds w = <[fd := name]> before -> before !! fd = None ->
  exists c, os.File_Close (Some fd) w = (c, set_fds before (record (sysClose fd) w)) /\
            (fault (sysClose fd) w = None -> c = None).
Proof.
  intros Hw Hfresh. unfold os.File_Close. rewrite Hw, delete_insert_id by exact Hfresh.
  destruct (fault _ w) as [e|].
  - exists (Some e). split; [reflexivity|discriminate].
  - rewrite bool_decide_eq_true_2.
    + exists None. auto.
    + rewrite dom_insert. apply elem_of_union. left. apply elem_of_singleton. reflexivity.
Qed.

(** Every outcome of [gzipFile]. *)
Lemma gzipFile_outcome (name : string) (s : State) :
  exists e s',
    gzipFile name s = Ret e s' /\ rw s' = rw s /\
    fds (world s') = fds (world s) /\
    (forall n, n <> name -> n <> name +:+ ".gz" ->
               files (world s') !! n = files (world s) !! n) /\
    (forall content, files (world s) !! name = Some content ->
       files (world s') !! name = Some content \/
       files (world s') !! name = None /\
       files (world s') !! (name +:+ ".gz") = Some (gzipOf (world s) content)) /\
    (e = None -> files (world s) !! name <> None /\ files (world s') !! name = None).
Proof.
  rewrite gzipFile_unfold. unfold os.Open.
  destruct (os.open_existing (sysOpen name) name (world s)) as [[f o] w1] eqn:H1.
  apply open_existing_inv in H1 as [(Ho & -> & ->)|(-> & -> & Hin & ->)].
  { destruct o as [e|]; [|contradiction].
    eexists _, _. split; [reflexivity|]. simpl. autorewrite with world.
    repeat split; auto; discriminate. }
  set (i := os.newfd (world s)).
  assert (Hi : fds (world s) !! i = None) by apply newfd_fresh.
  set (w1 := set_fds (<[i := name]> (fds (world s))) (record (sysOpen name) (world s))).
  assert (Hfds1 : fds w1 = <[i := name]> (fds (world s))) by reflexivity.
  assert (Hfiles1 : files w1 = files (world s)) by reflexivity.
  assert (Hgz1 : gzipOf w1 = gzipOf (world s)) by reflexivity.
  clearbody w1.
  destruct (os.Create (name +:+ ".gz") w1) as [[f e] w2] eqn:H2.
  destruct e as [e|].
  { apply Create_err in H2 as [-> ->]. simpl.
    destruct (File_Close_restores i name (record (sysCreate (name +:+ ".gz")) w1)
                (fds (world s))) as (c & -> & _); [autorewrite with world; exact Hfds1|exact Hi|].
    eexists _, _. split; [reflexivity|]. simpl. autorewrite with world.
    rewrite Hfiles1. repeat split; auto; destruct c; discriminate. }
  apply Create_ok in H2 as [-> ->]. simpl.
  set (o := os.newfd w1).
  assert (Ho : fds w1 !! o = None) by apply newfd_fresh.
  assert (Hio : o <> i).
  { intros Heq. rewrite Heq, Hfds1, lookup_insert_eq in Ho. discriminate. }
  set (w2 := set_fds (<[o := name +:+ ".gz"]> (fds w1))
               (set_files (<[name +:+ ".gz" := []]> (files w1))
                  (record (sysCreate (name +:+ ".gz")) w1))).
  assert (Hfds2 : fds w2 = <[o := name +:+ ".gz"]> (fds w1)) by reflexivity.
  assert (Hfiles2 : files w2 = <[name +:+ ".gz" := []]> (files (world s)))
    by (unfold w2; autorewrite with world; rewrite Hfiles1; reflexivity).
  assert (Hgz2 : gzipOf w2 = gzipOf (world s)) by (unfold w2; autorewrite with world; exact Hgz1).
  clearbody w2.
  destruct (compressTo_outcome name o i w2 (rw s) (files (world s)) (gzipOf (world s)))
    as (e2 & w3 & -> & Hfds3 & Hother & Hkept & Hgone); auto.
  { rewrite Hfds2, lookup_insert_ne, Hfds1, lookup_insert_eq by auto. reflexivity. }
  { rewrite Hfds2, lookup_insert_eq. reflexivity. }
  simpl.
  destruct (File_Close_restores o (name +:+ ".gz") w3 (fds w1)) as (c & -> & _);
    [congruence|exact Ho|].
  simpl.
  destruct (File_Close_restores i name
              (set_fds (fds w1) (record (sysClose o) w3)) (fds (world s)))
    as (c' & -> & _); [autorewrite with world; exact Hfds1|exact Hi|].
  eexists _, _. split; [reflexivity|]. simpl. autorewrite with world.
  repeat split; auto.
  - intros Hnone. apply elem_of_dom in Hin. destruct Hin as [x Hx]. congruence.
  - apply Hgone; [|exact Hin]. destruct e2; [|reflexivity].
    destruct c, c'; discriminate.
Qed.

Lemma GzipCopy_ok (out in_ : nat) (w : World) (src dst : string) (data : list Byte.byte) :
  fault (sysGzipCopy out in_) w = None ->
  fds w !! in_ = Some src -> fds w !! out = Some dst -> files w !! src = Some data ->
  os.GzipCopy out in_ w
  = (None, set_files (<[dst := gzipOf w data]> (files w)) (record (sysGzipCopy out in_) w)).
Proof.
  intros Hf Hin Hout Hsrc. unfold os.GzipCopy. rewrite Hf, Hin, Hout, Hsrc. reflexivity.
Qed.

Lemma Remove_file (name : string) (w : World) :
  fault (sysRemove name) w = None -> name ∈ dom (files w) ->
  os.Remove name w = (None, set_files (delete name (files w)) (record (sysRemove name) w)).
Proof.
  intros Hf Hin. unfold os.Remove. rewrite Hf, (bool_decide_eq_true_2 _ Hin). reflexivity.
Qed.

Lemma File_Close_open (fd : nat) (name : string) (w : World) :
  fault (sysClose fd) w = None -> fds w !! fd = Some name ->
  os.File_Close (Some fd) w = (None, set_fds (delete fd (fds w)) (record (sysClose fd) w)).
Proof.
  intros Hf Hfd. apply File_Close_ok; [exact Hf|]. apply elem_of_dom. eauto.
Qed.

(** X15: with no call failing, [gzipFile] turns the file into its
    compressed twin: it opens the file, creates the [.gz] beside it,
    copies through the gzip writer, removes the file, and closes both
    descriptors; seven calls in this order. The [.gz] holds the
    compressed content, the file is gone, and the table of open
    descriptors is what it was. *)
Theorem gzipFile_compresses (name : string) (s : State) (content : list Byte.byte) :
  faultless (world s) ->
  files (world s) !! name = Some content ->
  name ∉ dirs (world s) -> name +:+ ".gz" ∉ dirs (world s) ->
  exists s' i o,
    gzipFile name s = Ret None s' /\ rw s' = rw s /\
    files (world s')
    = delete name (<[name +:+ ".gz" := gzipOf (world s) content]> (files (world s))) /\
    fds (world s') = fds (world s) /\
    trace (world s')
    = trace (world s) ++ [sysOpen name; sysCreate (name +:+ ".gz"); sysGzipCopy o i;
                          sysGzipClose o; sysRemove name; sysClose o; sysClose i].
Proof.
  intros Hf Hfile Hnd Hgd. pose proof (app_gz_differs name) as Hdiff.
  assert (Hgzne : name +:+ ".gz" <> "") by (destruct name; discriminate).
  set (i := os.newfd (world s)).
  assert (Hi : fds (world s) !! i = None) by apply newfd_fresh.
  set (w1 := set_fds (<[i := name]> (fds (world s))) (record (sysOpen name) (world s))).
  set (o := os.newfd w1).
  assert (Ho : fds w1 !! o = None) by apply newfd_fresh.
  assert (Hio : o <> i).
  { intros Heq. unfold w1 in Ho. autorewrite with world in Ho.
    rewrite Heq, lookup_insert_eq in Ho. discriminate. }
  rewrite gzipFile_unfold. unfold os.Open.
  rewrite open_existing_found; [|auto with faultless|exact Hnd|apply elem_of_dom; eauto].
  fold i. fold w1.
  rewrite Create_made; [|unfold w1; auto 10 with faultless|exact Hgzne|exact Hgd].
  fold o. unfold compressTo. unfold_M.
  rewrite (GzipCopy_ok o i _ name (name +:+ ".gz") content);
    [|unfold w1; auto 10 with faultless|..].
  2:{ autorewrite with world. rewrite lookup_insert_ne by auto. unfold w1.
      autorewrite with world. apply lookup_insert_eq. }
  2:{ autorewrite with world. apply lookup_insert_eq. }
  2:{ autorewrite with world. rewrite lookup_insert_ne by auto. exact Hfile. }
  simpl. unfold os.GzipClose. rewrite fault_faultless by (unfold w1; auto 10 with faultless).
  simpl. rewrite Remove_file; [|unfold w1; auto 15 with faultless|].
  2:{ autorewrite with world. rewrite insert_insert_eq. apply elem_of_dom.
      rewrite lookup_insert_ne by auto. eauto. }
  simpl.
  rewrite (File_Close_open o (name +:+ ".gz")); [|unfold w1; auto 15 with faultless|].
  2:{ autorewrite with world. apply lookup_insert_eq. }
  simpl.
  rewrite (File_Close_open i name); [|unfold w1; auto 15 with faultless|].
  2:{ autorewrite with world. rewrite delete_insert_id by exact Ho. unfold w1.
      autorewrite with world. apply lookup_insert_eq. }
  simpl. eexists _, i, o. split; [reflexivity|]. simpl. autorewrite with world.
  split; [reflexivity|]. split; [rewrite insert_insert_eq; reflexivity|]. split.
  - rewrite delete_insert_id by exact Ho. unfold w1. autorewrite with world.
    apply delete_insert_id. exact Hi.
  - unfold w1. autorewrite with world. rewrite <- !app_assoc. reflexivity.
Qed.

(** X16: [gzipFile] loses no data and leaks no descriptor, whatever
    fails. In every outcome it returns, the open descriptors are the
    ones that were open before, and every file but the source and its
    [.gz] is untouched; the source is either still there with its
    content, or gone with the [.gz] holding the compressed content; and
    when no error is returned the source is gone. *)
Theorem gzipFile_loses_nothing (name : string) (s : State) (content : list Byte.byte) :
  files (world s) !! name = Some content ->
  exists e s',
    gzipFile name s = Ret e s' /\ rw s' = rw s /\
    fds (world s') = fds (world s) /\
    (forall n, n <> name -> n <> name +:+ ".gz" ->
               files (world s') !! n = files (world s) !! n) /\
    (files (world s') !! name = Some content \/
     files (world s') !! name = None /\
     files (world s') !! (name +:+ ".gz") = Some (gzipOf (world s) content)) /\
    (e = None -> files (world s') !! name = None).
Proof.
  intros Hfile.
  destruct (gzipFile_outcome name s) as (e & s' & Hrun & Hrw & Hfds & Hother & Hkept & Hgone).
  exists e, s'. repeat split; auto. intros He. apply Hgone, He.
Qed.

(** *** The age sweep and the clock *)

(** In a world whose one directory is the current one, no directory
    is listed by a pattern that the current directory does not match. *)
Lemma demo_filesOnly (s : State) :
  dirs (world s) = {["."]} -> matches (world s) (patternOf (rw s)) "." = false ->
  filesOnly s.
Proof.
  intros Hd Hm name Hin Hdir. rewrite Hd in Hdir. apply elem_of_singleton in Hdir. subst name.
  unfold backups in Hin. apply list_elem_of_filter in Hin as [Hin _]. congruence.
Qed.

(** The order of two stamps of fixed width, made in the same zone
    offset, with the same text behind them. *)
Lemma Format_order (z : time.Zone) (T1 T2 : time.Time) (layout tail : string) (off : Z) :
  layout = millisLayout \/ layout = time.RFC3339 ->
  time.zoneOffset z T1 = off -> time.zoneOffset z T2 = off ->
  year0 <= time.unixNano T1 / time.Second + off ->
  time.unixNano T2 / time.Second + off < year10000 ->
  time.unixNano T1 <= time.unixNano T2 ->
  String.compare (time.Format z T1 layout +:+ tail) (time.Format z T2 layout +:+ tail) <> Gt /\
  (layout = millisLayout -> time.unixNano T1 / 1000000 < time.unixNano T2 / 1000000 ->
   String.compare (time.Format z T1 layout +:+ tail) (time.Format z T2 layout +:+ tail) = Lt) /\
  (layout = time.RFC3339 ->
   time.unixNano T1 / time.Second < time.unixNano T2 / time.Second ->
   String.compare (time.Format z T1 layout +:+ tail) (time.Format z T2 layout +:+ tail) = Lt).
Proof.
  intros Hfmt Ho1 Ho2 Hlo Hhi Hle.
  set (t1 := time.unixNano T1) in *. set (t2 := time.unixNano T2) in *.
  assert (Hdiv : t1 / time.Second <= t2 / time.Second)
    by (apply Z.div_le_mono; [reflexivity|exact Hle]).
  destruct (civil_fields z T1) as (Hm1 & Hd1 & Hh1 & Hi1 & Hs1 & Hns1 & Hoff1 & Hnano1 & Hk1).
  destruct (civil_fields z T2) as (Hm2 & Hd2 & Hh2 & Hi2 & Hs2 & Hns2 & Hoff2 & Hnano2 & Hk2).
  fold t1 in Hk1, Hnano1. fold t2 in Hk2, Hnano2.
  rewrite Ho1 in Hk1, Hoff1. rewrite Ho2 in Hk2, Hoff2.
  assert (Hy1 : 0 <= time.year (time.civil z T1) <= 9999)
    by (apply civil_year; fold t1; rewrite Ho1; lia).
  assert (Hy2 : 0 <= time.year (time.civil z T2) <= 9999)
    by (apply civil_year; fold t2; rewrite Ho2; lia).
  assert (Hfit1 : fieldsFit (time.civil z T1)) by (unfold fieldsFit; lia).
  assert (Hfit2 : fieldsFit (time.civil z T2)) by (unfold fieldsFit; lia).
  pose proof (clockKey_mono_le (t1 / time.Second + off) (t2 / time.Second + off)
                ltac:(lia)) as Hkle.
  assert (Hkeys : fieldsKey (time.civil z T1) <= fieldsKey (time.civil z T2))
    by (unfold fieldsKey; lia).
  assert (Hstrict : t1 / time.Second < t2 / time.Second ->
                    fieldsKey (time.civil z T1) < fieldsKey (time.civil z T2)).
  { intros Hlt.
    pose proof (clockKey_mono (t1 / time.Second + off) (t2 / time.Second + off) ltac:(lia)).
    unfold fieldsKey. lia. }
  destruct Hfmt as [-> | ->].
  - rewrite !Format_millis by assumption.
    assert (Hval : String.compare
                     (stamp (time.civil z T1)
                        ("." +:+ fixed 3 (time.nanosecond (time.civil z T1) / 1000000))
                      +:+ tail)
                     (stamp (time.civil z T2)
                        ("." +:+ fixed 3 (time.nanosecond (time.civil z T2) / 1000000))
                      +:+ tail)
                   = match fieldsKey (time.civil z T1) ?= fieldsKey (time.civil z T2) with
                     | Eq => match time.nanosecond (time.civil z T1) / 1000000
                                   ?= time.nanosecond (time.civil z T2) / 1000000 with
                             | Eq => Eq
                             | c => c
                             end
                     | c => c
                     end).
    { rewrite !stamp_app, stamp_compare by assumption.
      rewrite !app_assoc_string, compare_app_same.
      rewrite compare_field by (simpl; Z.div_mod_to_equations; lia).
      rewrite compare_refl. reflexivity. }
    rewrite Hval.
    assert (Hsame : t1 / time.Second = t2 / time.Second ->
                    time.nanosecond (time.civil z T1) / 1000000
                    <= time.nanosecond (time.civil z T2) / 1000000).
    { intros Heq. rewrite Hnano1, Hnano2. unfold time.Second in *.
      Z.div_mod_to_equations. lia. }
    assert (Hsame' : t1 / time.Second = t2 / time.Second -> t1 / 1000000 < t2 / 1000000 ->
                     time.nanosecond (time.civil z T1) / 1000000
                     < time.nanosecond (time.civil z T2) / 1000000).
    { intros Heq Hlt. rewrite Hnano1, Hnano2. unfold time.Second in *.
      Z.div_mod_to_equations. lia. }
    assert (Heq : fieldsKey (time.civil z T1) = fieldsKey (time.civil z T2) ->
                  t1 / time.Second = t2 / time.Second).
    { intros Hk. destruct (Z.eq_dec (t1 / time.Second) (t2 / time.Second)) as [?|Hne];
        [assumption|specialize (Hstrict ltac:(lia)); lia]. }
    split; [|split].
    + destruct (Z.compare_spec (fieldsKey (time.civil z T1)) (fieldsKey (time.civil z T2)))
        as [Hk|Hk|Hk]; [|discriminate|lia].
      specialize (Hsame (Heq Hk)).
      destruct (Z.compare_spec (time.nanosecond (time.civil z T1) / 1000000)
                  (time.nanosecond (time.civil z T2) / 1000000));
        [discriminate|discriminate|lia].
    + intros _ Hlt.
      destruct (Z.compare_spec (fieldsKey (time.civil z T1)) (fieldsKey (time.civil z T2)))
        as [Hk|Hk|Hk]; [|reflexivity|lia].
      specialize (Hsame' (Heq Hk) Hlt).
      destruct (Z.compare_spec (time.nanosecond (time.civil z T1) / 1000000)
                  (time.nanosecond (time.civil z T2) / 1000000));
        [lia|reflexivity|lia].
    + intros Habs. discriminate Habs.
  - rewrite !Format_RFC3339 by assumption. rewrite Hoff1, Hoff2.
    rewrite !stamp_app, stamp_compare, compare_refl by assumption.
    split; [|split].
    + destruct (Z.compare_spec (fieldsKey (time.civil z T1)) (fieldsKey (time.civil z T2)));
        [discriminate|discriminate|lia].
    + intros Habs. discriminate Habs.
    + intros _ Hlt. specialize (Hstrict Hlt).
      destruct (Z.compare_spec (fieldsKey (time.civil z T1)) (fieldsKey (time.civil z T2)));
        [lia|reflexivity|lia].
Qed.

(** The instant whose stamp the boundary name carries. *)
Lemma boundary_names (w : World) (r : RotateWriter) (t : Z) :
  exists Tb tail,
    boundaryFileName w r
    = prefix r +:+ delimiter (opt r) +:+
      (time.Format (zone w) Tb (timeFormat (opt r)) +:+ tail) /\
    keptAs w r t
    = prefix r +:+ delimiter (opt r) +:+
      (time.Format (zone w) (shown w (localTime (opt r)) t) (timeFormat (opt r)) +:+ tail) /\
    time.unixNano Tb = now w + boundaryDelay (maxDays (opt r)) /\
    time.loc Tb = time.loc (shown w (localTime (opt r)) t) /\
    time.unixNano (shown w (localTime (opt r)) t) = t.
Proof.
  exists (time.Add (if negb (localTime (opt r)) then time.toUTC (Now w) else Now w)
            (boundaryDelay (maxDays (opt r)))),
         (ext r +:+ (if gzip (opt r) then ".gz" else "")).
  unfold boundaryFileName, keptAs, nameAt, backupNameOf, dateline.
  rewrite nowDate_shown. unfold shown.
  destruct (gzip (opt r)), (localTime (opt r)); simpl;
    rewrite ?app_assoc_string, ?app_empty_r; repeat split; reflexivity.
Qed.

Lemma compare_antisym_Gt (a b : string) : String.compare a b <> Gt -> String.compare b a <> Lt.
Proof.
  intros H Hlt. apply H. rewrite String.compare_antisym, Hlt. reflexivity.
Qed.

(** What the stamp of the boundary and the stamp of an instant of the
    same world come to, in a zone of constant offset. *)
Lemma boundary_order (w : World) (r : RotateWriter) (off t : Z) :
  timeFormat (opt r) = millisLayout \/ timeFormat (opt r) = time.RFC3339 ->
  (if localTime (opt r) then forall sec, zone w sec = off else off = 0) ->
  0 < maxDays (opt r) <= 106751 ->
  (now w - maxDays (opt r) * (24 * time.Hour) <= t ->
   year0 <= (now w - maxDays (opt r) * (24 * time.Hour)) / time.Second + off ->
   t / time.Second + off < year10000 ->
   str_ge (keptAs w r t) (boundaryFileName w r) = true) /\
  (year0 <= t / time.Second + off ->
   (now w - maxDays (opt r) * (24 * time.Hour)) / time.Second + off < year10000 ->
   (timeFormat (opt r) = millisLayout /\
    t / 1000000 < (now w - maxDays (opt r) * (24 * time.Hour)) / 1000000 \/
    timeFormat (opt r) = time.RFC3339 /\
    t / time.Second < (now w - maxDays (opt r) * (24 * time.Hour)) / time.Second) ->
   str_lt (keptAs w r t) (boundaryFileName w r) = true).
Proof.
  intros Hfmt Hzone Hdays.
  destruct (boundary_names w r t) as (Tb & tail & -> & -> & Hnb & Hloc & Hnt).
  rewrite boundaryDelay_days in Hnb by exact Hdays.
  set (Tt := shown w (localTime (opt r)) t) in *.
  assert (Hot : time.zoneOffset (zone w) Tt = off).
  { unfold Tt, shown, time.zoneOffset. destruct (localTime (opt r)); simpl;
      [apply Hzone|symmetry; exact Hzone]. }
  assert (Hob : time.zoneOffset (zone w) Tb = off).
  { unfold time.zoneOffset. rewrite Hloc. unfold Tt, shown.
    destruct (localTime (opt r)); simpl; [apply Hzone|symmetry; exact Hzone]. }
  unfold str_ge, str_lt, String.ltb. rewrite !compare_app_same.
  split.
  - intros Hle Hlo Hhi.
    pose proof (Format_order (zone w) Tb Tt (timeFormat (opt r)) tail off Hfmt Hob Hot)
      as Hord.
    rewrite Hnb, Hnt in Hord. destruct (Hord Hlo Hhi Hle) as [Hnot _].
    apply compare_antisym_Gt in Hnot.
    clear Hord. destruct (String.compare _ _); simpl; [reflexivity|contradiction|reflexivity].
  - intros Hlo Hhi Hold.
    pose proof (Format_order (zone w) Tt Tb (timeFormat (opt r)) tail off Hfmt Hot Hob)
      as Hord.
    rewrite Hnb, Hnt in Hord.
    assert (Hle : t <= now w - maxDays (opt r) * (24 * time.Hour)).
    { destruct (Z_le_gt_dec t (now w - maxDays (opt r) * (24 * time.Hour)));
        [assumption|]. destruct Hold as [[_ Hlt]|[_ Hlt]].
      - assert ((now w - maxDays (opt r) * (24 * time.Hour)) / 1000000 <= t / 1000000)
          by (apply Z.div_le_mono; lia). lia.
      - assert ((now w - maxDays (opt r) * (24 * time.Hour)) / time.Second
                <= t / time.Second)
          by (apply Z.div_le_mono; [reflexivity|lia]). lia. }
    destruct (Hord Hlo Hhi Hle) as (_ & Hms & Hsec).
    destruct Hold as [[Hl Hlt]|[Hl Hlt]].
    + rewrite (Hms Hl Hlt). reflexivity.
    + rewrite (Hsec Hl Hlt). reflexivity.
Qed.

(** X17: the age sweep keeps what is young enough. For a writer whose
    pattern of backups is a clean path, so that the lister spells the
    backups as the writer named them, with a default layout of fixed
    width, in a zone of constant offset (or under the UTC policy), and
    for a number of days that does not leave [int64], the backup stamped
    at an instant that lies no more than [maxDays] days back is not
    removed by the sweep, whatever else happens in it: its file is after
    the sweep what it was before. *)
Theorem age_sweep_keeps_recent (s : State) (off t : Z) :
  path.Clean (patternOf (rw s)) = patternOf (rw s) ->
  timeFormat (opt (rw s)) = @defaultTimeFormat constants_part_002 \/
  timeFormat (opt (rw s)) = @defaultTimeFormat constants_part_001 ->
  (if localTime (opt (rw s)) then forall sec, zone (world s) sec = off else off = 0) ->
  0 < maxDays (opt (rw s)) <= 106751 ->
  now (world s) - maxDays (opt (rw s)) * (24 * time.Hour) <= t ->
  year0 <= (now (world s) - maxDays (opt (rw s)) * (24 * time.Hour)) / time.Second + off ->
  t / time.Second + off < year10000 ->
  files (world (lastState (removeOutdatedFiles s))) !! keptAs (world s) (rw s) t
  = files (world s) !! keptAs (world s) (rw s) t.
Proof.
  intros _ Hfmt Hzone Hdays Hle Hlo Hhi. apply age_sweep_keeps.
  apply (boundary_order (world s) (rw s) off t Hfmt Hzone Hdays); assumption.
Qed.

Lemma age_sweep_keeps_recent_witness :
  keptAs (world two_ages) (rw two_ages) 1698796800000000000
  = "app-2023-11-01T00:00:00.000.log" /\
  files (world (lastState (removeOutdatedFiles two_ages)))
    !! "app-2023-11-01T00:00:00.000.log" = Some [].
Proof.
  assert (Hname : keptAs (world two_ages) (rw two_ages) 1698796800000000000
                  = "app-2023-11-01T00:00:00.000.log") by (vm_compute; reflexivity).
  split; [exact Hname|]. rewrite <- Hname.
  rewrite (age_sweep_keeps_recent two_ages 0 1698796800000000000).
  - rewrite Hname. vm_compute. reflexivity.
  - vm_compute. reflexivity.
  - left. reflexivity.
  - intros sec. reflexivity.
  - vm_compute. split; [reflexivity|discriminate].
  - vm_compute. discriminate.
  - vm_compute. discriminate.
  - vm_compute. reflexivity.
Defined.

(** X18: the age sweep removes what is too old. Under the same
    conditions (a pattern that is a clean path, a default layout of
    fixed width, a constant offset, days within [int64]), when the
    listing and the removals succeed and no directory is among the
    listed names, a backup that the lister finds under the name the
    writer gave it, and whose stamp lies more than [maxDays] days back
    by at least the unit that the layout shows (a millisecond, or a
    second for RFC 3339), is removed. *)
Theorem age_sweep_removes_old (s : State) (off t : Z) :
  path.Clean (patternOf (rw s)) = patternOf (rw s) ->
  timeFormat (opt (rw s)) = @defaultTimeFormat constants_part_002 \/
  timeFormat (opt (rw s)) = @defaultTimeFormat constants_part_001 ->
  (if localTime (opt (rw s)) then forall sec, zone (world s) sec = off else off = 0) ->
  0 < maxDays (opt (rw s)) <= 106751 ->
  badPattern (world s) (patternOf (rw s)) = false ->
  removable (world s) ->
  filesOnly s ->
  keptAs (world s) (rw s) t ∈ backups s ->
  year0 <= t / time.Second + off ->
  (now (world s) - maxDays (opt (rw s)) * (24 * time.Hour)) / time.Second + off < year10000 ->
  (timeFormat (opt (rw s)) = @defaultTimeFormat constants_part_002 /\
   t / 1000000 < (now (world s) - maxDays (opt (rw s)) * (24 * time.Hour)) / 1000000 \/
   timeFormat (opt (rw s)) = @defaultTimeFormat constants_part_001 /\
   t / time.Second
   < (now (world s) - maxDays (opt (rw s)) * (24 * time.Hour)) / time.Second) ->
  removeOutdatedFiles s = Ret tt (aged s) /\
  files (world (aged s)) !! keptAs (world s) (rw s) t = None.
Proof.
  intros _ Hfmt Hzone Hdays Hbad Hrem Honly Hin Hlo Hhi Hold.
  destruct (age_sweep s) as [_ Hsweep].
  destruct (Hsweep ltac:(lia) Hbad Hrem Honly) as (Hrun & _ & Hfiles).
  split; [exact Hrun|]. rewrite Hfiles. apply decide_True. split; [exact Hin|].
  apply (boundary_order (world s) (rw s) off t Hfmt Hzone Hdays); assumption.
Qed.

Lemma age_sweep_removes_old_witness :
  keptAs (world two_ages) (rw two_ages) 1696118400000000000
  = "app-2023-10-01T00:00:00.000.log" /\
  removeOutdatedFiles two_ages = Ret tt (aged two_ages) /\
  files (world two_ages) !! "app-2023-10-01T00:00:00.000.log" = Some [] /\
  files (world (aged two_ages)) !! "app-2023-10-01T00:00:00.000.log" = None.
Proof.
  assert (Hname : keptAs (world two_ages) (rw two_ages) 1696118400000000000
                  = "app-2023-10-01T00:00:00.000.log") by (vm_compute; reflexivity).
  split; [exact Hname|].
  destruct (age_sweep_removes_old two_ages 0 1696118400000000000) as [Hrun Hgone].
  - vm_compute. reflexivity.
  - left. reflexivity.
  - intros sec. reflexivity.
  - vm_compute. split; [reflexivity|discriminate].
  - reflexivity.
  - intros tick name. reflexivity.
  - apply demo_filesOnly; vm_compute; reflexivity.
  - rewrite Hname. unfold backups. apply list_elem_of_filter. split.
    + vm_compute. reflexivity.
    + apply elem_of_elements, elem_of_union. left. apply elem_of_dom. exists [].
      vm_compute. reflexivity.
  - vm_compute. discriminate.
  - vm_compute. reflexivity.
  - left. split; [reflexivity|]. vm_compute. reflexivity.
  - split; [exact Hrun|]. split; [vm_compute; reflexivity|].
    rewrite <- Hname. exact Hgone.
Defined.

(** *** The count sweep and the clock *)

(** The name a backup of the instant [t] is kept under: the stamp of
    the instant between the prefix with the delimiter and the
    extension. *)
Lemma keptAs_shape (w : World) (r : RotateWriter) (t : Z) :
  keptAs w r t
  = prefix r +:+ delimiter (opt r) +:+
    (time.Format (zone w) (shown w (localTime (opt r)) t) (timeFormat (opt r))
     +:+ (ext r +:+ (if gzip (opt r) then ".gz" else ""))).
Proof.
  unfold keptAs, nameAt, backupNameOf. rewrite nowDate_shown.
  destruct (gzip (opt r)); rewrite ?app_assoc_string, ?app_empty_r; reflexivity.
Qed.

(** In a zone of constant offset the names of two instants are in the
    order of the instants. *)
Lemma keptAs_order (w : World) (r : RotateWriter) (off t1 t2 : Z) :
  timeFormat (opt r) = millisLayout \/ timeFormat (opt r) = time.RFC3339 ->
  (if localTime (opt r) then forall sec, zone w sec = off else off = 0) ->
  year0 <= t1 / time.Second + off ->
  t2 / time.Second + off < year10000 ->
  t1 <= t2 ->
  String.compare (keptAs w r t1) (keptAs w r t2) <> Gt.
Proof.
  intros Hfmt Hzone Hlo Hhi Hle. rewrite !keptAs_shape, !compare_app_same.
  assert (Hoff : forall t, time.zoneOffset (zone w) (shown w (localTime (opt r)) t) = off).
  { intros t. unfold shown, time.zoneOffset. destruct (localTime (opt r)); simpl;
      [apply Hzone|symmetry; exact Hzone]. }
  assert (Hnano : forall t, time.unixNano (shown w (localTime (opt r)) t) = t).
  { intros t. unfold shown. destruct (localTime (opt r)); reflexivity. }
  destruct (Format_order (zone w) (shown w (localTime (opt r)) t1)
              (shown w (localTime (opt r)) t2) (timeFormat (opt r))
              (ext r +:+ (if gzip (opt r) then ".gz" else "")) off Hfmt (Hoff t1) (Hoff t2))
    as [Hord _]; rewrite ?Hnano; assumption.
Qed.

Lemma le_antisym_string (a b : string) :
  String.le a b -> String.compare b a <> Gt -> a = b.
Proof.
  unfold String.le, String.leb. rewrite (String.compare_antisym a b).
  destruct (String.compare b a) eqn:Hc; simpl; intros Hab Hba.
  - symmetry. apply String.compare_eq_iff. exact Hc.
  - destruct Hab.
  - destruct Hba. reflexivity.
Qed.

(** C8, as amended: a count sweep over more backups than [maxBackups]
    removes the names that sort first, as many as are over the budget,
    in ascending order, and nothing else; what it leaves are [maxBackups]
    backups, each above every removed one. Both revisions of the sweep do
    so. A budget that is not positive makes either sweep return at once.
    The names that sort first are the oldest backups when the names
    follow time: with a default layout of fixed width, under the UTC
    policy or in a zone of constant offset, and for years 0000 to 9999,
    every backup removed was stamped before every backup left. The
    listing and every removal are taken to succeed, no directory to be
    among the listed names, and the number of backups to fit an
    [int]. *)
Theorem count_sweep (s : State) :
  (maxBackups (opt (rw s)) <= 0 ->
   removeOverMaxFiles s = Ret tt s /\ deleteOverMaxFiles s = Ret tt s) /\
  (0 < maxBackups (opt (rw s)) < Z.of_nat (length (backups s)) ->
   Z.of_nat (length (backups s)) <= max_int64 ->
   badPattern (world s) (patternOf (rw s)) = false ->
   removable (world s) ->
   filesOnly s ->
   removeOverMaxFiles s = Ret tt (swept s) /\
   deleteOverMaxFiles s = Ret tt (swept s) /\
   sort_Strings (backups s) = overMax s ++ withinMax s /\
   Z.of_nat (length (overMax s))
   = Z.of_nat (length (backups s)) - maxBackups (opt (rw s)) /\
   Z.of_nat (length (withinMax s)) = maxBackups (opt (rw s)) /\
   (forall a b, a ∈ overMax s -> b ∈ withinMax s -> String.le a b /\ a <> b) /\
   trace (world (swept s))
   = trace (world s) ++ sysGlob (patternOf (rw s)) :: (sysRemove <$> overMax s) /\
   (forall name, files (world (swept s)) !! name
                 = if decide (name ∈ overMax s) then None else files (world s) !! name) /\
   backups (swept s) ≡ₚ withinMax s /\
   (forall off t1 t2,
      timeFormat (opt (rw s)) = @defaultTimeFormat constants_part_002 \/
      timeFormat (opt (rw s)) = @defaultTimeFormat constants_part_001 ->
      (if localTime (opt (rw s)) then forall sec, zone (world s) sec = off else off = 0) ->
      year0 <= t2 / time.Second + off ->
      t1 / time.Second + off < year10000 ->
      keptAs (world s) (rw s) t1 ∈ overMax s ->
      keptAs (world s) (rw s) t2 ∈ withinMax s ->
      t1 < t2)).
Proof.
  split; [apply count_sweep_disabled|].
  intros Hn Hmax Hbad Hrem Honly.
  destruct (count_sweep_removes s Hn Hmax Hbad Hrem Honly)
    as (H1 & H2 & H3 & H4 & H5 & Hle & H7 & H8 & H9).
  repeat (split; [assumption|]).
  intros off t1 t2 Hfmt Hzone Hlo Hhi Hgone Hkept.
  destruct (Hle _ _ Hgone Hkept) as [Hab Hne].
  destruct (Z_lt_ge_dec t1 t2) as [Hlt|Hge]; [exact Hlt|exfalso].
  apply Hne, le_antisym_string; [exact Hab|].
  apply (keptAs_order (world s) (rw s) off t2 t1 Hfmt Hzone Hlo Hhi). lia.
Qed.

Lemma count_sweep_witness :
  removeOverMaxFiles six_backups = Ret tt (swept six_backups) /\
  deleteOverMaxFiles six_backups = Ret tt (swept six_backups) /\
  overMax six_backups = ["app-2023-11-01T00:00:00.000.log"] /\
  backups (swept six_backups) ≡ₚ
    ["app-2023-11-02T00:00:00.000.log"; "app-2023-11-03T00:00:00.000.log";
     "app-2023-11-04T00:00:00.000.log"; "app-2023-11-05T00:00:00.000.log";
     "app-2023-11-06T00:00:00.000.log"].
Proof.
  destruct (count_sweep six_backups) as [_ H].
  destruct H as (H1 & H2 & _ & _ & _ & _ & _ & _ & H9 & _).
  - vm_compute. split; reflexivity.
  - vm_compute. discriminate.
  - reflexivity.
  - intros tick name. reflexivity.
  - apply demo_filesOnly; vm_compute; reflexivity.
  - split; [exact H1|]. split; [exact H2|].
    split; [vm_compute; reflexivity|].
    assert (Hw : withinMax six_backups =
      ["app-2023-11-02T00:00:00.000.log"; "app-2023-11-03T00:00:00.000.log";
       "app-2023-11-04T00:00:00.000.log"; "app-2023-11-05T00:00:00.000.log";
       "app-2023-11-06T00:00:00.000.log"]) by (vm_compute; reflexivity).
    rewrite <- Hw. exact H9.
Defined.

(** A writer that keeps one backup, under the local policy in a zone
    that sets its clocks back, with the backup of the last second
    before the change and the backup of the first second after it. *)
Definition fall_back_backups : State :=
  {| world := set_files (list_to_map ((fun n => (n, [])) <$>
                           ["app.log"; "app-2023-11-05T01:59:59.000.log";
                            "app-2023-11-05T01:00:00.000.log"]))
                fall_back_world;
     rw := demo_writer 100 1 None |}.

(** The claim as stated fails where the names do not follow time. In a
    zone that sets its clocks back, under the local policy that is the
    default, the backup of the later instant has the name that sorts
    first: with a budget of one, both sweeps remove the newer backup and
    leave the older one. *)
Lemma count_sweep_counterexample :
  1699163999000000000 < 1699164000000000000 /\
  keptAs (world fall_back_backups) (rw fall_back_backups) 1699163999000000000
  = "app-2023-11-05T01:59:59.000.log" /\
  keptAs (world fall_back_backups) (rw fall_back_backups) 1699164000000000000
  = "app-2023-11-05T01:00:00.000.log" /\
  files (world fall_back_backups) !! "app-2023-11-05T01:59:59.000.log" = Some [] /\
  files (world fall_back_backups) !! "app-2023-11-05T01:00:00.000.log" = Some [] /\
  removeOverMaxFiles fall_back_backups = Ret tt (swept fall_back_backups) /\
  deleteOverMaxFiles fall_back_backups = Ret tt (swept fall_back_backups) /\
  files (world (swept fall_back_backups)) !! "app-2023-11-05T01:00:00.000.log" = None /\
  files (world (swept fall_back_backups)) !! "app-2023-11-05T01:59:59.000.log" = Some [].
Proof.
  destruct (count_sweep_removes fall_back_backups) as (Hrun1 & Hrun2 & _).
  - vm_compute. split; reflexivity.
  - vm_compute. discriminate.
  - reflexivity.
  - intros tick name. reflexivity.
  - apply demo_filesOnly; [reflexivity|vm_compute; reflexivity].
  - split; [reflexivity|]. split; [vm_compute; reflexivity|].
    split; [vm_compute; reflexivity|]. split; [vm_compute; reflexivity|].
    split; [vm_compute; reflexivity|]. split; [exact Hrun1|]. split; [exact Hrun2|].
    split; vm_compute; reflexivity.
Qed.

(** *** The count sweep below its budget, in general *)

(** X19: the count sweep when the backups do not exceed the budget.
    With [maxBackups] positive and the listing succeeding, when there
    are fewer backups than [maxBackups] (none at all included) the
    sweep of [rotatewriter.go] panics on its slice expression, right
    after the listing, while the sweep of [part_000] returns without
    removing anything; when there are exactly [maxBackups] backups both
    return without removing anything. *)
Theorem count_sweep_within_budget (s : State) :
  0 < maxBackups (opt (rw s)) <= max_int64 ->
  badPattern (world s) (patternOf (rw s)) = false ->
  Z.of_nat (length (backups s)) <= maxBackups (opt (rw s)) ->
  removeOverMaxFiles s
  = Ret tt {| world := record (sysGlob (patternOf (rw s))) (world s); rw := rw s |} /\
  deleteOverMaxFiles s
  = (if Z.of_nat (length (backups s)) <? maxBackups (opt (rw s))
     then Panic {| world := record (sysGlob (patternOf (rw s))) (world s); rw := rw s |}
     else Ret tt {| world := record (sysGlob (patternOf (rw s))) (world s); rw := rw s |}).
Proof.
  intros [Hpos Hmax] Hbad Hle.
  assert (Hlen : length (sort_Strings (backups s)) = length (backups s))
    by (apply Permutation_length, sort_Strings_perm).
  assert (Hsub : sub64 (Z.of_nat (length (backups s))) (maxBackups (opt (rw s)))
                 = Z.of_nat (length (backups s)) - maxBackups (opt (rw s))).
  { apply wrap64_id. unfold in_int64, min_int64, max_int64 in *. lia. }
  split.
  - unfold removeOverMaxFiles. unfold mbind, M_bind, gets, mret, M_ret. simpl.
    assert ((maxBackups (opt (rw s)) <=? 0) = false) as -> by lia.
    rewrite (listFiles_ok s Hbad). simpl. rewrite Hlen.
    assert ((maxBackups (opt (rw s)) >=? Z.of_nat (length (backups s))) = true) as -> by lia.
    reflexivity.
  - unfold deleteOverMaxFiles. unfold mbind, M_bind, gets, mret, M_ret. simpl.
    assert ((maxBackups (opt (rw s)) <=? 0) = false) as -> by lia.
    rewrite (listFiles_ok s Hbad). simpl. rewrite Hlen, Hsub. unfold slice_to.
    destruct (Z.of_nat (length (backups s)) <? maxBackups (opt (rw s))) eqn:Hlt.
    + apply Z.ltb_lt in Hlt.
      assert ((Z.of_nat (length (backups s)) - maxBackups (opt (rw s)) <? 0) = true) as ->
        by lia.
      reflexivity.
    + apply Z.ltb_ge in Hlt.
      assert (Heq : Z.of_nat (length (backups s)) - maxBackups (opt (rw s)) = 0) by lia.
      rewrite Heq. simpl.
      assert ((Z.of_nat (length (sort_Strings (backups s))) <? 0) = false) as -> by lia.
      simpl. reflexivity.
Qed.

Lemma count_sweep_within_budget_witness :
  removeOverMaxFiles {| world := demo_world ["app.log"] no_faults;
                        rw := demo_writer 100 3 None |}
  = Ret tt {| world := record (sysGlob "app-*.log") (demo_world ["app.log"] no_faults);
              rw := demo_writer 100 3 None |} /\
  deleteOverMaxFiles {| world := demo_world ["app.log"] no_faults;
                        rw := demo_writer 100 3 None |}
  = Panic {| world := record (sysGlob "app-*.log") (demo_world ["app.log"] no_faults);
             rw := demo_writer 100 3 None |}.
Proof.
  apply (count_sweep_within_budget
           {| world := demo_world ["app.log"] no_faults; rw := demo_writer 100 3 None |}).
  - vm_compute. split; [reflexivity|discriminate].
  - reflexivity.
  - vm_compute. discriminate.
Defined.

(** *** The names the tests expect *)

(** X20: the name that [mockBackupName] of the tests computes from
    the file name and the date is the name [backupFileName] gives once
    [init] has run, provided the delimiter is the default one: with
    another delimiter the two differ, since the helper always takes the
    default. This is what [TestRotateWriter_backupFileName] checks. *)
Theorem backupFileName_as_tests_expect `{K : Constants} (s : State) :
  delimiter (opt (rw s)) = defaultDelimiter ->
  backupFileName (lastState (init s))
  = Ret (mockBackupName (filename (rw s))
           (nowDate (world (lastState (init s))) (timeFormat (opt (rw s)))
              (localTime (opt (rw s)))))
      (lastState (init s)).
Proof.
  intros Hd. destruct (init_fields s) as (_ & Hext & Hpre & Hopt & _).
  rewrite backupFileName_name. unfold backupNameOf, mockBackupName.
  rewrite Hext, Hpre, Hopt, Hd. reflexivity.
Qed.

Lemma backupFileName_as_tests_expect_witness :
  backupFileName
    (lastState (init {| world := demo_world ["temp.log"] no_faults;
                        rw := newWriter (H := constants_part_002) "temp.log"
                                [@WithTimeFormat constants_part_002 "2006-01-02T15:04:05"] |}))
  = Ret "temp-2023-11-14T22:13:20.log"
      (lastState (init {| world := demo_world ["temp.log"] no_faults;
                          rw := newWriter (H := constants_part_002) "temp.log"
                                  [@WithTimeFormat constants_part_002 "2006-01-02T15:04:05"] |})).
Proof.
  rewrite (backupFileName_as_tests_expect (K := constants_part_002)) by reflexivity.
  f_equal.
Defined.

(** *** The width of a backup name *)

Lemma stamp_length (c : time.Civil) (tail : string) :
  String.length (stamp c tail) = (19 + String.length tail)%nat.
Proof. unfold stamp. rewrite !length_app, !fixed_length. simpl. lia. Qed.

(** X21: with the default layout of [part_002] every backup name has
    the same width: the prefix, the delimiter, 23 bytes of date and
    time, the extension. This holds for every instant whose year, as
    the name shows it, has four digits, in any zone. *)
Theorem backup_name_width (w : World) (r : RotateWriter) (t : Z) :
  timeFormat (opt r) = @defaultTimeFormat constants_part_002 ->
  year0 <= t / time.Second + time.zoneOffset (zone w) (shown w (localTime (opt r)) t)
  < year10000 ->
  String.length (nameAt w r t)
  = (String.length (prefix r) + String.length (delimiter (opt r)) + 23
     + String.length (ext r))%nat.
Proof.
  change (@defaultTimeFormat constants_part_002) with millisLayout. intros Hfmt Hyear.
  unfold nameAt, backupNameOf. rewrite nowDate_shown, Hfmt.
  assert (Hn : time.unixNano (shown w (localTime (opt r)) t) = t)
    by (unfold shown; destruct (localTime _); reflexivity).
  rewrite Format_millis by (apply civil_year; rewrite Hn; exact Hyear).
  rewrite !length_app, stamp_length, length_app, fixed_length. simpl. lia.
Qed.

Lemma backup_name_width_witness :
  nameAt (demo_world [] no_faults) (demo_writer 10 0 None) 0 = "app-1970-01-01T00:00:00.000.log" /\
  String.length (nameAt (demo_world [] no_faults) (demo_writer 10 0 None) 0) = 31%nat.
Proof.
  split; [vm_compute; reflexivity|].
  rewrite (backup_name_width (demo_world [] no_faults) (demo_writer 10 0 None) 0).
  - reflexivity.
  - reflexivity.
  - vm_compute. split; [discriminate|reflexivity].
Defined.

(** *** Instances *)

Lemma Write_touches_two_names_witness :
  same_files_but_two six_backups (lastState (Write (bytes "hello") six_backups)) /\
  handle_on_file (lastState (Write (bytes "hello") six_backups)) /\
  same_settings six_backups (lastState (Write (bytes "hello") six_backups)).
Proof.
  apply Write_touches_two_names. intros fd name Hfd Hname.
  injection Hfd as <-. vm_compute in Hname. injection Hname as <-. reflexivity.
Defined.

Lemma Write_size_within_maxSize_witness :
  0 <= size (rw (lastState (Write (bytes "hello") (nearly_full no_faults))))
  <= maxSize (opt (rw (lastState (Write (bytes "hello") (nearly_full no_faults))))) /\
  maxSize (opt (rw (lastState (Write (bytes "hello") (nearly_full no_faults))))) = 12.
Proof.
  apply (Write_size_within_maxSize (nearly_full no_faults) (bytes "hello")).
  - vm_compute. split; discriminate.
  - vm_compute. discriminate.
Defined.

Lemma failed_close_is_fatal_witness :
  exists s1,
    rotate (nearly_full close_fails) = Ret (Some (PathError (sysClose 0%nat) EIO)) s1 /\
    dead_handle s1 0%nat /\
    exists e s3, Write (bytes "hello") s1 = Ret (0, Some e) s3 /\ dead_handle s3 0%nat /\
                 files (world s3) = files (world s1).
Proof.
  destruct (failed_close_is_fatal (nearly_full close_fails) 0%nat
              (PathError (sysClose 0%nat) EIO) eq_refl eq_refl)
    as (s1 & Hrun & Hdead & Hlater).
  exists s1. split; [exact Hrun|]. split; [exact Hdead|].
  assert (Hmu : mu (rw s1) = false).
  { revert Hrun. rewrite rotate_unfold. vm_compute. intros [= <-]. reflexivity. }
  destruct (Hlater s1 (bytes "hello") Hdead Hmu) as (e & s3 & Hw & Hd3 & _ & Hf3 & _).
  exists e, s3. auto.
Defined.

Lemma rotations_share_backup_name_witness :
  exists s1 s2,
    rotate first_record = Ret None s1 /\
    files (world s1) !! "app-2023-11-14T22:13:20.123.log" = Some (bytes "first") /\
    rotate (at_time (demo_now + 3600000000000) s1) = Ret None s2 /\
    files (world s2) !! "app-2023-11-14T22:13:20.123.log" = Some [] /\
    files (world s2) !! "app.log" = Some [] /\
    postCh (rw s2) = ["app-2023-11-14T22:13:20.123.log"; "app-2023-11-14T22:13:20.123.log"].
Proof.
  destruct (rotations_share_backup_name first_record 0%nat (bytes "first")
              (demo_now + 3600000000000))
    as (s1 & s2 & H1 & H2 & _ & H3 & H4 & H5 & H6 & _).
  - intros tick c. reflexivity.
  - reflexivity.
  - apply elem_of_dom. exists "app.log". reflexivity.
  - reflexivity.
  - discriminate.
  - change ("app.log" ∉ ({["."]} : gset string)). apply not_elem_of_singleton. discriminate.
  - change ("app-2023-11-14T22:13:20.123.log" ∉ ({["."]} : gset string)).
    apply not_elem_of_singleton. discriminate.
  - discriminate.
  - vm_compute. reflexivity.
  - vm_compute. reflexivity.
  - vm_compute. lia.
  - exists s1, s2. auto 10.
Defined.

Lemma gzipFile_compresses_witness :
  exists s',
    gzipFile "app-2023-11-01T00:00:00.000.log" with_backup = Ret None s' /\
    files (world s')
    = {["app.log" := []; "app-2023-11-01T00:00:00.000.log.gz" := bytes "records"]} /\
    fds (world s') = ∅.
Proof.
  destruct (gzipFile_compresses "app-2023-11-01T00:00:00.000.log" with_backup
              (bytes "records"))
    as (s' & i & o & Hrun & _ & Hfiles & Hfds & _).
  - intros tick c. reflexivity.
  - reflexivity.
  - change ("app-2023-11-01T00:00:00.000.log" ∉ ({["."]} : gset string)).
    apply not_elem_of_singleton. discriminate.
  - change ("app-2023-11-01T00:00:00.000.log.gz" ∉ ({["."]} : gset string)).
    apply not_elem_of_singleton. discriminate.
  - exists s'. split; [exact Hrun|]. split; [|exact Hfds].
    rewrite Hfiles. apply map_eq. intros k. vm_compute. reflexivity.
Defined.

Lemma gzipFile_loses_nothing_witness :
  exists e s',
    gzipFile "app-2023-11-01T00:00:00.000.log"
      {| world := demo_world ["app-2023-11-01T00:00:00.000.log"] read_only;
         rw := demo_writer 12 0 None |} = Ret (Some e) s' /\
    files (world s') !! "app-2023-11-01T00:00:00.000.log" = Some [] /\
    fds (world s') = ∅.
Proof.
  destruct (gzipFile_loses_nothing "app-2023-11-01T00:00:00.000.log"
              {| world := demo_world ["app-2023-11-01T00:00:00.000.log"] read_only;
                 rw := demo_writer 12 0 None |} [] eq_refl)
    as (e & s' & Hrun & _ & Hfds & _ & Hkept & Hgone).
  destruct e as [e|].
  - exists e, s'. split; [exact Hrun|]. split; [|exact Hfds].
    destruct Hkept as [Hk|[Hnone _]]; [exact Hk|].
    exfalso. revert Hrun Hnone. rewrite gzipFile_unfold. vm_compute.
    intros [= _ <-]. discriminate.
  - exfalso. revert Hrun. rewrite gzipFile_unfold. vm_compute. discriminate.
Defined.

(** *** A stat that fails *)

Lemma Stat_refused (name : string) (w : World) (e : error) :
  fault (sysStat name) w = Some e -> os.Stat name w = (Some e, record (sysStat name) w).
Proof. intros Hf. unfold os.Stat. rewrite Hf. reflexivity. Qed.

Lemma fault_record (c c' : Effect) (w : World) :
  (forall tick, faults w tick c = None) -> fault c (record c' w) = None.
Proof. intros Hf. unfold fault. autorewrite with world. rewrite Hf. reflexivity. Qed.

Lemma construct_refused `{K : Constants} (name : string)
  (options : list RotateOption) (w : World) (content : list Byte.byte) (errno : Errno) :
  files w !! name = Some content ->
  name <> "" -> name ∉ dirs w -> path.Dir name ∈ dirs w -> path.Dir name <> name ->
  faults w (length (trace w)) (sysStat name) = Some errno ->
  (forall tick c, c <> sysStat name -> faults w tick c = None) ->
  construct name options w
  = Ret (Some (initialised name options w (os.newfd w)), None)
      (record goMaintainer
         (record (sysCloseOnExec (os.newfd w))
            (set_fds (<[os.newfd w := name]> (fds w))
               (set_files (<[name := []]> (files w))
                  (record (sysCreate name)
                     (record (sysStat (path.Dir name)) (record (sysStat name) w))))))).
Proof.
  intros Hfile Hne Hnd Hdir Hself Hstat Hrest.
  assert (Hother : forall c c', c <> sysStat name -> fault c (record c' w) = None).
  { intros c c' Hc. apply fault_record. intros tick. apply Hrest, Hc. }
  unfold construct, init. unfold_M.
  rewrite (Stat_refused name w (PathError (sysStat name) errno))
    by (unfold fault; rewrite Hstat; reflexivity).
  simpl. rewrite Stat_found; [|apply Hother; congruence|apply exists_dir; exact Hdir].
  simpl. rewrite Create_made; [|unfold fault; autorewrite with world; rewrite Hrest;
                                 [reflexivity|discriminate]|exact Hne|exact Hnd].
  simpl. unfold os.CloseOnExec. simpl. autorewrite with world. reflexivity.
Qed.

(** X22: [init] takes every failure of the stat for the absence of
    the file. When the stat of a file that is there fails for another
    reason, and the calls after it succeed, [NewRotateWriter] goes on
    to [os.Create], which empties the file: what the log held is
    lost, and the writer is returned without an error. Both revisions
    do the same. *)
Theorem refused_stat_truncates (K : Constants) (name : string)
  (options : list RotateOption) (w : World) (content : list Byte.byte) (errno : Errno) :
  files w !! name = Some content ->
  name <> "" -> name ∉ dirs w -> path.Dir name ∈ dirs w -> path.Dir name <> name ->
  faults w (length (trace w)) (sysStat name) = Some errno ->
  (forall tick c, c <> sysStat name -> faults w tick c = None) ->
  exists w',
    part_000.NewRotateWriter name options w
    = Ret (Some (initialised name options w (os.newfd w)), None) w' /\
    rotatewriter_go.NewRotateWriter name options w
    = Ret (Some (initialised (H := constants_part_002) name options w (os.newfd w)), None) w' /\
    files w' = <[name := []]> (files w) /\
    trace w' = trace w ++ [sysStat name; sysStat (path.Dir name); sysCreate name;
                           sysCloseOnExec (os.newfd w); goMaintainer].
Proof.
  intros Hfile Hne Hnd Hdir Hself Hstat Hrest. eexists.
  unfold part_000.NewRotateWriter, rotatewriter_go.NewRotateWriter.
  rewrite (len_nonempty name Hne).
  rewrite !(construct_refused name options w content errno) by assumption.
  split; [reflexivity|]. split; [reflexivity|].
  autorewrite with world. rewrite <- !app_assoc. split; reflexivity.
Qed.

Lemma refused_stat_truncates_witness :
  exists w',
    rotatewriter_go.NewRotateWriter "app.log" []
      (set_files {["app.log" := bytes "records"]} (demo_world [] stat_refused))
    = Ret (Some (initialised (H := constants_part_002) "app.log" []
                   (set_files {["app.log" := bytes "records"]} (demo_world [] stat_refused))
                   0), None) w' /\
    files w' !! "app.log" = Some [].
Proof.
  destruct (refused_stat_truncates constants_part_002 "app.log" []
              (set_files {["app.log" := bytes "records"]} (demo_world [] stat_refused))
              (bytes "records") EACCES)
    as (w' & _ & Hrun & Hfiles & _).
  - reflexivity.
  - discriminate.
  - change ("app.log" ∉ ({["."]} : gset string)). apply not_elem_of_singleton. discriminate.
  - change (path.Dir "app.log" ∈ ({["."]} : gset string)). apply elem_of_singleton.
    vm_compute. reflexivity.
  - vm_compute. discriminate.
  - reflexivity.
  - intros tick c Hc. destruct c; try reflexivity. simpl.
    destruct (String.eqb name "app.log") eqn:E; [|reflexivity].
    apply String.eqb_eq in E. subst name. contradiction.
  - exists w'. split; [exact Hrun|]. rewrite Hfiles. apply lookup_insert_eq.
Defined.

